(** * go-vtm: the sample-generation pipeline

  A shallow embedding of the synthesis core of go-vtm (packages [synth],
  [tracker] and [audio]): the ADSR envelope, the oscillator, the FM
  operators and instruments, the polymorphic voice, the per-channel voice
  allocator and the tracker player; then the note names, the note fields
  and pattern directives of VTM files, and the WAV writer.

  Conventions.
  - A Go [int] is a [Z]; every increment wraps at 64 bits ([Go.wrap]).
  - A Go [float64] is an IEEE 754 binary64 value ([spec_float] with
    precision 53 and maximal exponent 1024); [+ - * /] and the comparisons
    are the correctly rounded operations of [SpecFloat], each operation
    rounded on its own (as on amd64, where no multiply-add is fused).
  - A pointer that is [nil] in some reachable state is an [option]; a
    run-time panic (nil dereference, index out of range) is [None] in the
    option monad.
  - The functions of Go's [math] package that the pipeline calls are the
    fields of the class [MathLib]; every theorem holds for all of them.
  - A Go [string] is a sequence of bytes, a [string] here; a file is the
    list of its bytes, and writing to it never fails.
  - A loop without a bound ([RenderToWAV]) takes the number of iterations
    it may run as an argument and says when it has not finished. *)

From Stdlib Require Import ZArith Lia Bool List String Ascii.
From Stdlib Require Import Floats.SpecFloat.
From stdpp Require Import base tactics option list gmap.

Local Open Scope Z_scope.

(** ** Go base types *)

Module Go.

Definition int_min : Z := - 2 ^ 63.
Definition int_max : Z := 2 ^ 63 - 1.

(** Two's complement wrap-around of a 64-bit [int]. *)
Definition wrap (z : Z) : Z := (z + 2 ^ 63) mod 2 ^ 64 - 2 ^ 63.

(** [len(s)] of a slice. *)
Definition len {A} (s : list A) : Z := Z.of_nat (length s).

(** [s[i]]: panics when the index is out of range. *)
Definition index {A} (s : list A) (i : Z) : option A :=
  if i <? 0 then None else s !! Z.to_nat i.

Definition float64 : Type := spec_float.

Definition fadd : float64 -> float64 -> float64 := SFadd 53 1024.
Definition fsub : float64 -> float64 -> float64 := SFsub 53 1024.
Definition fmul : float64 -> float64 -> float64 := SFmul 53 1024.
Definition fdiv : float64 -> float64 -> float64 := SFdiv 53 1024.
Definition feq : float64 -> float64 -> bool := SFeqb.
Definition flt : float64 -> float64 -> bool := SFltb.
Definition fle : float64 -> float64 -> bool := SFleb.

(** [float64(i)] for an [int] (round to nearest even). *)
Definition float64_of_int (i : Z) : float64 := binary_normalize 53 1024 i 0 false.

(** A decimal literal [n/d]: the binary64 value nearest to the quotient
    (both [n] and [d] are below 2^53 wherever this is used). *)
Definition lit (n d : Z) : float64 := fdiv (float64_of_int n) (float64_of_int d).

(** [int(x)] for a [float64]: truncation toward zero.  Where the value
    does not fit (NaN, infinities, out of range) the Go specification
    leaves the result to the implementation; this is what amd64 yields. *)
Definition int_of_float64 (x : float64) : Z :=
  match x with
  | S754_zero _ => 0
  | S754_finite s m e =>
      let mag := match e with
                 | Zneg p => Z.shiftr (Zpos m) (Zpos p)
                 | _ => Z.shiftl (Zpos m) e
                 end in
      let v := if s then - mag else mag in
      if (int_min <=? v) && (v <=? int_max) then v else int_min
  | _ => int_min
  end.

End Go.

Import Go.

Notation "'f0.0'" := (S754_zero false) (only parsing).
Notation "'f1.0'" := (float64_of_int 1) (only parsing).

(** ** package synth: envelope *)

Module EnvelopeStage.
Inductive t := Attack | Decay | Sustain | Release | Off.

Global Instance eq_dec : EqDecision t.
Proof. solve_decision. Defined.
End EnvelopeStage.
Import EnvelopeStage.

Module Envelope.

Record t := mk {
  attackTime : float64;   (* seconds *)
  decayTime : float64;    (* seconds *)
  sustainLevel : float64; (* 0.0 to 1.0 *)
  releaseTime : float64;  (* seconds *)
  stage : EnvelopeStage.t;
  level : float64;
  sampleRate : float64;
  sampleCount : Z
}.

Definition NewEnvelope (attack decay sustain release rate : float64) : t :=
  {| attackTime := attack; decayTime := decay; sustainLevel := sustain;
     releaseTime := release; sampleRate := rate;
     stage := Off; level := f0.0; sampleCount := 0 |}.

(** The three fields that [Trigger], [Release] and [Next] write. *)
Definition set_stage (e : t) (st : EnvelopeStage.t) (n : Z) : t :=
  {| attackTime := attackTime e; decayTime := decayTime e;
     sustainLevel := sustainLevel e; releaseTime := releaseTime e;
     sampleRate := sampleRate e;
     stage := st; level := level e; sampleCount := n |}.

Definition set_level (e : t) (l : float64) : t :=
  {| attackTime := attackTime e; decayTime := decayTime e;
     sustainLevel := sustainLevel e; releaseTime := releaseTime e;
     sampleRate := sampleRate e;
     stage := stage e; level := l; sampleCount := sampleCount e |}.

Definition Trigger (e : t) : t := set_stage e Attack 0.

Definition Release (e : t) : t :=
  if decide (stage e <> Off) then set_stage e EnvelopeStage.Release 0 else e.

Definition attackSamples (e : t) : Z := int_of_float64 (fmul (attackTime e) (sampleRate e)).
Definition decaySamples (e : t) : Z := int_of_float64 (fmul (decayTime e) (sampleRate e)).
Definition releaseSamples (e : t) : Z := int_of_float64 (fmul (releaseTime e) (sampleRate e)).

(** [Next] returns the new level together with the updated envelope. *)
Definition Next (e : t) : float64 * t :=
  let e' :=
    match stage e with
    | Attack =>
        let attackSamples := attackSamples e in
        if attackSamples =? 0 then set_stage (set_level e f1.0) Decay 0
        else if attackSamples <=? sampleCount e then set_stage (set_level e f1.0) Decay 0
        else set_stage
               (set_level e (fdiv (float64_of_int (sampleCount e)) (float64_of_int attackSamples)))
               Attack (wrap (sampleCount e + 1))
    | Decay =>
        let decaySamples := decaySamples e in
        if decaySamples =? 0 then set_stage (set_level e (sustainLevel e)) Sustain (sampleCount e)
        else if decaySamples <=? sampleCount e then
               set_stage (set_level e (sustainLevel e)) Sustain (sampleCount e)
        else
          let t := fdiv (float64_of_int (sampleCount e)) (float64_of_int decaySamples) in
          set_stage (set_level e (fadd f1.0 (fmul t (fsub (sustainLevel e) f1.0))))
                    Decay (wrap (sampleCount e + 1))
    | Sustain => set_level e (sustainLevel e)
    | EnvelopeStage.Release =>
        let releaseSamples := releaseSamples e in
        let startLevel := sustainLevel e in
        if releaseSamples =? 0 then set_stage (set_level e f0.0) Off (sampleCount e)
        else if releaseSamples <=? sampleCount e then
               set_stage (set_level e f0.0) Off (sampleCount e)
        else
          let t := fdiv (float64_of_int (sampleCount e)) (float64_of_int releaseSamples) in
          set_stage (set_level e (fmul startLevel (fsub f1.0 t)))
                    EnvelopeStage.Release (wrap (sampleCount e + 1))
    | Off => set_level e f0.0
    end in
  (level e', e').

Definition IsActive (e : t) : bool := bool_decide (stage e <> Off).

(** [n] successive calls of [Next], keeping the envelope. *)
Fixpoint steps (n : nat) (e : t) : t :=
  match n with
  | O => e
  | S n' => steps n' (snd (Next e))
  end.

End Envelope.

(** ** package math: the functions the pipeline calls *)

Class MathLib := {
  math_Sin : float64 -> float64;
  math_Pow : float64 -> float64 -> float64;
  math_Mod : float64 -> float64 -> float64;
  math_Floor : float64 -> float64
}.

(** [math.Pi] as a binary64 value (0x400921FB54442D18), and the constant
    expression [2.0 * math.Pi], which Go folds before rounding. *)
Definition math_Pi : float64 := S754_finite false 7074237752028440 (-51).
Definition two_Pi : float64 := S754_finite false 7074237752028440 (-50).

(** ** package synth: oscillator *)

Inductive WaveType := Square | Saw | Triangle | Sine | Noise.

Module Oscillator.

Record t := mk {
  waveType : WaveType;
  frequency : float64;
  phase : float64;
  sampleRate : float64
}.

Definition NewOscillator (waveType : WaveType) (sampleRate : float64) : t :=
  {| waveType := waveType; sampleRate := sampleRate; phase := f0.0; frequency := f0.0 |}.

Definition SetFrequency (o : t) (freq : float64) : t :=
  {| waveType := waveType o; frequency := freq; phase := phase o; sampleRate := sampleRate o |}.

Definition set_waveType (o : t) (w : WaveType) : t :=
  {| waveType := w; frequency := frequency o; phase := phase o; sampleRate := sampleRate o |}.

Definition set_phase (o : t) (ph : float64) : t :=
  {| waveType := waveType o; frequency := frequency o; phase := ph; sampleRate := sampleRate o |}.

Definition Next `{MathLib} (o : t) : float64 * t :=
  let sample :=
    match waveType o with
    | Square => if flt (phase o) (lit 1 2) then f1.0 else float64_of_int (-1)
    | Saw => fsub (fmul (float64_of_int 2) (phase o)) f1.0
    | Triangle =>
        if flt (phase o) (lit 1 2) then fsub (fmul (float64_of_int 4) (phase o)) f1.0
        else fsub (float64_of_int 3) (fmul (float64_of_int 4) (phase o))
    | Sine => math_Sin (fmul two_Pi (phase o))
    | Noise =>
        (* Simple white noise *)
        fsub (fmul (float64_of_int 2) (math_Mod (fmul (phase o) (lit 123456789 10000)) f1.0)) f1.0
    end in
  (* Advance phase *)
  let phaseIncrement := fdiv (frequency o) (sampleRate o) in
  let phase1 := fadd (phase o) phaseIncrement in
  let phase2 := if fle f1.0 phase1 then fsub phase1 f1.0 else phase1 in
  (sample, set_phase o phase2).

Definition Reset (o : t) : t := set_phase o f0.0.

End Oscillator.

(** ** package synth: notes *)

(** A4 (note 57) = 440 Hz; f = 440 * 2^((n-57)/12). *)
Definition NoteToFrequency `{MathLib} (note : Z) : float64 :=
  fmul (float64_of_int 440)
       (math_Pow (float64_of_int 2) (fdiv (float64_of_int (wrap (note - 57))) (float64_of_int 12))).

(** ** package synth: FM operator *)

Module FMOperator.

Record t := mk {
  phase : float64;
  frequency : float64;
  sampleRate : float64;
  envelope : Envelope.t;
  outputLevel : float64; (* Operator output volume (0.0 to 1.0) *)
  ratio : float64        (* Frequency ratio *)
}.

Definition NewFMOperator (sampleRate : float64) : t :=
  {| phase := f0.0; frequency := f0.0; sampleRate := sampleRate;
     envelope := Envelope.NewEnvelope (lit 1 100) (lit 1 10) (lit 6 10) (lit 2 10) sampleRate;
     outputLevel := f1.0; ratio := f1.0 |}.

Definition set_envelope (op : t) (e : Envelope.t) : t :=
  {| phase := phase op; frequency := frequency op; sampleRate := sampleRate op;
     envelope := e; outputLevel := outputLevel op; ratio := ratio op |}.

Definition set_phase (op : t) (ph : float64) : t :=
  {| phase := ph; frequency := frequency op; sampleRate := sampleRate op;
     envelope := envelope op; outputLevel := outputLevel op; ratio := ratio op |}.

Definition SetEnvelope (op : t) (attack decay sustain release : float64) : t :=
  set_envelope op (Envelope.NewEnvelope attack decay sustain release (sampleRate op)).

Definition SetRatio (op : t) (r : float64) : t :=
  {| phase := phase op; frequency := frequency op; sampleRate := sampleRate op;
     envelope := envelope op; outputLevel := outputLevel op; ratio := r |}.

Definition SetOutputLevel (op : t) (l : float64) : t :=
  {| phase := phase op; frequency := frequency op; sampleRate := sampleRate op;
     envelope := envelope op; outputLevel := l; ratio := ratio op |}.

Definition SetFrequency (op : t) (freq : float64) : t :=
  {| phase := phase op; frequency := fmul freq (ratio op); sampleRate := sampleRate op;
     envelope := envelope op; outputLevel := outputLevel op; ratio := ratio op |}.

Definition Trigger (op : t) : t :=
  set_phase (set_envelope op (Envelope.Trigger (envelope op))) f0.0.

Definition Release (op : t) : t :=
  set_envelope op (Envelope.Release (envelope op)).

(** [modulation] is added to the phase (in radians). *)
Definition Next `{MathLib} (op : t) (modulation : float64) : float64 * t :=
  let '(env, e1) := Envelope.Next (envelope op) in
  let sample := math_Sin (fadd (fmul two_Pi (phase op)) modulation) in
  let phaseIncrement := fdiv (frequency op) (sampleRate op) in
  let phase1 := fadd (phase op) phaseIncrement in
  let phase2 := if fle f1.0 phase1 then fsub phase1 (math_Floor phase1) else phase1 in
  (fmul (fmul sample env) (outputLevel op), set_phase (set_envelope op e1) phase2).

Definition IsActive (op : t) : bool := Envelope.IsActive (envelope op).

(** Resets the operator: phase 0, envelope Off at level 0. *)
Definition Reset (op : t) : t :=
  set_phase
    (set_envelope op (Envelope.set_stage (Envelope.set_level (envelope op) f0.0) Off
                        (Envelope.sampleCount (envelope op))))
    f0.0.

End FMOperator.

(** ** package synth: FM instrument *)

(** How operators are connected. *)
Inductive FMAlgorithm :=
| FM2OpSimple   (* Op2 -> Op1 -> Out *)
| FM2OpParallel (* Op1 -> Out, Op2 -> Out *)
| FM3OpStack    (* Op3 -> Op2 -> Op1 -> Out *)
| FM4OpPiano.   (* Op4 -> Op3 -> Op1 -> Out, Op2 -> Op1 *)

Module FMInstrument.

Record t := mk {
  operators : list FMOperator.t;
  algorithm : FMAlgorithm;
  modulationIndex : float64;
  sampleRate : float64;
  baseFrequency : float64;
  volume : float64
}.

Definition set_operators (fm : t) (ops : list FMOperator.t) : t :=
  {| operators := ops; algorithm := algorithm fm; modulationIndex := modulationIndex fm;
     sampleRate := sampleRate fm; baseFrequency := baseFrequency fm; volume := volume fm |}.

(** [make] panics on a negative length. *)
Definition NewFMInstrument (numOperators : Z) (algorithm : FMAlgorithm) (sampleRate : float64)
  : option t :=
  if numOperators <? 0 then None
  else Some {| operators := replicate (Z.to_nat numOperators) (FMOperator.NewFMOperator sampleRate);
               algorithm := algorithm; modulationIndex := float64_of_int 2;
               sampleRate := sampleRate; baseFrequency := f0.0; volume := f1.0 |}.

(** The shared shape of the three operator setters: guarded by
    [opIndex < len(fm.operators)] only, so a negative index panics. *)
Definition with_operator (fm : t) (opIndex : Z) (f : FMOperator.t -> FMOperator.t) : option t :=
  if opIndex <? len (operators fm) then
    op ← index (operators fm) opIndex;
    Some (set_operators fm (<[Z.to_nat opIndex := f op]> (operators fm)))
  else Some fm.

Definition SetOperatorRatio (fm : t) (opIndex : Z) (ratio : float64) : option t :=
  with_operator fm opIndex (fun op => FMOperator.SetRatio op ratio).

Definition SetOperatorEnvelope (fm : t) (opIndex : Z) (attack decay sustain release : float64)
  : option t :=
  with_operator fm opIndex (fun op => FMOperator.SetEnvelope op attack decay sustain release).

Definition SetOperatorLevel (fm : t) (opIndex : Z) (level : float64) : option t :=
  with_operator fm opIndex (fun op => FMOperator.SetOutputLevel op level).

Definition SetModulationIndex (fm : t) (i : float64) : t :=
  {| operators := operators fm; algorithm := algorithm fm; modulationIndex := i;
     sampleRate := sampleRate fm; baseFrequency := baseFrequency fm; volume := volume fm |}.

(** Triggers all operators with the given frequency. *)
Definition NoteOn `{MathLib} (fm : t) (note : Z) (velocity : float64) : t :=
  let base := NoteToFrequency note in
  {| operators := (fun op => FMOperator.Trigger (FMOperator.SetFrequency op base)) <$> operators fm;
     algorithm := algorithm fm; modulationIndex := modulationIndex fm;
     sampleRate := sampleRate fm; baseFrequency := base; volume := velocity |}.

Definition NoteOff (fm : t) : t :=
  set_operators fm (FMOperator.Release <$> operators fm).

(** The per-algorithm wiring; [output] stays 0 when the instrument has fewer
    operators than the algorithm needs. *)
Definition route `{MathLib} (fm : t) : float64 * list FMOperator.t :=
  let mi := modulationIndex fm in
  match algorithm fm, operators fm with
  | FM2OpSimple, op0 :: op1 :: rest =>
      let '(m, op1') := FMOperator.Next op1 f0.0 in
      let modulator := fmul m mi in
      let '(carrier, op0') := FMOperator.Next op0 modulator in
      (carrier, op0' :: op1' :: rest)
  | FM2OpParallel, op0 :: op1 :: rest =>
      let '(a, op0') := FMOperator.Next op0 f0.0 in
      let '(b, op1') := FMOperator.Next op1 f0.0 in
      (fmul (fadd a b) (lit 5 10), op0' :: op1' :: rest)
  | FM3OpStack, op0 :: op1 :: op2 :: rest =>
      let '(m2, op2') := FMOperator.Next op2 f0.0 in
      let mod2 := fmul m2 mi in
      let '(m1, op1') := FMOperator.Next op1 mod2 in
      let mod1 := fmul m1 mi in
      let '(carrier, op0') := FMOperator.Next op0 mod1 in
      (carrier, op0' :: op1' :: op2' :: rest)
  | FM4OpPiano, op0 :: op1 :: op2 :: op3 :: rest =>
      (* Chain 1: Op4 modulates Op3 *)
      let '(m4, op3') := FMOperator.Next op3 f0.0 in
      let mod4 := fmul (fmul m4 mi) (lit 5 10) in
      let '(m3, op2') := FMOperator.Next op2 mod4 in
      let mod3 := fmul m3 mi in
      (* Chain 2: Op2 modulates Op1 *)
      let '(m2, op1') := FMOperator.Next op1 f0.0 in
      let mod2 := fmul (fmul m2 mi) (lit 3 10) in
      (* Op1 is carrier, modulated by both chains *)
      let '(carrier, op0') := FMOperator.Next op0 (fadd mod3 mod2) in
      (carrier, op0' :: op1' :: op2' :: op3' :: rest)
  | _, ops => (f0.0, ops)
  end.

Definition Next `{MathLib} (fm : t) : float64 * t :=
  match operators fm with
  | [] => (f0.0, fm)
  | _ => let '(output, ops) := route fm in
         (fmul output (volume fm), set_operators fm ops)
  end.

(** True if any operator is still active. *)
Definition IsActive (fm : t) : bool := existsb FMOperator.IsActive (operators fm).

(** One operator of a preset: ratio, ADSR, level. *)
Definition preset_operator (fm : t) (i : Z) (ratio a d s r level : float64) : option t :=
  fm ← SetOperatorRatio fm i ratio;
  fm ← SetOperatorEnvelope fm i a d s r;
  SetOperatorLevel fm i level.

Definition NewPianoFMInstrument (sampleRate : float64) : option t :=
  fm ← NewFMInstrument 4 FM4OpPiano sampleRate;
  fm ← preset_operator fm 0 f1.0 (lit 1 1000) (lit 3 10) f0.0 (lit 2 10) f1.0;
  fm ← preset_operator fm 1 (float64_of_int 2) (lit 1 1000) (lit 15 100) f0.0 (lit 1 10) (lit 7 10);
  fm ← preset_operator fm 2 (lit 35 10) (lit 1 1000) (lit 2 10) f0.0 (lit 15 100) (lit 5 10);
  fm ← preset_operator fm 3 (float64_of_int 5) (lit 5 10000) (lit 5 100) f0.0 (lit 5 100) (lit 4 10);
  Some (SetModulationIndex fm (lit 15 10)).

Definition NewElectricPianoFMInstrument (sampleRate : float64) : option t :=
  fm ← NewFMInstrument 2 FM2OpSimple sampleRate;
  fm ← preset_operator fm 0 f1.0 (lit 2 1000) (lit 4 10) (lit 3 10) (lit 3 10) f1.0;
  fm ← preset_operator fm 1 (float64_of_int 14) (lit 1 1000) (lit 2 10) f0.0 (lit 2 10) (lit 8 10);
  Some (SetModulationIndex fm (float64_of_int 3)).

Definition NewFMBassFMInstrument (sampleRate : float64) : option t :=
  fm ← NewFMInstrument 3 FM3OpStack sampleRate;
  fm ← preset_operator fm 0 f1.0 (lit 1 1000) (lit 2 10) (lit 7 10) (lit 15 100) f1.0;
  fm ← preset_operator fm 1 (lit 201 100) (lit 1 1000) (lit 15 100) (lit 5 10) (lit 1 10) (lit 9 10);
  fm ← preset_operator fm 2 (float64_of_int 4) (lit 5 10000) (lit 8 100) (lit 2 10) (lit 5 100) (lit 7 10);
  Some (SetModulationIndex fm (lit 35 10)).

Definition NewFMLeadFMInstrument (sampleRate : float64) : option t :=
  fm ← NewFMInstrument 2 FM2OpSimple sampleRate;
  fm ← preset_operator fm 0 f1.0 (lit 5 1000) (lit 1 10) (lit 8 10) (lit 15 100) f1.0;
  fm ← preset_operator fm 1 (float64_of_int 3) (lit 2 1000) (lit 8 100) (lit 6 10) (lit 1 10) f1.0;
  Some (SetModulationIndex fm (float64_of_int 5)).

Definition NewFMBrassFMInstrument (sampleRate : float64) : option t :=
  fm ← NewFMInstrument 3 FM3OpStack sampleRate;
  fm ← preset_operator fm 0 f1.0 (lit 2 100) (lit 15 100) (lit 7 10) (lit 2 10) f1.0;
  fm ← preset_operator fm 1 (lit 15 10) (lit 15 1000) (lit 12 100) (lit 6 10) (lit 15 100) (lit 8 10);
  fm ← preset_operator fm 2 (float64_of_int 3) (lit 1 100) (lit 1 10) (lit 5 10) (lit 12 100) (lit 6 10);
  Some (SetModulationIndex fm (float64_of_int 2)).

Definition NewFMBellFMInstrument (sampleRate : float64) : option t :=
  fm ← NewFMInstrument 2 FM2OpSimple sampleRate;
  fm ← preset_operator fm 0 f1.0 (lit 1 1000) (lit 5 10) (lit 2 10) (lit 4 10) f1.0;
  fm ← preset_operator fm 1 (float64_of_int 11) (lit 1 1000) (lit 3 10) f0.0 (lit 3 10) (lit 9 10);
  Some (SetModulationIndex fm (float64_of_int 4)).

Definition NewFMArpFMInstrument (sampleRate : float64) : option t :=
  fm ← NewFMInstrument 2 FM2OpSimple sampleRate;
  fm ← preset_operator fm 0 f1.0 (lit 1 1000) (lit 5 100) (lit 3 10) (lit 5 100) f1.0;
  fm ← preset_operator fm 1 (float64_of_int 2) (lit 1 1000) (lit 3 100) (lit 1 10) (lit 3 100) (lit 85 100);
  Some (SetModulationIndex fm (lit 25 10)).

End FMInstrument.

(** ** package synth: voice (oscillator + envelope OR FM instrument) *)

Module Voice.

(** The three pointer fields are [nil] in some voices ([NewFMVoice] leaves
    the oscillator and the envelope unset, [NewVoice] the FM instrument). *)
Record t := mk {
  oscillator : option Oscillator.t;
  envelope : option Envelope.t;
  fmInstrument : option FMInstrument.t;
  useFM : bool;
  volume : float64;
  active : bool;
  sampleRate : float64
}.

Definition NewVoice (waveType : WaveType) (sampleRate : float64) : t :=
  {| oscillator := Some (Oscillator.NewOscillator waveType sampleRate);
     envelope := Some (Envelope.NewEnvelope (lit 1 100) (lit 1 10) (lit 6 10) (lit 2 10) sampleRate);
     fmInstrument := None; useFM := false;
     volume := f1.0; active := false; sampleRate := sampleRate |}.

Definition NewFMVoice (fmInstrument : FMInstrument.t) : t :=
  {| oscillator := None; envelope := None;
     fmInstrument := Some fmInstrument; useFM := true;
     volume := f1.0; active := false; sampleRate := FMInstrument.sampleRate fmInstrument |}.

(** Traditional synthesis only. *)
Definition SetInstrument (v : t) (waveType : WaveType) (attack decay sustain release : float64)
  : option t :=
  if useFM v then Some v
  else
    o ← oscillator v;
    e ← envelope v;
    Some {| oscillator := Some (Oscillator.set_waveType o waveType);
            envelope := Some (Envelope.mk attack decay sustain release
                                (Envelope.stage e) (Envelope.level e)
                                (Envelope.sampleRate e) (Envelope.sampleCount e));
            fmInstrument := fmInstrument v; useFM := useFM v;
            volume := volume v; active := active v; sampleRate := sampleRate v |}.

Definition SetFMInstrument (v : t) (fm : option FMInstrument.t) : t :=
  {| oscillator := oscillator v; envelope := envelope v;
     fmInstrument := fm; useFM := true;
     volume := volume v; active := active v; sampleRate := sampleRate v |}.

Definition NoteOn `{MathLib} (v : t) (note : Z) (volume : float64) : option t :=
  match useFM v, fmInstrument v with
  | true, Some fm =>
      Some {| oscillator := oscillator v; envelope := envelope v;
              fmInstrument := Some (FMInstrument.NoteOn fm note volume); useFM := useFM v;
              volume := volume; active := true; sampleRate := sampleRate v |}
  | _, _ =>
      let freq := NoteToFrequency note in
      o ← oscillator v;
      e ← envelope v;
      Some {| oscillator := Some (Oscillator.SetFrequency o freq);
              envelope := Some (Envelope.Trigger e);
              fmInstrument := fmInstrument v; useFM := useFM v;
              volume := volume; active := true; sampleRate := sampleRate v |}
  end.

Definition NoteOff (v : t) : option t :=
  match useFM v, fmInstrument v with
  | true, Some fm =>
      Some {| oscillator := oscillator v; envelope := envelope v;
              fmInstrument := Some (FMInstrument.NoteOff fm); useFM := useFM v;
              volume := volume v; active := active v; sampleRate := sampleRate v |}
  | _, _ =>
      e ← envelope v;
      Some {| oscillator := oscillator v; envelope := Some (Envelope.Release e);
              fmInstrument := fmInstrument v; useFM := useFM v;
              volume := volume v; active := active v; sampleRate := sampleRate v |}
  end.

(** [v.active || engine.IsActive()]: the engine is not consulted (and a nil
    envelope not dereferenced) when the trigger flag is set. *)
Definition IsActive (v : t) : option bool :=
  match useFM v, fmInstrument v with
  | true, Some fm => Some (active v || FMInstrument.IsActive fm)
  | _, _ => if active v then Some true else e ← envelope v; Some (Envelope.IsActive e)
  end.

Definition Next `{MathLib} (v : t) : option (float64 * t) :=
  match useFM v, fmInstrument v with
  | true, Some fm =>
      (* FM synthesis path *)
      if negb (active v) && negb (FMInstrument.IsActive fm) then Some (f0.0, v)
      else
        let '(sample, fm1) := FMInstrument.Next fm in
        Some (sample,
              {| oscillator := oscillator v; envelope := envelope v;
                 fmInstrument := Some fm1; useFM := useFM v; volume := volume v;
                 active := if negb (FMInstrument.IsActive fm1) then false else active v;
                 sampleRate := sampleRate v |})
  | _, _ =>
      (* Traditional synthesis path *)
      idle ← (if active v then Some false else e ← envelope v; Some (negb (Envelope.IsActive e)));
      if idle : bool then Some (f0.0, v)
      else
        o ← oscillator v;
        e ← envelope v;
        let '(osc, o1) := Oscillator.Next o in
        let '(env, e1) := Envelope.Next e in
        Some (fmul (fmul osc env) (volume v),
              {| oscillator := Some o1; envelope := Some e1;
                 fmInstrument := fmInstrument v; useFM := useFM v; volume := volume v;
                 active := if negb (Envelope.IsActive e1) then false else active v;
                 sampleRate := sampleRate v |})
  end.

End Voice.

(** ** package tracker: the module data model *)

Module Tracker.

(** Modelled from the spec: the [Chord] field, which [Player.processRow]
    reads but the declaration of [TrackerNote] at hand lacks ("optional
    simultaneous extra pitches (chord)"); a Go [[]int], nil when absent.
    The other fields of a note are those that tracker.go declares. *)
Record TrackerNote := {
  Note : Z;          (* note number (-1 for rest, -2 for note-off) *)
  Instrument_ : Z;   (* Instrument number *)
  Volume : float64;  (* 0.0 to 1.0 *)
  Effect : string;   (* Effect command *)
  Chord : list Z
}.

Record Pattern := {
  Rows : Z;
  Channels : list (list TrackerNote) (* [channel][row] *)
}.

(** Synthesis parameters (the FM algorithm and parameter map, which the
    pipeline never reads, are left out). *)
Record Instrument := {
  Name : string;
  WaveType_ : WaveType;
  Attack : float64;
  Decay : float64;
  Sustain : float64;
  Release : float64;
  IsFM : bool;
  FMPreset : string
}.

Record TrackerModule := {
  Title : string;
  Tempo : Z;
  TicksPerRow : Z;
  Patterns : list Pattern;
  Sequence : list Z; (* Pattern order *)
  Instruments : list Instrument
}.

End Tracker.

(** ** package audio: voice allocator *)

Module VoiceAllocator.

(** [noteMap] holds pointers into [voices]; a pointer is the index of its
    pool slot (the slots are allocated once and never replaced). *)
Record t := mk {
  voices : list Voice.t;
  noteMap : gmap Z nat;          (* Maps note number to voice *)
  instrument : Tracker.Instrument;
  sampleRate : float64;
  maxVoices : Z;
  activeNotes : list Z           (* Track which notes are currently active *)
}.

Definition set_voices (va : t) (vs : list Voice.t) : t :=
  {| voices := vs; noteMap := noteMap va; instrument := instrument va;
     sampleRate := sampleRate va; maxVoices := maxVoices va; activeNotes := activeNotes va |}.

Definition set_notes (va : t) (m : gmap Z nat) (notes : list Z) : t :=
  {| voices := voices va; noteMap := m; instrument := instrument va;
     sampleRate := sampleRate va; maxVoices := maxVoices va; activeNotes := notes |}.

(** The voice that [NewVoiceAllocator] creates for each pool slot. *)
Definition newVoice (instrument : Tracker.Instrument) (sampleRate : float64) : option Voice.t :=
  if Tracker.IsFM instrument then
    let preset := Tracker.FMPreset instrument in
    fmInst ← (if String.eqb preset "PIANO" then FMInstrument.NewPianoFMInstrument sampleRate
              else if String.eqb preset "EPIANO" then FMInstrument.NewElectricPianoFMInstrument sampleRate
              else if String.eqb preset "BASS" then FMInstrument.NewFMBassFMInstrument sampleRate
              else if String.eqb preset "LEAD" then FMInstrument.NewFMLeadFMInstrument sampleRate
              else if String.eqb preset "BRASS" then FMInstrument.NewFMBrassFMInstrument sampleRate
              else if String.eqb preset "BELL" then FMInstrument.NewFMBellFMInstrument sampleRate
              else if String.eqb preset "ARP" then FMInstrument.NewFMArpFMInstrument sampleRate
              else FMInstrument.NewFMLeadFMInstrument sampleRate);
    Some (Voice.NewFMVoice fmInst)
  else
    Voice.SetInstrument (Voice.NewVoice (Tracker.WaveType_ instrument) sampleRate)
      (Tracker.WaveType_ instrument) (Tracker.Attack instrument) (Tracker.Decay instrument)
      (Tracker.Sustain instrument) (Tracker.Release instrument).

(** [make] panics on a negative [maxVoices]. *)
Definition NewVoiceAllocator (instrument : Tracker.Instrument) (sampleRate : float64)
  (maxVoices : Z) : option t :=
  if maxVoices <? 0 then None
  else
    vs ← mapM (fun _ : unit => newVoice instrument sampleRate) (replicate (Z.to_nat maxVoices) ());
    Some {| voices := vs; noteMap := ∅; instrument := instrument;
            sampleRate := sampleRate; maxVoices := maxVoices; activeNotes := [] |}.

(** The first pool slot whose voice reports inactive, if any. *)
Fixpoint findInactive (vs : list Voice.t) (i : nat) : option (option nat) :=
  match vs with
  | [] => Some None
  | v :: vs' =>
      a ← Voice.IsActive v;
      if a : bool then findInactive vs' (S i) else Some (Some i)
  end.

(** [voices[i].f()]: call [f] on the voice of slot [i] in place. *)
Definition onVoice (va : t) (i : nat) (f : Voice.t -> option Voice.t) : option t :=
  v ← voices va !! i;
  v' ← f v;
  Some (set_voices va (<[i := v']> (voices va))).

(** Triggers a note (finds or allocates a voice). *)
Definition NoteOn `{MathLib} (va : t) (note : Z) (velocity : float64) : option t :=
  match noteMap va !! note with
  | Some i =>
      (* If this note is already playing, restart it *)
      onVoice va i (fun v => Voice.NoteOn v note velocity)
  | None =>
      (* First, try to find an inactive voice *)
      found ← findInactive (voices va) 0;
      '(selected, m, notes) ←
        match found with
        | Some i => Some (i, noteMap va, activeNotes va)
        | None =>
            (* If no inactive voice, steal the oldest one *)
            match activeNotes va with
            | oldestNote :: rest =>
                i ← noteMap va !! oldestNote;
                Some (i, delete oldestNote (noteMap va), rest)
            | [] =>
                (* Fallback: use first voice *)
                _ ← voices va !! 0%nat;
                Some (0%nat, noteMap va, activeNotes va)
            end
        end;
      va' ← onVoice va selected (fun v => Voice.NoteOn v note velocity);
      Some (set_notes va' (<[note := selected]> m) (notes ++ [note]))
  end.

(** Removes the first occurrence of [note], as the loop with [break] does. *)
Fixpoint removeNote (note : Z) (notes : list Z) : list Z :=
  match notes with
  | [] => []
  | n :: rest => if n =? note then rest else n :: removeNote note rest
  end.

(** Releases a specific note. *)
Definition NoteOff (va : t) (note : Z) : option t :=
  match noteMap va !! note with
  | Some i =>
      va' ← onVoice va i Voice.NoteOff;
      Some (set_notes va' (delete note (noteMap va)) (removeNote note (activeNotes va)))
  | None => Some va
  end.

(** Releases all notes. *)
Definition AllNotesOff (va : t) : option t :=
  vs ← mapM Voice.NoteOff (voices va);
  Some (set_notes (set_voices va vs) ∅ []).

(** The mixing loop: [sample] and [activeCount] are the two accumulators
    ([activeCount] is bounded by [len(va.voices)], so it never wraps). *)
Fixpoint mixVoices `{MathLib} (vs : list Voice.t) (sample : float64) (activeCount : Z)
  : option (float64 * Z * list Voice.t) :=
  match vs with
  | [] => Some (sample, activeCount, [])
  | v :: vs' =>
      a ← Voice.IsActive v;
      if a : bool then
        '(s, v') ← Voice.Next v;
        '(sample', n, vs'') ← mixVoices vs' (fadd sample s) (activeCount + 1);
        Some (sample', n, v' :: vs'')
      else
        '(sample', n, vs'') ← mixVoices vs' sample activeCount;
        Some (sample', n, v :: vs'')
  end.

(** Generates the next sample by mixing all active voices. *)
Definition Next `{MathLib} (va : t) : option (float64 * t) :=
  '(sample, activeCount, vs) ← mixVoices (voices va) f0.0 0;
  (* Normalize by number of active voices to prevent clipping *)
  let sample := if 0 <? activeCount then fdiv sample (float64_of_int activeCount) else sample in
  Some (sample, set_voices va vs).

Definition GetActiveNotes (va : t) : list Z := activeNotes va.
Definition GetActiveVoiceCount (va : t) : Z := len (activeNotes va).
Definition GetMaxVoices (va : t) : Z := maxVoices va.

(** True if any voice is active (the loop returns at the first one). *)
Fixpoint anyActive (vs : list Voice.t) : option bool :=
  match vs with
  | [] => Some false
  | v :: vs' =>
      a ← Voice.IsActive v;
      if a : bool then Some true else anyActive vs'
  end.

Definition IsActive (va : t) : option bool := anyActive (voices va).

Definition GetVoices (va : t) : list Voice.t := voices va.

(** A specific voice by index; [None] is the nil the method returns out
    of range (not a panic). *)
Definition GetVoice (va : t) (index : Z) : option Voice.t :=
  if (0 <=? index) && (index <? len (voices va)) then voices va !! Z.to_nat index
  else None.

(** The voice playing a specific note; [None] is nil (no such note). *)
Definition GetVoiceForNote (va : t) (note : Z) : option Voice.t :=
  i ← noteMap va !! note; voices va !! i.

(** Directly controls a specific voice (bypasses allocation). *)
Definition SetVoiceNote `{MathLib} (va : t) (voiceIndex note : Z) (velocity : float64)
  : option t :=
  if (0 <=? voiceIndex) && (voiceIndex <? len (voices va)) then
    onVoice va (Z.to_nat voiceIndex) (fun v => Voice.NoteOn v note velocity)
  else Some va.

(** Directly releases a specific voice by index. *)
Definition ReleaseVoice (va : t) (voiceIndex : Z) : option t :=
  if (0 <=? voiceIndex) && (voiceIndex <? len (voices va)) then
    onVoice va (Z.to_nat voiceIndex) Voice.NoteOff
  else Some va.

(** Triggers multiple notes simultaneously. *)
Fixpoint PlayChord `{MathLib} (va : t) (notes : list Z) (velocity : float64) : option t :=
  match notes with
  | [] => Some va
  | note :: rest => va' ← NoteOn va note velocity; PlayChord va' rest velocity
  end.

(** Releases multiple notes simultaneously. *)
Fixpoint ReleaseChord (va : t) (notes : list Z) : option t :=
  match notes with
  | [] => Some va
  | note :: rest => va' ← NoteOff va note; ReleaseChord va' rest
  end.

End VoiceAllocator.

(** ** package audio: player *)

Module Player.

Record t := mk {
  module : Tracker.TrackerModule;
  VoiceAllocators : list VoiceAllocator.t; (* One allocator per channel *)
  sampleRate : float64;
  currentPos : Z;     (* Position in sequence *)
  currentRow : Z;     (* Current row in pattern *)
  sampleCounter : Z;  (* Sample counter for row timing *)
  samplesPerRow : Z;  (* Samples before advancing to next row *)
  isDone : bool;      (* the field [done] *)
  maxPolyphony : Z    (* Max simultaneous notes per channel *)
}.

Definition set_allocators (p : t) (vas : list VoiceAllocator.t) : t :=
  {| module := module p; VoiceAllocators := vas; sampleRate := sampleRate p;
     currentPos := currentPos p; currentRow := currentRow p;
     sampleCounter := sampleCounter p; samplesPerRow := samplesPerRow p;
     isDone := isDone p; maxPolyphony := maxPolyphony p |}.

Definition set_cursor (p : t) (pos row counter : Z) (d : bool) : t :=
  {| module := module p; VoiceAllocators := VoiceAllocators p; sampleRate := sampleRate p;
     currentPos := pos; currentRow := row;
     sampleCounter := counter; samplesPerRow := samplesPerRow p;
     isDone := d; maxPolyphony := maxPolyphony p |}.

Definition defaultInst : Tracker.Instrument :=
  {| Tracker.Name := "Default"; Tracker.WaveType_ := Square;
     Tracker.Attack := lit 1 100; Tracker.Decay := lit 1 10;
     Tracker.Sustain := lit 6 10; Tracker.Release := lit 2 10;
     Tracker.IsFM := false; Tracker.FMPreset := "" |}.

(** samplesPerRow = (60 / tempo / 4) * sampleRate, truncated. *)
Definition samplesPerRowOf (tempo : Z) (sampleRate : float64) : Z :=
  let samplesPerSecond := sampleRate in
  let secondsPerBeat := fdiv (float64_of_int 60) (float64_of_int tempo) in
  let secondsPerRow := fdiv secondsPerBeat (float64_of_int 4) in
  int_of_float64 (fmul secondsPerRow samplesPerSecond).

Definition NewPlayer (module : Tracker.TrackerModule) (sampleRate : float64) : option t :=
  let samplesPerRow := samplesPerRowOf (Tracker.Tempo module) sampleRate in
  let numChannels := 8%nat in
  let maxPolyphony := 4 in
  voiceAllocators ←
    mapM (fun i : nat =>
            let inst := default defaultInst (Tracker.Instruments module !! i) in
            VoiceAllocator.NewVoiceAllocator inst sampleRate maxPolyphony)
         (seq 0 numChannels);
  Some {| module := module; VoiceAllocators := voiceAllocators; sampleRate := sampleRate;
          currentPos := 0; currentRow := 0; sampleCounter := 0;
          samplesPerRow := samplesPerRow; isDone := false; maxPolyphony := maxPolyphony |}.

(** [NoteOn] for every non-negative pitch of a chord, in order. *)
Fixpoint chordOn `{MathLib} (va : VoiceAllocator.t) (chord : list Z) (velocity : float64)
  : option VoiceAllocator.t :=
  match chord with
  | [] => Some va
  | chordNote :: rest =>
      va' ← (if 0 <=? chordNote then VoiceAllocator.NoteOn va chordNote velocity else Some va);
      chordOn va' rest velocity
  end.

(** What [processRow] does with one event on its channel's allocator. *)
Definition processNote `{MathLib} (va : VoiceAllocator.t) (note : Tracker.TrackerNote)
  : option VoiceAllocator.t :=
  if 0 <=? Tracker.Note note then
    (* Default velocity if not specified *)
    let velocity := if feq (Tracker.Volume note) f0.0 then f1.0 else Tracker.Volume note in
    va' ← VoiceAllocator.NoteOn va (Tracker.Note note) velocity;
    chordOn va' (Tracker.Chord note) velocity
  else if Tracker.Note note =? -2 then
    (* Note off command - releases all notes on this channel *)
    VoiceAllocator.AllNotesOff va
  else
    (* -1 is rest, do nothing (notes continue to sustain) *)
    Some va.

(** The channel loop: [ch] runs while it is below both lengths. *)
Fixpoint processChannels `{MathLib} (channels : list (list Tracker.TrackerNote))
  (vas : list VoiceAllocator.t) (row : Z) : option (list VoiceAllocator.t) :=
  match channels, vas with
  | channel :: channels', va :: vas' =>
      va' ← (if row <? len channel then note ← index channel row; processNote va note
             else Some va);
      rest ← processChannels channels' vas' row;
      Some (va' :: rest)
  | _, _ => Some vas
  end.

(** Processes the current row and triggers notes. *)
Definition processRow `{MathLib} (p : t) : option t :=
  let m := module p in
  if len (Tracker.Sequence m) <=? currentPos p then Some p
  else
    patternIdx ← index (Tracker.Sequence m) (currentPos p);
    if len (Tracker.Patterns m) <=? patternIdx then Some p
    else
      pattern ← index (Tracker.Patterns m) patternIdx;
      vas ← processChannels (Tracker.Channels pattern) (VoiceAllocators p) (currentRow p);
      Some (set_allocators p vas).

(** Mixing all channels: [sample += allocator.Next()]. *)
Fixpoint mixChannels `{MathLib} (vas : list VoiceAllocator.t) (sample : float64)
  : option (float64 * list VoiceAllocator.t) :=
  match vas with
  | [] => Some (sample, [])
  | va :: vas' =>
      '(s, va') ← VoiceAllocator.Next va;
      '(sample', rest) ← mixChannels vas' (fadd sample s);
      Some (sample', va' :: rest)
  end.

(** The cursor after one more sample: (pos, row, counter, done). *)
Definition advance (m : Tracker.TrackerModule) (samplesPerRow pos row counter : Z)
  : option (Z * Z * Z * bool) :=
  let counter := wrap (counter + 1) in
  if samplesPerRow <=? counter then
    let counter := 0 in
    let row := wrap (row + 1) in
    (* Check if we've finished the current pattern *)
    if pos <? len (Tracker.Sequence m) then
      patternIdx ← index (Tracker.Sequence m) pos;
      if patternIdx <? len (Tracker.Patterns m) then
        pattern ← index (Tracker.Patterns m) patternIdx;
        if Tracker.Rows pattern <=? row then
          let row := 0 in
          let pos := wrap (pos + 1) in
          (* Check if we've finished the entire sequence *)
          Some (pos, row, counter, bool_decide (len (Tracker.Sequence m) <= pos))
        else Some (pos, row, counter, false)
      else Some (pos, row, counter, false)
    else Some (pos, row, counter, false)
  else Some (pos, row, counter, false).

(** Generates the next audio sample (mono). *)
Definition Next `{MathLib} (p : t) : option (float64 * t) :=
  if isDone p then Some (f0.0, p)
  else
    (* Check if we need to process a new row *)
    p1 ← (if sampleCounter p =? 0 then processRow p else Some p);
    (* Generate audio by mixing all channels *)
    '(sample, vas) ← mixChannels (VoiceAllocators p1) f0.0;
    (* Simple mixing (average) *)
    let sample := fdiv sample (float64_of_int (len vas)) in
    '(pos, row, counter, d) ←
      advance (module p1) (samplesPerRow p1) (currentPos p1) (currentRow p1) (sampleCounter p1);
    Some (sample, set_cursor (set_allocators p1 vas) pos row counter d).

Definition IsDone (p : t) : bool := isDone p.

Definition Reset (p : t) : t := set_cursor p 0 0 0 false.

(** The voice allocator of a channel; [None] is the nil the method returns
    out of range. *)
Definition GetChannelVoices (p : t) (channel : Z) : option VoiceAllocator.t :=
  if (0 <=? channel) && (channel <? len (VoiceAllocators p)) then
    VoiceAllocators p !! Z.to_nat channel
  else None.

Definition GetChannelCount (p : t) : Z := len (VoiceAllocators p).

Definition GetMaxPolyphony (p : t) : Z := maxPolyphony p.

(** The loop of [Stream] from frame [i] on: the frames it has not reached
    keep what the buffer held. *)
Fixpoint streamFrom `{MathLib} (p : t) (i : Z) (samples : list (float64 * float64))
  : option (list (float64 * float64) * Z * bool * t) :=
  match samples with
  | [] => Some ([], i, true, p)
  | old :: rest =>
      if isDone p then Some (old :: rest, i, false, p)
      else
        '(sample, p1) ← Next p;
        '(rest', n, ok, p2) ← streamFrom p1 (i + 1) rest;
        (* Left channel, right channel (mono for now) *)
        Some ((sample, sample) :: rest', n, ok, p2)
  end.

(** Fills [samples] with stereo frames: the buffer written, [n], [ok] and
    the player left behind. *)
Definition Stream `{MathLib} (p : t) (samples : list (float64 * float64))
  : option (list (float64 * float64) * Z * bool * t) :=
  streamFrom p 0 samples.

(** [n] successive calls of [Next]: the samples produced, oldest first, and
    the player left behind. *)
Fixpoint render `{MathLib} (n : nat) (p : t) : option (list float64 * t) :=
  match n with
  | O => Some ([], p)
  | S n' =>
      '(s, p1) ← Next p;
      '(ss, p2) ← render n' p1;
      Some (s :: ss, p2)
  end.

End Player.

(** ** Go strings *)

Module GoString.

(** A Go string is a sequence of bytes; a byte is a character here. *)
Definition byte_of (c : Ascii.ascii) : Z := Z.of_N (Ascii.N_of_ascii c).

Definition of_byte (b : Z) : Ascii.ascii := Ascii.ascii_of_N (Z.to_N (b mod 256)).

(** [a - b] on [byte] values wraps at 8 bits. *)
Definition byte_sub (a b : Z) : Z := (a - b) mod 256.

(** [rune(i)]: an [int] cut down to 32 bits, two's complement. *)
Definition rune_of_int (i : Z) : Z := (i + 2 ^ 31) mod 2 ^ 32 - 2 ^ 31.

(** [string(r)]: the UTF-8 encoding of the code point, and that of U+FFFD
    when [r] is not a valid code point. *)
Definition string_of_rune (r : Z) : string :=
  let r := if (r <? 0) || (1114111 <? r) || ((55296 <=? r) && (r <=? 57343))
           then 65533 else r in
  if r <=? 127 then String (of_byte r) EmptyString
  else if r <=? 2047 then
    String (of_byte (Z.lor 192 (Z.shiftr r 6)))
      (String (of_byte (Z.lor 128 (Z.land r 63))) EmptyString)
  else if r <=? 65535 then
    String (of_byte (Z.lor 224 (Z.shiftr r 12)))
      (String (of_byte (Z.lor 128 (Z.land (Z.shiftr r 6) 63)))
         (String (of_byte (Z.lor 128 (Z.land r 63))) EmptyString))
  else
    String (of_byte (Z.lor 240 (Z.shiftr r 18)))
      (String (of_byte (Z.lor 128 (Z.land (Z.shiftr r 12) 63)))
         (String (of_byte (Z.lor 128 (Z.land (Z.shiftr r 6) 63)))
            (String (of_byte (Z.lor 128 (Z.land r 63))) EmptyString))).

End GoString.

(** ** package synth: note names *)

(** The map literal of [ParseNote]: the semitone of a note letter. *)
Definition noteValueOf (noteName : Ascii.ascii) : option Z :=
  if Ascii.eqb noteName "C"%char then Some 0
  else if Ascii.eqb noteName "D"%char then Some 2
  else if Ascii.eqb noteName "E"%char then Some 4
  else if Ascii.eqb noteName "F"%char then Some 5
  else if Ascii.eqb noteName "G"%char then Some 7
  else if Ascii.eqb noteName "A"%char then Some 9
  else if Ascii.eqb noteName "B"%char then Some 11
  else None.

(** Parses a note string like "C-4", "C#5", "A-3". *)
Definition ParseNote (noteStr : string) : Z :=
  match noteStr with
  | String noteName (String c1 (String c2 _)) =>
      let sharp := Ascii.eqb c1 "#"%char in
      let octave := GoString.byte_sub (GoString.byte_of c2) (GoString.byte_of "0"%char) in
      if (octave <? 0) || (8 <? octave) then -1
      else
        match noteValueOf noteName with
        | None => -1
        | Some noteValue =>
            let noteValue := if sharp then Go.wrap (noteValue + 1) else noteValue in
            Go.wrap (Go.wrap (octave * 12) + noteValue)
        end
  | _ => -1 (* len(noteStr) < 3: rest/empty *)
  end.

Definition noteNames : list string :=
  ["C-"; "C#"; "D-"; "D#"; "E-"; "F-"; "F#"; "G-"; "G#"; "A-"; "A#"; "B-"]%string.

(** Formats a note number as a string like "C-4"; [/] and [%] truncate. *)
Definition FormatNote (note : Z) : option string :=
  if note <? 0 then Some "---"%string
  else
    let octave := Z.quot note 12 in
    let noteInOctave := Z.rem note 12 in
    name ← Go.index noteNames noteInOctave;
    Some (String.append name
            (GoString.string_of_rune
               (GoString.rune_of_int (Go.wrap (GoString.byte_of "0"%char + octave))))).

(** ** package tracker: note fields of a VTM file *)

Module TrackerFile.

(** Parses one note field of a CH line: "C-4", or "---" for a rest, or
    "===" for a note-off. *)
Definition parseTrackerNote (s : string) : Tracker.TrackerNote :=
  if String.eqb s "---"%string || String.eqb s ".."%string || String.eqb s "..."%string then
    {| Tracker.Note := -1; Tracker.Instrument_ := 0; Tracker.Volume := Go.float64_of_int 1;
       Tracker.Effect := ""%string; Tracker.Chord := [] |}
  else if String.eqb s "==="%string || String.eqb s "OFF"%string || String.eqb s "off"%string then
    (* Note-off command *)
    {| Tracker.Note := -2; Tracker.Instrument_ := 0; Tracker.Volume := Go.float64_of_int 1;
       Tracker.Effect := ""%string; Tracker.Chord := [] |}
  else
    {| Tracker.Note := ParseNote s; Tracker.Instrument_ := 0;
       Tracker.Volume := Go.float64_of_int 1;
       Tracker.Effect := ""%string; Tracker.Chord := [] |}.

(** The note field that [SaveVTM] writes for a note (after the blank). *)
Definition noteField (note : Tracker.TrackerNote) : option string :=
  if Tracker.Note note <? 0 then Some "---"%string
  else FormatNote (Tracker.Note note).

(** [strconv.Atoi] with its error dropped, as [LoadVTM] calls it: the
    value of an optional sign and decimal digits, cut to the nearest [int]
    when it is out of range, and 0 for anything else.  The scan stops with
    the largest value at the digit that takes it beyond 64 bits, before it
    looks at what follows. *)
Fixpoint digits (s : string) (acc : Z) : option Z :=
  match s with
  | EmptyString => Some acc
  | String c rest =>
      let d := GoString.byte_sub (GoString.byte_of c) (GoString.byte_of "0"%char) in
      if 9 <? d then None
      else
        let acc := acc * 10 + d in
        if 2 ^ 64 - 1 <? acc then Some (2 ^ 64 - 1) else digits rest acc
  end.

Definition Atoi (s : string) : Z :=
  match s with
  | EmptyString => 0
  | String c rest =>
      let neg := Ascii.eqb c "-"%char in
      let body := if neg || Ascii.eqb c "+"%char then rest else s in
      match body with
      | EmptyString => 0
      | _ =>
          match digits body 0 with
          | None => 0
          | Some un => if neg then Z.max Go.int_min (- un) else Z.min Go.int_max un
          end
      end
  end.

(** [strings.TrimSuffix(s, ":")]. *)
Fixpoint TrimSuffixColon (s : string) : string :=
  match s with
  | EmptyString => EmptyString
  | String c rest =>
      match rest with
      | EmptyString => if Ascii.eqb c ":"%char then EmptyString else s
      | _ => String c (TrimSuffixColon rest)
      end
  end.

(** The most bytes the runtime gives to one allocation (amd64: the 48 bits
    of a heap address). *)
Definition maxAlloc : Z := 2 ^ 48.

(** The bytes of a slice header (pointer, length, capacity), and of a
    [TrackerNote] as tracker.go declares it (two [int]s and a [float64]
    of 8 bytes each, a string header of 16). *)
Definition sizeofSlice : Z := 24.
Definition sizeofTrackerNote : Z := 40.

(** [make([]T, n)] filled with [x], for a [T] of [size] bytes: panics
    (makeslice: len out of range) on a negative length and on one whose
    bytes are more than [maxAlloc].  A slice within that limit is taken to
    be allocated: the memory of the machine is not part of the model. *)
Definition make {A} (size n : Z) (x : A) : option (list A) :=
  if (n <? 0) || (maxAlloc <? size * n) then None
  else Some (replicate (Z.to_nat n) x).

(** The part of the loop state of [LoadVTM] that the directives PATTERN,
    CH, ENDPATTERN and SEQUENCE read and write; the other directives
    (TITLE, TEMPO, INSTRUMENT, FMINSTRUMENT) and unknown ones leave it as
    it is. *)
Record Loader := {
  currentPattern : option Tracker.Pattern;
  Patterns : list Tracker.Pattern;
  Sequence : list Z
}.

(** The state before the first line. *)
Definition start : Loader :=
  {| currentPattern := None; Patterns := []; Sequence := [] |}.

(** [TrackerNote{Note: -1, Volume: 1.0}]. *)
Definition rest : Tracker.TrackerNote :=
  {| Tracker.Note := -1; Tracker.Instrument_ := 0; Tracker.Volume := Go.float64_of_int 1;
     Tracker.Effect := ""%string; Tracker.Chord := [] |}.

(** case "PATTERN": a pattern of [rows] by [channels] rests. *)
Definition casePATTERN (cur : option Tracker.Pattern) (parts : list string)
  : option (option Tracker.Pattern) :=
  if 2 <? Go.len parts then
    p1 ← Go.index parts 1;
    p2 ← Go.index parts 2;
    let rows := Atoi p1 in
    let channels := Atoi p2 in
    chans ← make sizeofSlice channels ([] : list Tracker.TrackerNote);
    (* Initialize with rests *)
    chans ← mapM (fun _ : list Tracker.TrackerNote => make sizeofTrackerNote rows rest) chans;
    Some (Some {| Tracker.Rows := rows; Tracker.Channels := chans |})
  else Some cur.

(** The loop over the note fields of a CH line, from field [i] = [row] + 2
    on. *)
Fixpoint chLoop (pat : Tracker.Pattern) (currentChannel : Z) (fields : list string) (row : Z)
  : option Tracker.Pattern :=
  match fields with
  | [] => Some pat
  | field :: fields' =>
      if Tracker.Rows pat <=? row then Some pat
      else
        let note := parseTrackerNote field in
        pat' ← (if currentChannel <? Go.len (Tracker.Channels pat) then
                  channel ← Go.index (Tracker.Channels pat) currentChannel;
                  _ ← Go.index channel row;
                  Some {| Tracker.Rows := Tracker.Rows pat;
                          Tracker.Channels :=
                            <[Z.to_nat currentChannel := <[Z.to_nat row := note]> channel]>
                              (Tracker.Channels pat) |}
                else Some pat);
        chLoop pat' currentChannel fields' (row + 1)
  end.

(** case "CH": CH 0: C-4 01 F .. *)
Definition caseCH (cur : option Tracker.Pattern) (parts : list string)
  : option (option Tracker.Pattern) :=
  match cur with
  | Some pat =>
      if 3 <=? Go.len parts then
        p1 ← Go.index parts 1;
        (* Remove colon from channel number *)
        let chanStr := TrimSuffixColon p1 in
        let currentChannel := Atoi chanStr in
        (* Parse notes after the channel specification *)
        pat' ← chLoop pat currentChannel (drop 2 parts) 0;
        Some (Some pat')
      else Some cur
  | None => Some cur
  end.

(** One line of the file, split into its fields, on the loader state. *)
Definition directive (st : Loader) (parts : list string) : option Loader :=
  match parts with
  | [] => Some st
  | command :: args =>
      if String.eqb command "PATTERN"%string then
        cur ← casePATTERN (currentPattern st) parts;
        Some {| currentPattern := cur; Patterns := Patterns st; Sequence := Sequence st |}
      else if String.eqb command "CH"%string then
        cur ← caseCH (currentPattern st) parts;
        Some {| currentPattern := cur; Patterns := Patterns st; Sequence := Sequence st |}
      else if String.eqb command "ENDPATTERN"%string then
        match currentPattern st with
        | Some pat =>
            Some {| currentPattern := None; Patterns := Patterns st ++ [pat];
                    Sequence := Sequence st |}
        | None => Some st
        end
      else if String.eqb command "SEQUENCE"%string then
        Some {| currentPattern := currentPattern st; Patterns := Patterns st;
                Sequence := Sequence st ++ (Atoi <$> args) |}
      else Some st
  end.

(** The lines of a file in turn. *)
Fixpoint load (st : Loader) (lines : list (list string)) : option Loader :=
  match lines with
  | [] => Some st
  | parts :: lines' => st' ← directive st parts; load st' lines'
  end.

End TrackerFile.

(** ** package math: Max and Min *)



(** ** package audio: the WAV writer *)

Module WAV.

(** A file: its bytes and the position of the next write.  Every write
    succeeds (I/O errors are left out). *)
Record File := {
  contents : list Z;
  offset : Z
}.

(** Writing at the position: over what is there, extending the file (with
    zeros up to the position, when it lies beyond the end). *)
Definition write (f : File) (bytes : list Z) : File :=
  let pos := Z.to_nat (offset f) in
  let padded := contents f ++ replicate (pos - length (contents f)) 0 in
  {| contents := take pos padded ++ bytes ++ drop (pos + length bytes) padded;
     offset := offset f + len bytes |}.

(** [Seek(off, io.SeekStart)]. *)
Definition seek (f : File) (off : Z) : File :=
  {| contents := contents f; offset := off |}.

(** [binary.Write(..., binary.LittleEndian, v)] for 16-bit and 32-bit
    values ([int16] in two's complement) and for byte slices. *)
Definition le16 (v : Z) : list Z := [v mod 256; (v / 256) mod 256].

Definition le32 (v : Z) : list Z :=
  [v mod 256; (v / 256) mod 256; (v / 65536) mod 256; (v / 16777216) mod 256].

Fixpoint bytes (s : string) : list Z :=
  match s with
  | EmptyString => []
  | String c rest => GoString.byte_of c :: bytes rest
  end.

Definition uint32 (i : Z) : Z := i mod 2 ^ 32.

(** [int16(x)] for a [float64]: truncation toward zero, through the 32-bit
    conversion that amd64 uses (which yields -2^31 where the value does not
    fit), cut to 16 bits. *)
Definition int16_of_float64 (x : float64) : Z :=
  let i32 :=
    match x with
    | S754_zero _ => 0
    | S754_finite s m e =>
        let mag := match e with
                   | Zneg p => Z.shiftr (Zpos m) (Zpos p)
                   | _ => Z.shiftl (Zpos m) e
                   end in
        let v := if s then - mag else mag in
        if (- 2 ^ 31 <=? v) && (v <? 2 ^ 31) then v else - 2 ^ 31
    | _ => - 2 ^ 31
    end in
  (i32 + 2 ^ 15) mod 2 ^ 16 - 2 ^ 15.

Record WAVWriter := {
  file : File;
  sampleRate : Z;
  numSamples : Z
}.

Definition NewWAVWriter (sampleRate : Z) : WAVWriter :=
  {| file := {| contents := []; offset := 0 |}; sampleRate := sampleRate; numSamples := 0 |}.

Definition on_file (w : WAVWriter) (f : File) : WAVWriter :=
  {| file := f; sampleRate := sampleRate w; numSamples := numSamples w |}.

(** 2 channels, 2 bytes per sample. *)
Definition fileSize (w : WAVWriter) : Z :=
  uint32 (wrap (36 + wrap (wrap (numSamples w * 2) * 2))).

Definition dataSize (w : WAVWriter) : Z :=
  uint32 (wrap (wrap (numSamples w * 2) * 2)).

Definition writeHeader (w : WAVWriter) : WAVWriter :=
  (* RIFF header *)
  let f := write (file w) (bytes "RIFF") in
  (* File size (placeholder, will be updated later) *)
  let f := write f (le32 (fileSize w)) in
  (* WAVE header *)
  let f := write f (bytes "WAVE") in
  (* fmt chunk *)
  let f := write f (bytes "fmt ") in
  (* fmt chunk size (16 for PCM) *)
  let f := write f (le32 16) in
  (* Audio format (1 = PCM) *)
  let f := write f (le16 1) in
  (* Number of channels (2 = stereo) *)
  let f := write f (le16 2) in
  (* Sample rate *)
  let f := write f (le32 (uint32 (sampleRate w))) in
  (* Byte rate (sample rate * channels * bytes per sample) *)
  let f := write f (le32 (uint32 (wrap (wrap (sampleRate w * 2) * 2)))) in
  (* Block align (channels * bytes per sample) *)
  let f := write f (le16 4) in
  (* Bits per sample *)
  let f := write f (le16 16) in
  (* data chunk *)
  let f := write f (bytes "data") in
  (* data chunk size *)
  let f := write f (le32 (dataSize w)) in
  on_file w f.

(** Writes a single stereo sample (expects samples in range -1.0 to 1.0). *)
Definition WriteSample (w : WAVWriter) (left right : float64) : WAVWriter :=
  let leftSample := int16_of_float64 (fmul left (float64_of_int 32767)) in
  let rightSample := int16_of_float64 (fmul right (float64_of_int 32767)) in
  let f := write (file w) (le16 leftSample) in
  let f := write f (le16 rightSample) in
  {| file := f; sampleRate := sampleRate w; numSamples := wrap (numSamples w + 1) |}.

(** Finalizes the file: the two size fields of the header are written
    again. *)
Definition Close (w : WAVWriter) : WAVWriter :=
  (* Update file size in header *)
  let f := write (seek (file w) 4) (le32 (fileSize w)) in
  (* Update data chunk size *)
  let f := write (seek f 40) (le32 (dataSize w)) in
  on_file w f.




End WAV.

(** * Specification-side definitions *)

(** ** Envelope: the three ramping stages *)

Module EnvelopeSpec.
Import Envelope.

(** The parameters, which no method writes. *)
Definition params (e : t) : float64 * float64 * float64 * float64 * float64 :=
  (attackTime e, decayTime e, sustainLevel e, releaseTime e, sampleRate e).

(** Length in samples of a ramping stage. *)
Definition stageSamples (st : EnvelopeStage.t) (e : t) : Z :=
  match st with
  | Attack => attackSamples e
  | Decay => decaySamples e
  | EnvelopeStage.Release => releaseSamples e
  | _ => 0
  end.

(** The level that [Next] writes in stage [st] when the counter is [c]. *)
Definition rampLevel (st : EnvelopeStage.t) (e : t) (c : Z) : float64 :=
  let t := fdiv (float64_of_int c) (float64_of_int (stageSamples st e)) in
  match st with
  | Attack => t
  | Decay => fadd f1.0 (fmul t (fsub (sustainLevel e) f1.0))
  | EnvelopeStage.Release => fmul (sustainLevel e) (fsub f1.0 t)
  | _ => level e
  end.

(** The stage that follows a ramping stage, and the level written on entry. *)
Definition nextStage (st : EnvelopeStage.t) : EnvelopeStage.t :=
  match st with
  | Attack => Decay
  | Decay => Sustain
  | _ => Off
  end.

Definition finalLevel (st : EnvelopeStage.t) (e : t) : float64 :=
  match st with
  | Attack => f1.0
  | Decay => sustainLevel e
  | _ => f0.0
  end.

Definition ramping (st : EnvelopeStage.t) : bool :=
  match st with
  | Attack | Decay | EnvelopeStage.Release => true
  | _ => false
  end.

(** Triggered and not yet released. *)
Definition unreleased (e : t) : bool :=
  match stage e with
  | Attack | Decay | Sustain => true
  | _ => false
  end.

(** The envelope a voice gets from [NewVoice] at 44.1 kHz. *)
Definition default44k : t :=
  NewEnvelope (lit 1 100) (lit 1 10) (lit 6 10) (lit 2 10) (float64_of_int 44100).

End EnvelopeSpec.

(** An arbitrary implementation of the [math] functions, to instantiate the
    theorems at concrete inputs; no theorem depends on its values. *)
Definition anyMath : MathLib :=
  {| math_Sin := fun x => x; math_Pow := fun x _ => x;
     math_Mod := fun x _ => x; math_Floor := fun x => x |}.

(** ** Voice: shapes and the note-held state *)

Module VoiceSpec.
Import Voice.

(** No method dereferences a nil pointer: either the FM path is taken and
    the instrument is there, or the oscillator and the envelope are. *)
Definition ok (v : t) : bool :=
  match useFM v, fmInstrument v with
  | true, Some _ => true
  | _, _ => match oscillator v, envelope v with
            | Some _, Some _ => true
            | _, _ => false
            end
  end.

(** On the FM path the instrument has at least one operator. *)
Definition hasOperators (v : t) : bool :=
  match useFM v, fmInstrument v with
  | true, Some fm => match FMInstrument.operators fm with [] => false | _ => true end
  | _, _ => true
  end.

Definition opUnreleased (op : FMOperator.t) : bool :=
  EnvelopeSpec.unreleased (FMOperator.envelope op).

(** A note is held: the trigger flag is set and the engine is in a stage
    before Release (every operator, on the FM path). *)
Definition held (v : t) : bool :=
  active v &&
  match useFM v, fmInstrument v with
  | true, Some fm =>
      match FMInstrument.operators fm with [] => false | _ => true end &&
      forallb opUnreleased (FMInstrument.operators fm)
  | _, _ => match oscillator v, envelope v with
            | Some _, Some e => EnvelopeSpec.unreleased e
            | _, _ => false
            end
  end.

(** [n] successive calls of [Next], keeping the voice. *)
Fixpoint steps `{MathLib} (n : nat) (v : t) : option t :=
  match n with
  | O => Some v
  | S n' => '(_, v') ← Next v; steps n' v'
  end.

End VoiceSpec.

(** ** Voice allocator: call sequences, invariants and the mix *)

Module VoiceAllocatorSpec.
Import VoiceAllocator.

(** The calls a client makes on an allocator (the bypass methods
    [SetVoiceNote] and [ReleaseVoice] are not among them). *)
Inductive Op :=
| OpNoteOn (note : Z) (velocity : float64)
| OpNoteOff (note : Z)
| OpAllNotesOff
| OpNext.

Definition apply `{MathLib} (va : t) (op : Op) : option t :=
  match op with
  | OpNoteOn note velocity => NoteOn va note velocity
  | OpNoteOff note => NoteOff va note
  | OpAllNotesOff => AllNotesOff va
  | OpNext => '(_, va') ← Next va; Some va'
  end.

Fixpoint run `{MathLib} (ops : list Op) (va : t) : option t :=
  match ops with
  | [] => Some va
  | op :: ops' => va' ← apply va op; run ops' va'
  end.

(** The list and the map describe the same notes, and the pool is sound. *)
Definition consistent (va : t) : Prop :=
  NoDup (activeNotes va) /\
  (forall n : Z, n ∈ activeNotes va <-> is_Some (noteMap va !! n)) /\
  (forall (n : Z) (i : nat), noteMap va !! n = Some i -> is_Some (voices va !! i)) /\
  Forall (fun v => VoiceSpec.ok v = true) (voices va).

(** No two notes map to the same voice. *)
Definition injective (va : t) : Prop :=
  forall (n1 n2 : Z) (i : nat),
    noteMap va !! n1 = Some i -> noteMap va !! n2 = Some i -> n1 = n2.

(** Every mapped voice holds its note (so it reports active). *)
Definition mappedHeld (va : t) : Prop :=
  forall (n : Z) (i : nat) (v : Voice.t),
    noteMap va !! n = Some i -> voices va !! i = Some v -> VoiceSpec.held v = true.

Definition mappedActive (va : t) : Prop :=
  forall (n : Z) (i : nat) (v : Voice.t),
    noteMap va !! n = Some i -> voices va !! i = Some v -> Voice.IsActive v = Some true.

Definition withOperators (va : t) : Prop :=
  Forall (fun v => VoiceSpec.hasOperators v = true) (voices va).

(** The pool has the size asked for at construction. *)
Definition poolSized (va : t) : Prop := len (voices va) = maxVoices va.

Definition inv (va : t) : Prop :=
  consistent va /\ injective va /\ mappedHeld va /\ withOperators va /\ poolSized va.

(** Slot [i] is bound to no note. *)
Definition freeSlot (va : t) (i : nat) : Prop :=
  forall n : Z, noteMap va !! n <> Some i.

(** The voices that report active, in pool order, and what each returns. *)
Definition activeVoices (vs : list Voice.t) : list Voice.t :=
  filter (fun v => Voice.IsActive v = Some true) vs.

Definition output `{MathLib} (v : Voice.t) : float64 :=
  match Voice.Next v with
  | Some (s, _) => s
  | None => f0.0
  end.

(** The mix as the specification words it: the sum of the outputs divided
    by their number, and 0 when there is none. *)
Definition mixOf (outs : list float64) : float64 :=
  match outs with
  | [] => f0.0
  | _ => fdiv (foldl fadd f0.0 outs) (float64_of_int (len outs))
  end.

(** The voice left in a slot by one call of the allocator's [Next]. *)
Definition advanced `{MathLib} (v : Voice.t) : Voice.t :=
  match Voice.IsActive v, Voice.Next v with
  | Some true, Some (_, v') => v'
  | _, _ => v
  end.


(** An allocator with an empty pool. *)
Definition noVoices : t :=
  {| voices := []; noteMap := ∅; instrument := Player.defaultInst;
     sampleRate := float64_of_int 44100; maxVoices := 0; activeNotes := [] |}.

(** A four-voice pool of default square voices, as built. *)
Definition fresh44k : t :=
  default noVoices (NewVoiceAllocator Player.defaultInst (float64_of_int 44100) 4).

(** A four-voice pool of default square voices with note 60 sounding. *)
Definition oneNote44k : t :=
  default noVoices
    (va ← NewVoiceAllocator Player.defaultInst (float64_of_int 44100) 4;
     @NoteOn anyMath va 60 f1.0).

End VoiceAllocatorSpec.

(** ** Player: soundness, the event under the cursor, side-by-side runs *)

Module PlayerSpec.
Import Player.

(** An allocator that satisfies its invariant and has a voice to give. *)
Definition good (va : VoiceAllocator.t) : Prop :=
  VoiceAllocatorSpec.inv va /\ 0 < VoiceAllocator.maxVoices va.

(** Every entry of the sequence names a pattern of the module, and the
    sequence length and the row counts are [int] values. *)
Definition wellSequenced (m : Tracker.TrackerModule) : Prop :=
  len (Tracker.Sequence m) <= int_max /\
  Forall (fun i => exists pat, index (Tracker.Patterns m) i = Some pat /\
                               Tracker.Rows pat <= int_max)
         (Tracker.Sequence m).

(** The states a player built by [NewPlayer] on such a module runs through. *)
Definition sound (p : t) : Prop :=
  Forall good (VoiceAllocators p) /\
  wellSequenced (module p) /\
  0 <= currentPos p <= len (Tracker.Sequence (module p)) /\
  (currentPos p < len (Tracker.Sequence (module p)) -> 0 <= currentRow p < int_max) /\
  0 <= sampleCounter p < int_max /\
  samplesPerRow p <= int_max.

(** The event [processRow] reads for channel [ch], when there is one. *)
Definition currentNote (p : t) (ch : nat) : option Tracker.TrackerNote :=
  let m := module p in
  if len (Tracker.Sequence m) <=? currentPos p then None
  else
    patternIdx ← index (Tracker.Sequence m) (currentPos p);
    if len (Tracker.Patterns m) <=? patternIdx then None
    else
      pattern ← index (Tracker.Patterns m) patternIdx;
      channel ← Tracker.Channels pattern !! ch;
      if currentRow p <? len channel then index channel (currentRow p) else None.

(** The call of [Next] on [p] gives channel [ch] nothing but rests: the
    player is done, or not at a row boundary, or the event is a rest. *)
Definition restStep (p : t) (ch : nat) : Prop :=
  isDone p = false -> sampleCounter p = 0 ->
  forall note, currentNote p ch = Some note -> Tracker.Note note = -1.

(** The engine of a voice is in its Sustain stage (every operator's, on
    the FM path). *)
Definition inSustain (v : Voice.t) : bool :=
  match Voice.useFM v, Voice.fmInstrument v with
  | true, Some fm =>
      forallb (fun op => bool_decide (Envelope.stage (FMOperator.envelope op) = Sustain))
              (FMInstrument.operators fm)
  | _, _ => match Voice.envelope v with
            | Some e => bool_decide (Envelope.stage e = Sustain)
            | None => false
            end
  end.

(** Nothing but per-sample advances separates two states of an allocator:
    same map, same list, and every engine found in Sustain still there. *)
Definition quiet (va va' : VoiceAllocator.t) : Prop :=
  VoiceAllocator.noteMap va' = VoiceAllocator.noteMap va /\
  VoiceAllocator.activeNotes va' = VoiceAllocator.activeNotes va /\
  Forall2 (fun v v' => inSustain v = true -> inSustain v' = true)
          (VoiceAllocator.voices va) (VoiceAllocator.voices va').

(** The player after [n] calls of [Next]. *)
Definition after `{MathLib} (n : nat) (p : t) : option t := snd <$> render n p.

(** A module of one pattern, 4 rows by 1 channel, played once at 120 BPM: a
    note, a rest, a note-off, a rest. *)
Definition event (n : Z) : Tracker.TrackerNote :=
  {| Tracker.Note := n; Tracker.Instrument_ := 0; Tracker.Volume := f1.0;
     Tracker.Effect := ""; Tracker.Chord := [] |}.

Definition fourRows : Tracker.TrackerModule :=
  {| Tracker.Title := "four rows"; Tracker.Tempo := 120; Tracker.TicksPerRow := 6;
     Tracker.Patterns :=
       [ {| Tracker.Rows := 4;
            Tracker.Channels := [[event 60; event (-1); event (-2); event (-1)]] |} ];
     Tracker.Sequence := [0];
     Tracker.Instruments := [] |}.

(** The samples elapsed in a pattern whose rows last 5512 samples. *)
Definition elapsed (p : t) : Z := currentRow p * 5512 + sampleCounter p.

(** The states of the single pass over a pattern of 4 rows of 5512
    samples that is the whole sequence of module [m]. *)
Definition playing (m : Tracker.TrackerModule) (p : t) : Prop :=
  sound p /\ module p = m /\ samplesPerRow p = 5512 /\ isDone p = false /\
  currentPos p = 0 /\ 0 <= currentRow p < 4 /\ 0 <= sampleCounter p < 5512.

(** The player [NewPlayer] builds on [fourRows] at 44.1 kHz. *)
Definition fourRowsPlayer : t :=
  Eval vm_compute in default
    {| module := fourRows; VoiceAllocators := []; sampleRate := float64_of_int 44100;
       currentPos := 0; currentRow := 0; sampleCounter := 0; samplesPerRow := 5512;
       isDone := false; maxPolyphony := 4 |}
    (NewPlayer fourRows (float64_of_int 44100)).

(** A note, then rests, one row per sample (tempo 120 at 8 Hz), on an
    instrument whose attack and decay are instantaneous. *)
Definition heldNote : Tracker.TrackerModule :=
  {| Tracker.Title := "held"; Tracker.Tempo := 120; Tracker.TicksPerRow := 6;
     Tracker.Patterns :=
       [ {| Tracker.Rows := 4;
            Tracker.Channels := [[event 60; event (-1); event (-1); event (-1)]] |} ];
     Tracker.Sequence := [0];
     Tracker.Instruments :=
       [ {| Tracker.Name := "organ"; Tracker.WaveType_ := Square;
            Tracker.Attack := f0.0; Tracker.Decay := f0.0;
            Tracker.Sustain := lit 6 10; Tracker.Release := lit 2 10;
            Tracker.IsFM := false; Tracker.FMPreset := "" |} ] |}.

(** A player without channels. *)
Definition noChannels : t :=
  {| module := heldNote; VoiceAllocators := []; sampleRate := float64_of_int 8;
     currentPos := 0; currentRow := 0; sampleCounter := 0; samplesPerRow := 1;
     isDone := false; maxPolyphony := 4 |}.

(** The player on [heldNote] two samples in: row 2, a rest, is next, and
    the voice of note 60 is in Sustain. *)
Definition holding : t :=
  Eval vm_compute in
    default noChannels (NewPlayer heldNote (float64_of_int 8) ≫= @after anyMath 2).

End PlayerSpec.

(** ** Further specification-side definitions *)

Module HeldNote.
Import Envelope EnvelopeSpec.

(** The level after call number [n] (from 1) of [Next] that follows
    [Trigger], while no release arrives: the attack ramp, the peak, the
    decay ramp, then the sustain level.  Sample counts that are not
    positive count as 0. *)
Definition level (e : t) (n : Z) : float64 :=
  let a := Z.max 0 (attackSamples e) in
  let d := Z.max 0 (decaySamples e) in
  if n <=? a then rampLevel Attack e (n - 1)
  else if n =? a + 1 then f1.0
  else if n <=? a + 1 + d then rampLevel Decay e (n - a - 2)
  else sustainLevel e.

(** The stage after that call. *)
Definition stage (e : t) (n : Z) : EnvelopeStage.t :=
  let a := Z.max 0 (attackSamples e) in
  let d := Z.max 0 (decaySamples e) in
  if n <=? a then Attack
  else if n <=? a + 1 + d then Decay
  else Sustain.

End HeldNote.

Module VoiceTail.
Import Voice.

(** The voice runs its oscillator and envelope (it does not take the FM
    path), and both are there. *)
Definition subtractive (v : t) : bool :=
  match useFM v, fmInstrument v with
  | true, Some _ => false
  | _, _ => match oscillator v, envelope v with
            | Some _, Some _ => true
            | _, _ => false
            end
  end.

(** Length in samples of the release stage of the voice's envelope. *)
Definition releaseSamples (v : t) : Z :=
  match envelope v with
  | Some e => Envelope.releaseSamples e
  | None => 0
  end.

(** The envelope is in a stage other than Off. *)
Definition sounding (v : t) : bool :=
  match envelope v with
  | Some e => Envelope.IsActive e
  | None => false
  end.

(** Nothing left to play: the flag is down and the envelope is Off. *)
Definition idle (v : t) : bool :=
  subtractive v && negb (active v) && negb (sounding v).

End VoiceTail.

(** A sine voice at 44100 Hz, 10 samples into note 57. *)
Definition ringingVoice : Voice.t :=
  Eval vm_compute in
    default (Voice.NewVoice Sine (float64_of_int 44100))
      (@Voice.NoteOn anyMath (Voice.NewVoice Sine (float64_of_int 44100)) 57 f1.0
         ≫= @VoiceSpec.steps anyMath 10).

Module ChordSpec.
Import VoiceAllocator VoiceAllocatorSpec.

(** A pool of [n] voices on which the pairwise distinct notes [played]
    were triggered in turn, starting fresh: the list holds the newest [n]
    of them, the first slots hold notes and the others are still idle. *)
Definition filled (n : nat) (played : list Z) (va : t) : Prop :=
  inv va /\ length (voices va) = n /\
  activeNotes va = drop (length played - n) played /\
  (forall (i : nat) (v : Voice.t),
     voices va !! i = Some v -> (i < length played)%nat -> VoiceSpec.held v = true) /\
  (forall (i : nat) (v : Voice.t),
     voices va !! i = Some v -> (length played <= i)%nat -> Voice.IsActive v = Some false).

End ChordSpec.

Module Timing.
Import Player PlayerSpec.

(** [wellSequenced], as a check that can be run. *)
Definition checked (m : Tracker.TrackerModule) : bool :=
  (len (Tracker.Sequence m) <=? int_max) &&
  forallb (fun i => match index (Tracker.Patterns m) i with
                    | Some pat => Tracker.Rows pat <=? int_max
                    | None => false
                    end)
          (Tracker.Sequence m).

(** The module can be played through: it is well sequenced and its
    sequence is not empty. *)
Definition playable (m : Tracker.TrackerModule) : bool :=
  checked m && (0 <? len (Tracker.Sequence m)).

(** The rows a sequence entry takes: those of its pattern, and one when
    the pattern has none. *)
Definition rowsOf (m : Tracker.TrackerModule) (i : Z) : Z :=
  match index (Tracker.Patterns m) i with
  | Some pat => Z.max 1 (Tracker.Rows pat)
  | None => 0
  end.

Definition rowsIn (m : Tracker.TrackerModule) (entries : list Z) : Z :=
  foldr (fun i acc => rowsOf m i + acc) 0 entries.

(** The samples a pass over the whole sequence takes: a row lasts
    [samplesPerRow] samples, and one when that is not positive. *)
Definition duration (m : Tracker.TrackerModule) (samplesPerRow : Z) : Z :=
  Z.max 1 samplesPerRow * rowsIn m (Tracker.Sequence m).

(** The samples left before the player is done. *)
Definition remaining (p : t) : Z :=
  Z.max 1 (samplesPerRow p) *
    (rowsIn (module p) (drop (Z.to_nat (currentPos p)) (Tracker.Sequence (module p)))
     - currentRow p)
  - sampleCounter p.

(** The states of a pass: inside the sequence, inside the pattern, inside
    the row. *)
Definition running (m : Tracker.TrackerModule) (spr : Z) (p : t) : Prop :=
  sound p /\ module p = m /\ samplesPerRow p = spr /\ isDone p = false /\
  (exists i, index (Tracker.Sequence m) (currentPos p) = Some i /\
             0 <= currentRow p < rowsOf m i) /\
  0 <= sampleCounter p < Z.max 1 spr.

(** The player never gets past its first sequence entry: there is none,
    or it names a pattern beyond the last one. *)
Definition stuck (m : Tracker.TrackerModule) : bool :=
  match Tracker.Sequence m with
  | [] => true
  | i :: _ => len (Tracker.Patterns m) <=? i
  end.

End Timing.

Module LoaderSpec.
Import TrackerFile.

(** Every channel of the pattern has as many entries as the pattern has
    rows. *)
Definition rectangular (pat : Tracker.Pattern) : Prop :=
  Forall (fun channel => len channel = Tracker.Rows pat) (Tracker.Channels pat).

(** What a note read from a file can be: a rest, a note-off or a note from
    0 to 108, with instrument 0, volume 1.0 and no chord. *)
Definition plain (note : Tracker.TrackerNote) : Prop :=
  -2 <= Tracker.Note note <= 108 /\
  Tracker.Instrument_ note = 0 /\ Tracker.Volume note = f1.0 /\ Tracker.Chord note = [].

Definition wellFormed (pat : Tracker.Pattern) : Prop :=
  rectangular pat /\ Forall (Forall plain) (Tracker.Channels pat).

(** The lines of a small file: a pattern of 2 rows by 2 channels, a note
    and a note-off on channel 0, a field too many on channel 1. *)
Definition smallFile : list (list string) :=
  [ ["#"; "a"; "comment"];
    ["PATTERN"; "2"; "2"];
    ["CH"; "0:"; "C-4"; "==="];
    ["CH"; "1:"; "---"; "A#3"; "C-5"];
    ["ENDPATTERN"];
    ["SEQUENCE"; "0"; "0"] ]%string.

End LoaderSpec.

Module WAVSpec.
Import WAV.

(** The 44 bytes of the header of a file of [n] stereo frames at
    [sampleRate] Hz; the two sizes are taken modulo 2^32. *)
Definition headerBytes (sampleRate n : Z) : list Z :=
  bytes "RIFF" ++ le32 ((36 + 4 * n) mod 2 ^ 32) ++ bytes "WAVE" ++
  bytes "fmt " ++ le32 16 ++ le16 1 ++ le16 2 ++
  le32 (sampleRate mod 2 ^ 32) ++ le32 ((4 * sampleRate) mod 2 ^ 32) ++
  le16 4 ++ le16 16 ++
  bytes "data" ++ le32 ((4 * n) mod 2 ^ 32).

Definition headerMiddle (sampleRate : Z) : list Z :=
  bytes "WAVE" ++ bytes "fmt " ++ le32 16 ++ le16 1 ++ le16 2 ++
  le32 (sampleRate mod 2 ^ 32) ++ le32 ((4 * sampleRate) mod 2 ^ 32) ++
  le16 4 ++ le16 16 ++ bytes "data".

(** The 4 bytes of a frame. *)
Definition frameBytes (frame : float64 * float64) : list Z :=
  le16 (int16_of_float64 (fmul (fst frame) (float64_of_int 32767))) ++
  le16 (int16_of_float64 (fmul (snd frame) (float64_of_int 32767))).

(** [WriteSample] for each frame in turn. *)
Definition writeAll (w : WAVWriter) (frames : list (float64 * float64)) : WAVWriter :=
  foldl (fun w frame => WriteSample w (fst frame) (snd frame)) w frames.


End WAVSpec.

Module FMSpec.
Import FMInstrument.

(** [n] successive calls of [Next], keeping the instrument. *)
Fixpoint steps `{MathLib} (n : nat) (fm : t) : t :=
  match n with
  | O => fm
  | S n' => steps n' (snd (Next fm))
  end.

(** The number of operators that the wiring of an algorithm runs. *)
Definition arity (a : FMAlgorithm) : nat :=
  match a with
  | FM2OpSimple | FM2OpParallel => 2
  | FM3OpStack => 3
  | FM4OpPiano => 4
  end.

(** The instrument has exactly the operators that its algorithm runs. *)
Definition wired (fm : t) : bool :=
  bool_decide (length (operators fm) = arity (algorithm fm)).

(** Length in samples of the release stage of an operator. *)
Definition releaseSamples (op : FMOperator.t) : Z :=
  Envelope.releaseSamples (FMOperator.envelope op).

(** A bell at 44.1 kHz, 100 samples into note 57. *)
Definition ringingBell : t :=
  Eval vm_compute in
    match NewFMBellFMInstrument (float64_of_int 44100) with
    | Some fm => @steps anyMath 100 (@NoteOn anyMath fm 57 f1.0)
    | None => {| operators := []; algorithm := FM2OpSimple; modulationIndex := f0.0;
                 sampleRate := f0.0; baseFrequency := f0.0; volume := f0.0 |}
    end.

(** An instrument built with three operators for a two-operator
    algorithm. *)
Definition threeForTwo : t :=
  Eval vm_compute in
    default {| operators := []; algorithm := FM2OpSimple; modulationIndex := f0.0;
               sampleRate := f0.0; baseFrequency := f0.0; volume := f0.0 |}
      (NewFMInstrument 3 FM2OpSimple (float64_of_int 44100)).

End FMSpec.

Module Audible.
Import Player.

(** Two patterns agree on the row count and on the first 8 channels. *)
Definition samePattern (a b : Tracker.Pattern) : Prop :=
  Tracker.Rows a = Tracker.Rows b /\
  take 8 (Tracker.Channels a) = take 8 (Tracker.Channels b).

(** Two modules agree on the tempo, the sequence, the first 8 instruments
    and, pattern by pattern, on the row counts and the first 8 channels;
    titles, ticks per row, further instruments and further channels may
    differ. *)
Definition sameModule (m m' : Tracker.TrackerModule) : Prop :=
  Tracker.Tempo m = Tracker.Tempo m' /\
  Tracker.Sequence m = Tracker.Sequence m' /\
  Forall2 samePattern (Tracker.Patterns m) (Tracker.Patterns m') /\
  take 8 (Tracker.Instruments m) = take 8 (Tracker.Instruments m').

(** Two players that differ in their modules only, which agree as above. *)
Definition sameState (p p' : t) : Prop :=
  sameModule (module p) (module p') /\
  VoiceAllocators p = VoiceAllocators p' /\
  (length (VoiceAllocators p) <= 8)%nat /\
  sampleRate p = sampleRate p' /\
  currentPos p = currentPos p' /\ currentRow p = currentRow p' /\
  sampleCounter p = sampleCounter p' /\ samplesPerRow p = samplesPerRow p' /\
  isDone p = isDone p' /\ maxPolyphony p = maxPolyphony p'.

(** [fourRows] under another title, with another tick count, a ninth
    channel and a ninth instrument. *)
Definition fourRowsAndMore : Tracker.TrackerModule :=
  {| Tracker.Title := "more"; Tracker.Tempo := 120; Tracker.TicksPerRow := 3;
     Tracker.Patterns :=
       [ {| Tracker.Rows := 4;
            Tracker.Channels :=
              [[PlayerSpec.event 60; PlayerSpec.event (-1); PlayerSpec.event (-2);
                PlayerSpec.event (-1)]] ++ replicate 7 [] ++
              [[PlayerSpec.event 72; PlayerSpec.event 76; PlayerSpec.event 79;
                PlayerSpec.event 84]] |} ];
     Tracker.Sequence := [0];
     Tracker.Instruments := replicate 8 Player.defaultInst ++
       [ {| Tracker.Name := "ninth"; Tracker.WaveType_ := Sine;
            Tracker.Attack := f0.0; Tracker.Decay := f0.0;
            Tracker.Sustain := f1.0; Tracker.Release := f0.0;
            Tracker.IsFM := false; Tracker.FMPreset := "" |} ] |}.

(** [fourRows] with eight default instruments and its channel list padded
    to eight. *)
Definition fourRowsPadded : Tracker.TrackerModule :=
  {| Tracker.Title := "four rows"; Tracker.Tempo := 120; Tracker.TicksPerRow := 6;
     Tracker.Patterns :=
       [ {| Tracker.Rows := 4;
            Tracker.Channels :=
              [[PlayerSpec.event 60; PlayerSpec.event (-1); PlayerSpec.event (-2);
                PlayerSpec.event (-1)]] ++ replicate 7 [] |} ];
     Tracker.Sequence := [0];
     Tracker.Instruments := replicate 8 Player.defaultInst |}.

End Audible.

(** * Theorems *)

(** ** Go base types *)

Lemma wrap_small z : int_min <= z <= int_max -> wrap z = z.
Proof.
  unfold wrap, int_min, int_max. intros H.
  rewrite Z.mod_small by lia. lia.
Qed.

Lemma int_of_float64_range x : int_min <= int_of_float64 x <= int_max.
Proof.
  unfold int_of_float64.
  destruct x as [s| s | | s m e]; try (unfold int_min, int_max; lia).
  cbv zeta.
  match goal with |- context [if ?b then _ else _] => destruct b eqn:Hb end.
  - apply andb_true_iff in Hb. lia.
  - unfold int_min, int_max. lia.
Qed.

(** ** Envelope *)

Section EnvelopeFacts.
Import Envelope EnvelopeSpec.

Lemma steps_snoc n e : steps (S n) e = snd (Next (steps n e)).
Proof.
  revert e. induction n as [|n IH]; intros e; [reflexivity|].
  change (steps (S (S n)) e) with (steps (S n) (snd (Next e))).
  rewrite IH. reflexivity.
Qed.

Lemma steps_add n m e : steps (n + m) e = steps m (steps n e).
Proof.
  revert e. induction n as [|n IH]; intros e; [reflexivity|].
  cbn. apply IH.
Qed.

Lemma Next_params e : params (snd (Next e)) = params e.
Proof.
  unfold Next, params. cbn.
  destruct (stage e); repeat (match goal with |- context [if ?b then _ else _] => destruct b end);
    reflexivity.
Qed.

Lemma steps_params n e : params (steps n e) = params e.
Proof.
  revert e. induction n as [|n IH]; intros e; [reflexivity|].
  cbn. rewrite IH. apply Next_params.
Qed.

Lemma stageSamples_params st e e' : params e' = params e -> stageSamples st e' = stageSamples st e.
Proof.
  unfold params, stageSamples, attackSamples, decaySamples, releaseSamples.
  intros [= -> -> _ -> ->]. reflexivity.
Qed.

Lemma stageSamples_range st e : int_min <= stageSamples st e <= int_max.
Proof.
  destruct st; cbn; try apply int_of_float64_range; unfold int_min, int_max; lia.
Qed.

(** One call of [Next] inside a ramp. *)
Lemma Next_ramp st e :
  ramping st = true -> stage e = st ->
  0 <= sampleCount e < stageSamples st e ->
  snd (Next e) = set_stage (set_level e (rampLevel st e (sampleCount e))) st (sampleCount e + 1).
Proof.
  intros Hst Hs Hc.
  pose proof (stageSamples_range st e) as Hr.
  assert (Hw : wrap (sampleCount e + 1) = sampleCount e + 1)
    by (apply wrap_small; unfold int_min, int_max in *; lia).
  unfold Next. cbn [snd]. rewrite Hs.
  destruct st; try discriminate; cbn [stageSamples rampLevel] in *; cbv zeta.
  all: repeat match goal with
         | |- context [Z.eqb ?a ?b] => destruct (Z.eqb_spec a b); [lia|]
         | |- context [Z.leb ?a ?b] => destruct (Z.leb_spec a b); [lia|]
         end.
  all: rewrite Hw; reflexivity.
Qed.

(** The call of [Next] that leaves a ramping stage. *)
Lemma Next_ramp_end st e :
  ramping st = true -> stage e = st ->
  stageSamples st e <= sampleCount e \/ stageSamples st e = 0 ->
  snd (Next e) =
    set_stage (set_level e (finalLevel st e)) (nextStage st)
              (match st with Attack => 0 | _ => sampleCount e end).
Proof.
  intros Hst Hs Hc.
  unfold Next. cbn [snd]. rewrite Hs.
  destruct st; try discriminate; cbn [stageSamples finalLevel nextStage] in *; cbv zeta.
  all: repeat match goal with
         | |- context [Z.eqb ?a ?b] => destruct (Z.eqb_spec a b); [reflexivity|]
         | |- context [Z.leb ?a ?b] => destruct (Z.leb_spec a b); [reflexivity|lia]
         end.
Qed.

Lemma set_ramp_invariant st e l n c :
  ramping st = true ->
  stageSamples st (set_stage (set_level e l) st n) = stageSamples st e /\
  rampLevel st (set_stage (set_level e l) st n) c = rampLevel st e c.
Proof. destruct st; try discriminate; intros _; split; reflexivity. Qed.

(** Inside a ramping stage entered with the counter at 0, the state after
    [k] calls is known in closed form. *)
Lemma ramp_steps st e (k : nat) :
  ramping st = true -> stage e = st -> sampleCount e = 0 ->
  (0 < k)%nat -> Z.of_nat k <= stageSamples st e ->
  steps k e = set_stage (set_level e (rampLevel st e (Z.of_nat k - 1))) st (Z.of_nat k).
Proof.
  intros Hst Hs Hc Hk.
  induction k as [|k IH]; [lia|]. intros Hle.
  rewrite steps_snoc.
  destruct k as [|k].
  - cbn [steps]. rewrite (Next_ramp st e Hst Hs) by lia.
    rewrite Hc. reflexivity.
  - rewrite IH by lia.
    destruct (set_ramp_invariant st e (rampLevel st e (Z.of_nat (S k) - 1)) (Z.of_nat (S k))
                (Z.of_nat (S k)) Hst) as [HN HL].
    rewrite (Next_ramp st _ Hst) by (cbn [stage sampleCount set_stage]; first [reflexivity | rewrite HN; lia]).
    cbn [sampleCount set_stage]. rewrite HL.
    unfold set_stage, set_level. cbn.
    f_equal; [f_equal; f_equal; lia | lia].
Qed.

(** A ramping stage of [N] samples entered with the counter at 0 is left by
    call number [N + 1] (call number 1 when [N <= 0]). *)
Lemma ramp_done st e :
  ramping st = true -> stage e = st -> sampleCount e = 0 ->
  let e' := steps (Z.to_nat (stageSamples st e) + 1) e in
  stage e' = nextStage st /\ level e' = finalLevel st e /\ params e' = params e /\
  (st = Attack -> sampleCount e' = 0).
Proof.
  intros Hst Hs Hc. cbv zeta.
  rewrite Nat.add_1_r, steps_snoc.
  destruct (Z_le_gt_dec (stageSamples st e) 0) as [Hle|Hgt].
  - replace (Z.to_nat (stageSamples st e)) with 0%nat by lia. cbn [steps].
    rewrite (Next_ramp_end st e Hst Hs) by lia.
    repeat split; try reflexivity. intros ->. reflexivity.
  - rewrite (ramp_steps st e _ Hst Hs Hc) by lia.
    rewrite Z2Nat.id by lia.
    destruct (set_ramp_invariant st e (rampLevel st e (stageSamples st e - 1)) (stageSamples st e)
                0 Hst) as [HN _].
    rewrite (Next_ramp_end st _ Hst) by (cbn [stage sampleCount set_stage]; first [reflexivity | rewrite HN; lia]).
    destruct st; try discriminate; repeat split; try reflexivity; intros [=].
Qed.

Lemma Release_Off e : stage e = Off -> Release e = e.
Proof. unfold Release. intros ->. reflexivity. Qed.

Lemma Release_active e :
  stage e <> Off ->
  Release e = set_stage e EnvelopeStage.Release 0.
Proof. unfold Release. intros H. destruct (decide (stage e <> Off)); [reflexivity|tauto]. Qed.

Lemma steps_Off n e : stage e = Off -> stage (steps n e) = Off /\ (0 < n -> level (steps n e) = f0.0)%nat.
Proof.
  revert e. induction n as [|n IH]; intros e He; [split; [assumption | lia]|].
  rewrite steps_snoc. destruct (IH e He) as [Hs _].
  unfold Next. rewrite Hs. cbn. split; [assumption | reflexivity].
Qed.
End EnvelopeFacts.

Section EnvelopeClaims.
Import Envelope EnvelopeSpec.

(** C2, as stated, fails: with the default envelope at 44.1 kHz the attack
    lasts 441 samples, and after [Trigger] and exactly 441 calls of [Next]
    the envelope is still in Attack with level 440/441, not 1.0. *)
Lemma attack_peak_not_after_attackSamples :
  attackSamples default44k = 441 /\
  stage (steps 441 (Trigger default44k)) = Attack /\
  level (steps 441 (Trigger default44k)) = lit 440 441 /\
  level (steps (Z.to_nat (attackSamples default44k)) (Trigger default44k)) <> f1.0.
Proof. vm_compute. repeat split; discriminate. Qed.

(** C2 (amended): a stage of N samples takes N + 1 calls.  After [Trigger]
    and [attackSamples + 1] calls of [Next] the level is 1.0 (stage Decay);
    after [decaySamples + 1] further calls it is the sustain level (stage
    Sustain); after [Release] and [releaseSamples + 1] calls, from any
    state, the level is 0.0 and [IsActive] is false; [Release] in stage Off
    changes nothing.  (A sample count that is not positive counts as 0.) *)
Theorem adsr_stage_lengths (e : Envelope.t) :
  let e1 := steps (Z.to_nat (attackSamples e) + 1) (Trigger e) in
  let e2 := steps (Z.to_nat (decaySamples e) + 1) e1 in
  (level e1 = f1.0 /\ stage e1 = Decay) /\
  (level e2 = sustainLevel e /\ stage e2 = Sustain) /\
  (forall e' : Envelope.t,
     let e3 := steps (Z.to_nat (releaseSamples e') + 1) (Release e') in
     level e3 = f0.0 /\ IsActive e3 = false) /\
  (forall e' : Envelope.t, stage e' = Off -> Release e' = e').
Proof.
  cbv zeta.
  destruct (ramp_done Attack (Trigger e) eq_refl eq_refl eq_refl) as (Hs1 & Hl1 & Hp1 & Hc1).
  change (stageSamples Attack (Trigger e)) with (attackSamples e) in *.
  set (e1 := steps (Z.to_nat (attackSamples e) + 1) (Trigger e)) in *.
  destruct (ramp_done Decay e1 eq_refl Hs1 (Hc1 eq_refl)) as (Hs2 & Hl2 & Hp2 & _).
  assert (Hd : stageSamples Decay e1 = decaySamples e)
    by (exact (stageSamples_params Decay (Trigger e) e1 Hp1)).
  rewrite Hd in *.
  assert (Hsl : sustainLevel e1 = sustainLevel e)
    by (unfold params in Hp1; cbn in Hp1; congruence).
  repeat split.
  - exact Hl1.
  - exact Hs1.
  - rewrite Hl2. cbn. exact Hsl.
  - exact Hs2.
  - destruct (decide (stage e' = Off)) as [Hoff|Hon].
    + rewrite (Release_Off e' Hoff).
      apply steps_Off; [assumption | lia].
    + rewrite (Release_active e' Hon).
      apply (ramp_done EnvelopeStage.Release (set_stage e' EnvelopeStage.Release 0));
        reflexivity.
  - destruct (decide (stage e' = Off)) as [Hoff|Hon].
    + rewrite (Release_Off e' Hoff). unfold IsActive.
      rewrite (proj1 (steps_Off _ e' Hoff)). reflexivity.
    + rewrite (Release_active e' Hon).
      destruct (ramp_done EnvelopeStage.Release (set_stage e' EnvelopeStage.Release 0)
                  eq_refl eq_refl eq_refl) as (Hs3 & _).
      unfold IsActive.
      change (stageSamples EnvelopeStage.Release (set_stage e' EnvelopeStage.Release 0))
        with (releaseSamples e') in Hs3.
      rewrite Hs3. reflexivity.
  - apply Release_Off.
Qed.

(** C3, as stated, fails: release the default envelope one sample into its
    attack, where the level is 0.0; the first sample after [Release] is the
    sustain level 0.6, not a point of a ramp that starts at the level held
    when the key was released. *)
Lemma release_jumps_to_sustain :
  let e := steps 1 (Trigger default44k) in
  stage e = Attack /\ level e = f0.0 /\
  fst (Next (Release e)) = lit 6 10 /\
  fst (Next (Release e)) <>
    fmul (level e) (fsub f1.0 (fdiv (float64_of_int 0) (float64_of_int (releaseSamples e)))).
Proof. vm_compute. repeat split; discriminate. Qed.

(** C3 (amended): whatever the level when [Release] is called in a stage
    other than Off, the Release stage ramps linearly from the sustain level
    down to 0: sample number k + 1 after [Release] (k below
    [releaseSamples]) is sustainLevel * (1 - k / releaseSamples), and call
    number [releaseSamples + 1] writes 0.0 and enters Off.  The ramp starts
    at the level held at release only when that level is the sustain
    level, as it is in stage Sustain. *)
Theorem release_ramp_from_sustain (e : Envelope.t) (k : nat) :
  stage e <> Off ->
  Z.of_nat k < releaseSamples e ->
  let e1 := steps (k + 1) (Release e) in
  let e2 := steps (Z.to_nat (releaseSamples e) + 1) (Release e) in
  level e1 = fmul (sustainLevel e)
               (fsub f1.0 (fdiv (float64_of_int (Z.of_nat k)) (float64_of_int (releaseSamples e)))) /\
  stage e1 = EnvelopeStage.Release /\
  level e2 = f0.0 /\ stage e2 = Off.
Proof.
  intros Hon Hk. cbv zeta.
  rewrite (Release_active e Hon).
  set (r := set_stage e EnvelopeStage.Release 0).
  destruct (ramp_done EnvelopeStage.Release r eq_refl eq_refl eq_refl) as (Hs & Hl & _).
  change (stageSamples EnvelopeStage.Release r) with (releaseSamples e) in *.
  rewrite (ramp_steps EnvelopeStage.Release r (k + 1) eq_refl eq_refl eq_refl)
    by (change (stageSamples EnvelopeStage.Release r) with (releaseSamples e); lia).
  repeat split; try assumption.
  cbn. change (stageSamples EnvelopeStage.Release r) with (releaseSamples e).
  replace (Z.of_nat (k + 1) - 1) with (Z.of_nat k) by lia. reflexivity.
Qed.

(** The default envelope released one sample into its attack. *)
Lemma release_ramp_from_sustain_witness :
  let e := steps 1 (Trigger default44k) in
  level (steps 1 (Release e)) =
    fmul (sustainLevel e)
      (fsub f1.0 (fdiv (float64_of_int 0) (float64_of_int (releaseSamples e)))) /\
  stage (steps 1 (Release e)) = EnvelopeStage.Release /\
  level (steps (Z.to_nat (releaseSamples e) + 1) (Release e)) = f0.0 /\
  stage (steps (Z.to_nat (releaseSamples e) + 1) (Release e)) = Off.
Proof.
  apply (release_ramp_from_sustain (steps 1 (Trigger default44k)) 0).
  - vm_compute. discriminate.
  - vm_compute. reflexivity.
Defined.

End EnvelopeClaims.

(** ** FM operators and instruments *)

Section SynthFacts.
Context `{MathLib}.
Import EnvelopeSpec VoiceSpec.

Lemma Envelope_Next_unreleased e :
  unreleased e = true -> unreleased (snd (Envelope.Next e)) = true.
Proof.
  unfold unreleased, Envelope.Next. cbn [snd].
  destruct (Envelope.stage e) eqn:Hs; try discriminate; intros _; cbv zeta;
    repeat (match goal with |- context [if ?b then _ else _] => destruct b end);
    cbn; rewrite ?Hs; reflexivity.
Qed.

Lemma FMOperator_Next_unreleased op m :
  opUnreleased op = true -> opUnreleased (snd (FMOperator.Next op m)) = true.
Proof.
  unfold opUnreleased, FMOperator.Next. intros Hop.
  pose proof (Envelope_Next_unreleased _ Hop) as Hn.
  destruct (Envelope.Next (FMOperator.envelope op)) as [env e1]. exact Hn.
Qed.

(** Whatever the wiring, [route] only replaces operators by their
    successors under [FMOperator.Next]. *)
Lemma route_Forall (P : FMOperator.t -> Prop) fm :
  (forall op m, P op -> P (snd (FMOperator.Next op m))) ->
  Forall P (FMInstrument.operators fm) -> Forall P (snd (FMInstrument.route fm)).
Proof.
  intros HP Hall. unfold FMInstrument.route.
  destruct (FMInstrument.algorithm fm);
    destruct (FMInstrument.operators fm) as [|o0 [|o1 [|o2 [|o3 r]]]]; cbn [snd]; try exact Hall.
  all: repeat match goal with
         | |- context [FMOperator.Next ?o ?m] =>
             let E := fresh "E" in
             pose proof (HP o m) as E; destruct (FMOperator.Next o m)
         end; cbn [snd] in *.
  all: repeat match goal with
         | H : Forall _ (_ :: _) |- _ => apply Forall_cons in H; destruct H
         end.
  all: repeat (apply Forall_cons; split); auto.
Qed.

Lemma route_length fm :
  length (snd (FMInstrument.route fm)) = length (FMInstrument.operators fm).
Proof.
  unfold FMInstrument.route.
  destruct (FMInstrument.algorithm fm);
    destruct (FMInstrument.operators fm) as [|o0 [|o1 [|o2 [|o3 r]]]]; cbn [snd]; try reflexivity.
  all: repeat match goal with
         | |- context [FMOperator.Next ?o ?m] => destruct (FMOperator.Next o m)
         end; reflexivity.
Qed.

Lemma FMInstrument_Next_operators fm :
  FMInstrument.operators (snd (FMInstrument.Next fm)) = snd (FMInstrument.route fm).
Proof.
  unfold FMInstrument.Next.
  destruct (FMInstrument.operators fm) as [|o ops] eqn:E.
  - cbn. unfold FMInstrument.route. rewrite E.
    destruct (FMInstrument.algorithm fm); reflexivity.
  - destruct (FMInstrument.route fm). reflexivity.
Qed.

Lemma forallb_nonempty_existsb {A} (f g : A -> bool) (l : list A) :
  l <> [] -> (forall x, f x = true -> g x = true) ->
  forallb f l = true -> existsb g l = true.
Proof.
  destruct l as [|x l]; [congruence|]. intros _ Hfg. cbn.
  intros [Hx _]%andb_true_iff. rewrite (Hfg x Hx). reflexivity.
Qed.

Lemma opUnreleased_active op : opUnreleased op = true -> FMOperator.IsActive op = true.
Proof.
  unfold opUnreleased, unreleased, FMOperator.IsActive, Envelope.IsActive.
  destruct (Envelope.stage (FMOperator.envelope op)); try discriminate; reflexivity.
Qed.

End SynthFacts.

(** ** Voice *)

Section VoiceFacts.
Context `{MathLib}.
Import EnvelopeSpec VoiceSpec.

#[local] Arguments Envelope.Next : simpl never.
#[local] Arguments Oscillator.Next : simpl never.
#[local] Arguments FMInstrument.Next : simpl never.

Lemma nonempty_length {A} (l l' : list A) :
  length l' = length l ->
  match l' with [] => false | _ => true end = match l with [] => false | _ => true end.
Proof. destruct l, l'; cbn; congruence. Qed.

Lemma FM_NoteOn_nonempty fm n vel :
  match FMInstrument.operators (FMInstrument.NoteOn fm n vel) with [] => false | _ => true end
  = match FMInstrument.operators fm with [] => false | _ => true end.
Proof. apply nonempty_length. cbn. apply length_fmap. Qed.

Lemma FM_NoteOff_nonempty fm :
  match FMInstrument.operators (FMInstrument.NoteOff fm) with [] => false | _ => true end
  = match FMInstrument.operators fm with [] => false | _ => true end.
Proof. apply nonempty_length. cbn. apply length_fmap. Qed.

Lemma FM_Next_nonempty fm :
  match FMInstrument.operators (snd (FMInstrument.Next fm)) with [] => false | _ => true end
  = match FMInstrument.operators fm with [] => false | _ => true end.
Proof. apply nonempty_length. rewrite FMInstrument_Next_operators. apply route_length. Qed.

Lemma FM_NoteOn_unreleased fm n vel :
  forallb opUnreleased (FMInstrument.operators (FMInstrument.NoteOn fm n vel)) = true.
Proof.
  cbn. induction (FMInstrument.operators fm) as [|op ops IH]; [reflexivity|].
  cbn. rewrite IH. reflexivity.
Qed.

Lemma FM_Next_unreleased fm :
  forallb opUnreleased (FMInstrument.operators fm) = true ->
  forallb opUnreleased (FMInstrument.operators (snd (FMInstrument.Next fm))) = true.
Proof.
  rewrite FMInstrument_Next_operators, !forallb_forall, <- !List.Forall_forall.
  apply (route_Forall (fun op => opUnreleased op = true)).
  intros op m. apply FMOperator_Next_unreleased.
Qed.

Lemma FM_held_active fm :
  match FMInstrument.operators fm with [] => false | _ => true end = true ->
  forallb opUnreleased (FMInstrument.operators fm) = true ->
  FMInstrument.IsActive fm = true.
Proof.
  intros Hne Hall. unfold FMInstrument.IsActive.
  apply (forallb_nonempty_existsb opUnreleased); auto using opUnreleased_active.
  destruct (FMInstrument.operators fm); [discriminate | congruence].
Qed.

Lemma ok_NoteOn v n vel :
  ok v = true ->
  exists v', Voice.NoteOn v n vel = Some v' /\ ok v' = true /\
             Voice.IsActive v' = Some true /\ hasOperators v' = hasOperators v.
Proof.
  destruct v as [o e fm u vol a sr]. unfold ok, hasOperators, Voice.NoteOn, Voice.IsActive. cbn.
  destruct u, fm as [fm|], o as [o|], e as [e|]; try discriminate; intros _; cbn;
    eexists; (split; [reflexivity|]); cbn; repeat split; try reflexivity.
  all: exact (FM_NoteOn_nonempty fm n vel).
Qed.

Lemma NoteOn_held v n vel v' :
  Voice.NoteOn v n vel = Some v' -> hasOperators v = true -> held v' = true.
Proof.
  destruct v as [o e fm u vol a sr]. unfold hasOperators, Voice.NoteOn, held. cbn.
  destruct u, fm as [fm|], o as [o|], e as [e|]; cbn; try discriminate;
    intros [= <-] Hne; cbn; try reflexivity.
  all: pose proof (FM_NoteOn_nonempty fm n vel) as Hn;
    pose proof (FM_NoteOn_unreleased fm n vel) as Hu;
    cbn in Hn, Hu; rewrite Hn, Hne, Hu; reflexivity.
Qed.

Lemma ok_NoteOff v :
  ok v = true ->
  exists v', Voice.NoteOff v = Some v' /\ ok v' = true /\ hasOperators v' = hasOperators v.
Proof.
  destruct v as [o e fm u vol a sr]. unfold ok, hasOperators, Voice.NoteOff. cbn.
  destruct u, fm as [fm|], o as [o|], e as [e|]; try discriminate; intros _; cbn;
    eexists; (split; [reflexivity|]); cbn; repeat split; try reflexivity.
  all: exact (FM_NoteOff_nonempty fm).
Qed.

Lemma ok_IsActive v : ok v = true -> exists b, Voice.IsActive v = Some b.
Proof.
  destruct v as [o e fm u vol a sr]. unfold ok, Voice.IsActive. cbn.
  destruct u, fm as [fm|], o as [o|], e as [e|], a; try discriminate; intros _; cbn; eauto.
Qed.

Lemma ok_Next v :
  ok v = true ->
  exists s v', Voice.Next v = Some (s, v') /\ ok v' = true /\ hasOperators v' = hasOperators v.
Proof.
  destruct v as [o e fm u vol a sr]. unfold ok, hasOperators, Voice.Next. cbn.
  destruct u, fm as [fm|], o as [o|], e as [e|]; try discriminate; intros _; cbn.
  all: try (destruct (negb a && negb (FMInstrument.IsActive fm)); [eauto 6|];
            pose proof (FM_Next_nonempty fm) as Hn;
            destruct (FMInstrument.Next fm) as [s fm1]; cbn in *; eauto 6).
  all: destruct a; cbn;
    try (destruct (negb (Envelope.IsActive e)); cbn; [eauto 6|]);
    destruct (Oscillator.Next o), (Envelope.Next e); eauto 6.
Qed.

Lemma held_ok v : held v = true -> ok v = true.
Proof.
  destruct v as [o e fm u vol a sr]. unfold ok, held. cbn.
  destruct a, u, fm as [fm|], o as [o|], e as [e|]; cbn; try discriminate; reflexivity.
Qed.

Lemma held_IsActive v : held v = true -> Voice.IsActive v = Some true.
Proof.
  destruct v as [o e fm u vol a sr]. unfold Voice.IsActive, held. cbn.
  destruct a, u, fm as [fm|], o as [o|], e as [e|]; cbn; try discriminate; reflexivity.
Qed.

Lemma unreleased_active e : unreleased e = true -> Envelope.IsActive e = true.
Proof.
  unfold unreleased, Envelope.IsActive. destruct (Envelope.stage e); try discriminate; reflexivity.
Qed.

(** A held note stays held across [Next]: nothing but a release ends it. *)
Lemma held_Next v :
  held v = true -> exists s v', Voice.Next v = Some (s, v') /\ held v' = true.
Proof.
  destruct v as [o e fm u vol a sr]. unfold held, Voice.Next. cbn.
  destruct a; [|discriminate]. cbn.
  destruct u, fm as [fm|]; cbn.
  1: { intros [Hne Hall]%andb_true_iff.
       pose proof (FM_Next_nonempty fm) as Hn.
       pose proof (FM_Next_unreleased fm Hall) as Hu.
       pose proof (FM_held_active (snd (FMInstrument.Next fm))) as Ha.
       destruct (FMInstrument.Next fm) as [s fm1]; cbn in *.
       rewrite Hne in Hn. rewrite (Ha Hn Hu). cbn.
       do 2 eexists. split; [reflexivity|]. cbn. rewrite Hn, Hu. reflexivity. }
  all: destruct o as [o|], e as [e|]; try discriminate; intros Hu; cbn;
    pose proof (Envelope_Next_unreleased e Hu) as Hn;
    destruct (Oscillator.Next o) as [osc o1], (Envelope.Next e) as [env e1]; cbn [snd] in Hn;
    do 2 eexists; (split; [reflexivity|]); cbn [Voice.active Voice.useFM Voice.fmInstrument
      Voice.oscillator Voice.envelope andb];
    rewrite (unreleased_active e1 Hn); cbn; exact Hn.
Qed.

Lemma steps_held n v :
  held v = true -> exists v', VoiceSpec.steps n v = Some v' /\ held v' = true.
Proof.
  revert v. induction n as [|n IH]; intros v Hv; [eauto|].
  destruct (held_Next v Hv) as (s & v1 & E & H1).
  cbn. rewrite E. cbn. apply IH, H1.
Qed.

End VoiceFacts.

Section VoiceClaims.
Import EnvelopeSpec VoiceSpec.

Lemma steps_Sustain k e :
  Envelope.stage e = Sustain -> Envelope.stage (Envelope.steps k e) = Sustain.
Proof.
  revert e. induction k as [|k IH]; intros e He; [exact He|].
  cbn [Envelope.steps]. apply IH. unfold Envelope.Next. rewrite He. cbn. exact He.
Qed.

(** Why the instrument of an FM voice must have an operator: on one built
    with none (a case [FMInstrument.Next] provides for, and no constructor
    of the package builds) [NoteOn] sets the trigger flag, and the first
    [Next] clears it because no operator is active. *)
Lemma voice_without_operators_frees_itself :
  let triggered :=
    fm ← FMInstrument.NewFMInstrument 0 FM2OpSimple (float64_of_int 44100);
    @Voice.NoteOn anyMath (Voice.NewFMVoice fm) 60 f1.0 in
  (triggered ≫= Voice.IsActive) = Some true /\
  (v1 ← triggered; '(_, v2) ← @Voice.Next anyMath v1; Voice.IsActive v2) = Some false.
Proof. vm_compute. split; reflexivity. Qed.

(** C10: for every voice, subtractive or FM (an FM instrument having the
    operators of its algorithm, so at least one), [NoteOn] succeeds and, as
    long as no note-off follows, [IsActive] is true after any number of
    calls of [Next]; an envelope in stage Sustain stays there under [Next],
    whatever the sustain level. *)
Theorem triggered_voice_stays_active `{MathLib} (v : Voice.t) (note : Z) (velocity : float64) :
  ok v = true -> hasOperators v = true ->
  (exists v1, Voice.NoteOn v note velocity = Some v1 /\
     forall n : nat, exists vn, VoiceSpec.steps n v1 = Some vn /\ Voice.IsActive vn = Some true) /\
  (forall (e : Envelope.t) (k : nat),
     Envelope.stage e = Sustain -> Envelope.stage (Envelope.steps k e) = Sustain).
Proof.
  intros Hok Hops. split.
  - destruct (ok_NoteOn v note velocity Hok) as (v1 & E & _).
    exists v1. split; [exact E|]. intros n.
    destruct (steps_held n v1 (NoteOn_held _ _ _ _ E Hops)) as (vn & En & Hn).
    exists vn. split; [exact En | apply held_IsActive, Hn].
  - intros e k. apply steps_Sustain.
Qed.

(** A default square voice playing note 60. *)
Lemma triggered_voice_stays_active_witness :
  (exists v1, @Voice.NoteOn anyMath (Voice.NewVoice Square (float64_of_int 44100)) 60 f1.0 = Some v1 /\
     forall n : nat, exists vn, @VoiceSpec.steps anyMath n v1 = Some vn /\
                                Voice.IsActive vn = Some true) /\
  (forall (e : Envelope.t) (k : nat),
     Envelope.stage e = Sustain -> Envelope.stage (Envelope.steps k e) = Sustain).
Proof.
  apply (@triggered_voice_stays_active anyMath (Voice.NewVoice Square (float64_of_int 44100)) 60 f1.0).
  - reflexivity.
  - reflexivity.
Defined.

End VoiceClaims.

(** ** Voice allocator *)

Section AllocatorFacts.
Context `{MathLib}.
Import VoiceSpec VoiceAllocator VoiceAllocatorSpec.

#[local] Arguments Voice.Next : simpl never.
#[local] Arguments Voice.IsActive : simpl never.
#[local] Arguments Voice.NoteOn : simpl never.
#[local] Arguments Voice.NoteOff : simpl never.
#[local] Arguments activeVoices : simpl never.
#[local] Arguments advanced : simpl never.
#[local] Arguments output : simpl never.

Lemma activeVoices_cons_true v vs :
  Voice.IsActive v = Some true -> activeVoices (v :: vs) = v :: activeVoices vs.
Proof. intros E. unfold activeVoices. rewrite filter_cons_True; [reflexivity | exact E]. Qed.

Lemma activeVoices_cons_false v vs :
  Voice.IsActive v <> Some true -> activeVoices (v :: vs) = activeVoices vs.
Proof. intros E. unfold activeVoices. rewrite filter_cons_False; [reflexivity | exact E]. Qed.

(** The mixing loop computes the left-to-right sum over the active voices,
    counts them, and advances exactly those. *)
Lemma mixVoices_spec vs sample count :
  Forall (fun v => ok v = true) vs ->
  mixVoices vs sample count =
    Some (foldl fadd sample (output <$> activeVoices vs),
          count + len (activeVoices vs),
          advanced <$> vs).
Proof.
  intros Hok. revert sample count.
  induction Hok as [|v vs Hv Hvs IH]; intros sample count.
  - change (activeVoices []) with (@nil Voice.t). unfold len. cbn.
    replace (count + Z.of_nat 0) with count by lia. reflexivity.
  - cbn [mixVoices].
    destruct (ok_IsActive v Hv) as [[|] Ea]; rewrite Ea; cbn.
    + destruct (ok_Next v Hv) as (s & v' & En & _). rewrite En. cbn.
      rewrite IH. cbn.
      rewrite (activeVoices_cons_true v vs Ea). cbn.
      assert (Ho : output v = s) by (unfold output; rewrite En; reflexivity).
      assert (Hadv : advanced v = v') by (unfold advanced; rewrite Ea, En; reflexivity).
      rewrite Ho, Hadv.
      do 3 f_equal. unfold len. cbn [length]. lia.
    + rewrite IH. cbn.
      rewrite (activeVoices_cons_false v vs) by congruence.
      assert (Hadv : advanced v = v) by (unfold advanced; rewrite Ea; reflexivity).
      rewrite Hadv. reflexivity.
Qed.

Lemma Next_spec va :
  Forall (fun v => ok v = true) (voices va) ->
  Next va = Some (mixOf (output <$> activeVoices (voices va)),
                  set_voices va (advanced <$> voices va)).
Proof.
  intros Hok. unfold Next. rewrite (mixVoices_spec _ _ _ Hok).
  destruct (activeVoices (voices va)) as [|v l]; [reflexivity|].
  cbn [mbind option_bind fmap list_fmap].
  replace (0 <? 0 + len (v :: l)) with true
    by (symmetry; apply Z.ltb_lt; unfold len; cbn [length]; lia).
  unfold mixOf.
  replace (len (output v :: (output <$> l))) with (0 + len (v :: l)); [reflexivity|].
  unfold len. cbn [length]. rewrite length_fmap. lia.
Qed.

Lemma advanced_ok v : ok v = true -> ok (advanced v) = true /\ hasOperators (advanced v) = hasOperators v.
Proof.
  intros Hv. unfold advanced.
  destruct (ok_IsActive v Hv) as [[|] Ea]; rewrite Ea; [|tauto].
  destruct (ok_Next v Hv) as (s & v' & En & Hok' & Hop). rewrite En. tauto.
Qed.

Lemma advanced_held v : held v = true -> held (advanced v) = true.
Proof.
  intros Hv. unfold advanced. rewrite (held_IsActive v Hv).
  destruct (held_Next v Hv) as (s & v' & En & Hh). rewrite En. exact Hh.
Qed.


(** *** Construction *)

Lemma preset_fresh (preset : float64 -> option FMInstrument.t) rate :
  preset ∈ [FMInstrument.NewPianoFMInstrument; FMInstrument.NewElectricPianoFMInstrument;
            FMInstrument.NewFMBassFMInstrument; FMInstrument.NewFMLeadFMInstrument;
            FMInstrument.NewFMBrassFMInstrument; FMInstrument.NewFMBellFMInstrument;
            FMInstrument.NewFMArpFMInstrument] ->
  exists fm, preset rate = Some fm /\
             match FMInstrument.operators fm with [] => false | _ => true end = true /\
             FMInstrument.IsActive fm = false.
Proof.
  rewrite !elem_of_cons, elem_of_nil.
  intros [->|[->|[->|[->|[->|[->|[->|[]]]]]]]]; vm_compute; eexists; repeat split; reflexivity.
Qed.

(** Every pool slot starts with a sound, silent voice. *)
Lemma newVoice_fresh inst rate :
  exists v0, newVoice inst rate = Some v0 /\
             ok v0 = true /\ hasOperators v0 = true /\ Voice.IsActive v0 = Some false.
Proof.
  unfold newVoice. destruct (Tracker.IsFM inst).
  - match goal with |- context [mbind _ ?p] => assert (Hp : exists fm, p = Some fm /\
        match FMInstrument.operators fm with [] => false | _ => true end = true /\
        FMInstrument.IsActive fm = false) end.
    { repeat match goal with |- context [if ?b then _ else _] => destruct b end;
        apply preset_fresh; set_solver. }
    destruct Hp as (fm & -> & Hne & Hact). cbn.
    eexists. split; [reflexivity|].
    unfold ok, hasOperators, Voice.IsActive. cbn. rewrite Hne, Hact. auto.
  - cbn. eexists. split; [reflexivity|]. auto.
Qed.

Lemma mapM_replicate_const {A} (x : A) n :
  mapM (fun _ : unit => Some x) (replicate n ()) = Some (replicate n x).
Proof.
  induction n as [|n IH]; [reflexivity|].
  cbn. rewrite IH. reflexivity.
Qed.

Lemma NewVoiceAllocator_Some inst rate n va :
  NewVoiceAllocator inst rate n = Some va ->
  exists v0, ok v0 = true /\ hasOperators v0 = true /\ Voice.IsActive v0 = Some false /\
             va = {| voices := replicate (Z.to_nat n) v0; noteMap := ∅; instrument := inst;
                     sampleRate := rate; maxVoices := n; activeNotes := [] |} /\ 0 <= n.
Proof.
  unfold NewVoiceAllocator. destruct (Z.ltb_spec n 0) as [|Hn]; [discriminate|].
  destruct (newVoice_fresh inst rate) as (v0 & E & Hok & Hop & Hact).
  rewrite E, mapM_replicate_const. cbn. intros [= <-]. exists v0. auto.
Qed.

Lemma NewVoiceAllocator_total inst rate n :
  0 <= n -> is_Some (NewVoiceAllocator inst rate n).
Proof.
  intros Hn. unfold NewVoiceAllocator. destruct (Z.ltb_spec n 0) as [|_]; [lia|].
  destruct (newVoice_fresh inst rate) as (v0 & E & _).
  rewrite E, mapM_replicate_const. cbn. eauto.
Qed.

(** *** The branches of [NoteOn] *)

Lemma onVoice_Some va i f v v' :
  voices va !! i = Some v -> f v = Some v' ->
  onVoice va i f = Some (set_voices va (<[i := v']> (voices va))).
Proof. unfold onVoice. intros -> E. cbn. rewrite E. reflexivity. Qed.

Lemma NoteOn_retrigger va note vel i v v' :
  noteMap va !! note = Some i -> voices va !! i = Some v -> Voice.NoteOn v note vel = Some v' ->
  NoteOn va note vel = Some (set_voices va (<[i := v']> (voices va))).
Proof. unfold NoteOn. intros -> Hv E. apply (onVoice_Some va i _ v v' Hv E). Qed.

Lemma NoteOn_allocate va note vel i v v' :
  noteMap va !! note = None -> findInactive (voices va) 0 = Some (Some i) ->
  voices va !! i = Some v -> Voice.NoteOn v note vel = Some v' ->
  NoteOn va note vel =
    Some (set_notes (set_voices va (<[i := v']> (voices va)))
            (<[note := i]> (noteMap va)) (activeNotes va ++ [note])).
Proof.
  unfold NoteOn. intros -> -> Hv E. cbn.
  rewrite (onVoice_Some va i _ v v' Hv E). reflexivity.
Qed.

Lemma NoteOn_steal va note vel oldest rest i v v' :
  noteMap va !! note = None -> findInactive (voices va) 0 = Some None ->
  activeNotes va = oldest :: rest -> noteMap va !! oldest = Some i ->
  voices va !! i = Some v -> Voice.NoteOn v note vel = Some v' ->
  NoteOn va note vel =
    Some (set_notes (set_voices va (<[i := v']> (voices va)))
            (<[note := i]> (delete oldest (noteMap va))) (rest ++ [note])).
Proof.
  unfold NoteOn. intros -> -> -> -> Hv E. cbn.
  rewrite (onVoice_Some va i _ v v' Hv E). reflexivity.
Qed.

Lemma NoteOn_fallback va note vel v v' :
  noteMap va !! note = None -> findInactive (voices va) 0 = Some None ->
  activeNotes va = [] -> voices va !! 0%nat = Some v -> Voice.NoteOn v note vel = Some v' ->
  NoteOn va note vel =
    Some (set_notes (set_voices va (<[0%nat := v']> (voices va)))
            (<[note := 0%nat]> (noteMap va)) [note]).
Proof.
  unfold NoteOn. intros -> -> -> Hv E. cbn. rewrite Hv. cbn.
  rewrite (onVoice_Some va 0 _ v v' Hv E). reflexivity.
Qed.


(** *** The search for a free slot *)

Lemma findInactive_found l1 v l2 k :
  Forall (fun w => Voice.IsActive w = Some true) l1 -> Voice.IsActive v = Some false ->
  findInactive (l1 ++ v :: l2) k = Some (Some (k + length l1)%nat).
Proof.
  intros Hl1 Hv. revert k. induction Hl1 as [|w l1 Hw _ IH]; intros k; cbn.
  - rewrite Hv. cbn. do 2 f_equal. lia.
  - rewrite Hw. cbn. rewrite IH. do 2 f_equal. lia.
Qed.

Lemma findInactive_none l k :
  Forall (fun w => Voice.IsActive w = Some true) l -> findInactive l k = Some None.
Proof.
  intros Hl. revert k. induction Hl as [|w l Hw _ IH]; intros k; cbn; [reflexivity|].
  rewrite Hw. cbn. apply IH.
Qed.

(** On a sound pool the search never panics, and its answer is exact. *)
Lemma findInactive_spec vs :
  Forall (fun v => ok v = true) vs ->
  (exists i v, findInactive vs 0 = Some (Some i) /\ vs !! i = Some v /\
               Voice.IsActive v = Some false) \/
  (findInactive vs 0 = Some None /\ Forall (fun w => Voice.IsActive w = Some true) vs).
Proof.
  intros Hok.
  assert (Hgen : forall k,
    (exists i v, findInactive vs k = Some (Some (k + i)%nat) /\ vs !! i = Some v /\
                 Voice.IsActive v = Some false) \/
    (findInactive vs k = Some None /\ Forall (fun w => Voice.IsActive w = Some true) vs)).
  { induction Hok as [|v vs Hv _ IH]; intros k; [right; split; [reflexivity | constructor]|].
    cbn [findInactive]. destruct (ok_IsActive v Hv) as [[|] Ea]; rewrite Ea; cbn.
    - destruct (IH (S k)) as [(i & w & E & Hi & Hw)|[E Hall]].
      + left. exists (S i), w. rewrite E. repeat split; auto. do 2 f_equal. lia.
      + right. split; [exact E | constructor; assumption].
    - left. exists 0%nat, v. repeat split; auto. do 2 f_equal. lia. }
  destruct (Hgen 0%nat) as [(i & v & E & Hi)|Hn]; [left; exists i, v; auto | right; exact Hn].
Qed.

End AllocatorFacts.

Section AllocatorMix.
Import VoiceSpec VoiceAllocator VoiceAllocatorSpec.

(** C5: one call of the allocator's [Next] returns the sum of the outputs
    of exactly the voices whose [IsActive] is true, divided by their
    number, and advances those voices only; when no voice is active it
    returns exactly 0 and performs no division. *)
Theorem allocator_mix_is_mean_of_active `{MathLib} (va : VoiceAllocator.t) :
  Forall (fun v => ok v = true) (voices va) ->
  exists va',
    Next va = Some (mixOf (output <$> activeVoices (voices va)), va') /\
    voices va' = advanced <$> voices va /\
    (activeVoices (voices va) = [] -> fst <$> Next va = Some f0.0).
Proof.
  intros Hok. pose proof (Next_spec va Hok) as E.
  exists (set_voices va (advanced <$> voices va)).
  split; [exact E|]. split; [reflexivity|].
  intros Hnone. rewrite E, Hnone. reflexivity.
Qed.

(** A pool of four default voices, one of them sounding. *)
Lemma allocator_mix_is_mean_of_active_witness :
  exists va',
    @Next anyMath oneNote44k =
      Some (mixOf (@output anyMath <$> activeVoices (voices oneNote44k)), va') /\
    voices va' = @advanced anyMath <$> voices oneNote44k /\
    (activeVoices (voices oneNote44k) = [] -> fst <$> @Next anyMath oneNote44k = Some f0.0).
Proof.
  apply (@allocator_mix_is_mean_of_active anyMath oneNote44k).
  vm_compute. repeat constructor.
Defined.

End AllocatorMix.

Section AllocatorSteal.
Import VoiceSpec VoiceAllocator VoiceAllocatorSpec.




End AllocatorSteal.

(** *** The allocator invariant *)

Section AllocatorInvariant.
Context `{MathLib}.
Import VoiceSpec VoiceAllocator VoiceAllocatorSpec.

#[local] Arguments Voice.Next : simpl never.
#[local] Arguments Voice.IsActive : simpl never.
#[local] Arguments Voice.NoteOn : simpl never.
#[local] Arguments Voice.NoteOff : simpl never.

Lemma removeNote_elem x l n : NoDup l -> n ∈ removeNote x l <-> n ∈ l /\ n <> x.
Proof.
  induction l as [|a l IH]; intros Hnd; cbn.
  - rewrite elem_of_nil. tauto.
  - apply NoDup_cons in Hnd as [Ha Hnd].
    destruct (Z.eqb_spec a x) as [->|Hne].
    + rewrite elem_of_cons. split.
      * intros Hin. split; [tauto | intros ->; contradiction].
      * intros [[->|Hin] Hx]; [contradiction | exact Hin].
    + rewrite !elem_of_cons, (IH Hnd). split.
      * intros [->|[Hin Hx]]; auto.
      * intros [[->|Hin] Hx]; auto.
Qed.

Lemma removeNote_NoDup x l : NoDup l -> NoDup (removeNote x l).
Proof.
  induction l as [|a l IH]; intros Hnd; cbn; [constructor|].
  pose proof Hnd as Hnd'. apply NoDup_cons in Hnd as [Ha Hl].
  destruct (Z.eqb_spec a x); [exact Hl|].
  apply NoDup_cons. split; [|auto].
  rewrite (removeNote_elem x l a Hl). tauto.
Qed.

(** Dropping a mapped note from the map and the list keeps the invariant
    and frees its slot. *)
Lemma unbind_inv va note i :
  inv va -> noteMap va !! note = Some i ->
  inv (set_notes va (delete note (noteMap va)) (removeNote note (activeNotes va))) /\
  freeSlot (set_notes va (delete note (noteMap va)) (removeNote note (activeNotes va))) i.
Proof.
  intros ((Hnd & Hdom & Hrng & Hok) & Hinj & Hheld & Hops & Hsz) Hm.
  split; [split; [|split; [|split; [|split]]]|].
  - split; [|split; [|split]]; cbn.
    + apply removeNote_NoDup, Hnd.
    + intros n. rewrite (removeNote_elem note _ n Hnd), lookup_delete_is_Some, Hdom.
      split; intros [? ?]; split; auto.
    + intros n j [_ Hn]%lookup_delete_Some. eapply Hrng, Hn.
    + exact Hok.
  - unfold injective. cbn.
    intros n1 n2 j [_ H1]%lookup_delete_Some [_ H2]%lookup_delete_Some. eapply Hinj; eauto.
  - unfold mappedHeld. cbn.
    intros n j v [_ Hn]%lookup_delete_Some Hv. eapply Hheld; eauto.
  - exact Hops.
  - exact Hsz.
  - unfold freeSlot. cbn.
    intros n [Hne Hn]%lookup_delete_Some. apply Hne. eapply Hinj; eauto.
Qed.

(** Replacing the voice of a slot by a sound one keeps the invariant when
    the new voice holds a note or the slot is free. *)
Lemma replace_inv va i v' :
  inv va -> ok v' = true -> hasOperators v' = true ->
  held v' = true \/ freeSlot va i ->
  inv (set_voices va (<[i := v']> (voices va))).
Proof.
  intros ((Hnd & Hdom & Hrng & Hok) & Hinj & Hheld & Hops & Hsz) Hv Hop Hcase.
  split; [|split; [|split; [|split]]].
  - split; [|split; [|split]]; cbn; auto.
    + intros n j Hn. apply lookup_lt_is_Some. rewrite length_insert.
      apply lookup_lt_is_Some. eapply Hrng, Hn.
    + apply Forall_insert; assumption.
  - exact Hinj.
  - unfold mappedHeld. cbn.
    intros n j v Hn [(-> & -> & _)|[Hne Hj]]%list_lookup_insert_Some.
    + destruct Hcase as [Hh|Hfree]; [exact Hh | destruct (Hfree n Hn)].
    + eapply Hheld; eauto.
  - unfold withOperators. cbn. apply Forall_insert; assumption.
  - unfold poolSized, len in *. cbn. rewrite length_insert. exact Hsz.
Qed.

(** Binding an unmapped note to a free slot whose voice holds it, at the
    tail of the list, keeps the invariant. *)
Lemma bindNote_inv va note i v :
  inv va -> noteMap va !! note = None -> freeSlot va i ->
  voices va !! i = Some v -> held v = true ->
  inv (set_notes va (<[note := i]> (noteMap va)) (activeNotes va ++ [note])).
Proof.
  intros ((Hnd & Hdom & Hrng & Hok) & Hinj & Hheld & Hops & Hsz) Hm Hfree Hi Hv.
  assert (Hnotin : note ∉ activeNotes va).
  { rewrite Hdom, Hm. intros [? [=]]. }
  split; [|split; [|split; [|split]]].
  - split; [|split; [|split]]; cbn.
    + apply NoDup_app. split; [exact Hnd|]. split; [|apply NoDup_singleton].
      intros x Hx ->%list_elem_of_singleton. contradiction.
    + intros n. rewrite elem_of_app, list_elem_of_singleton, lookup_insert_is_Some, Hdom.
      destruct (decide (note = n)) as [->|Hne]; [tauto|].
      split; [intros [?|?]; [tauto | congruence] | intros [?|[_ ?]]; [congruence | tauto]].
    + intros n j [[-> <-]|[_ Hn]]%lookup_insert_Some; [rewrite Hi; eauto | eapply Hrng, Hn].
    + exact Hok.
  - unfold injective. cbn.
    intros n1 n2 j [[-> <-]|[Hne1 H1]]%lookup_insert_Some
                   [[E2 Ej]|[Hne2 H2]]%lookup_insert_Some; subst;
      first [congruence | exfalso; eapply Hfree; eassumption | eapply Hinj; eassumption].
  - unfold mappedHeld. cbn.
    intros n j w [[-> <-]|[_ Hn]]%lookup_insert_Some; cbn; intros Hw.
    + congruence.
    + eapply Hheld; eauto.
  - exact Hops.
  - exact Hsz.
Qed.


Lemma inv_lookup va n i :
  inv va -> noteMap va !! n = Some i ->
  exists v, voices va !! i = Some v /\ ok v = true /\ hasOperators v = true.
Proof.
  intros ((_ & _ & Hrng & Hok) & _ & _ & Hops & _) Hn.
  destruct (Hrng n i Hn) as [v Hv]. exists v. split; [exact Hv|].
  split; [eapply (proj1 (Forall_lookup _ _) Hok) | eapply (proj1 (Forall_lookup _ _) Hops)]; eauto.
Qed.

Lemma inv_nonempty va : inv va -> 0 < maxVoices va -> voices va <> [].
Proof.
  intros (_ & _ & _ & _ & Hsz) Hpos Hnil. unfold poolSized, len in Hsz.
  rewrite Hnil in Hsz. cbn in Hsz. lia.
Qed.

(** [NoteOn] keeps the invariant, and panics on an empty pool only. *)
Lemma NoteOn_inv va note vel :
  inv va ->
  (0 < maxVoices va -> is_Some (NoteOn va note vel)) /\
  (forall va', NoteOn va note vel = Some va' -> inv va' /\ maxVoices va' = maxVoices va).
Proof.
  intros Hinv.
  assert (Hcut : forall X, NoteOn va note vel = Some X -> inv X -> maxVoices X = maxVoices va ->
    (0 < maxVoices va -> is_Some (NoteOn va note vel)) /\
    (forall va', NoteOn va note vel = Some va' -> inv va' /\ maxVoices va' = maxVoices va)).
  { intros X E HX HmX. rewrite E. split; [eauto|]. intros va' [= <-]. auto. }
  destruct (noteMap va !! note) as [i|] eqn:Hm.
  - (* the note is already playing *)
    destruct (inv_lookup va note i Hinv Hm) as (v & Hv & Hok & Hop).
    destruct (ok_NoteOn v note vel Hok) as (v' & E & Hok' & _ & Hop').
    eapply Hcut; [exact (NoteOn_retrigger va note vel i v v' Hm Hv E) | | reflexivity].
    apply replace_inv; auto; [congruence|].
    left. eapply NoteOn_held; eauto.
  - pose proof Hinv as ((Hnd & Hdom & Hrng & Hoks) & Hinj & Hheld & Hops & Hsz).
    destruct (findInactive_spec (voices va) Hoks) as [(i & v & Ef & Hv & Hoff)|[Ef Hall]].
    + (* an inactive voice *)
      assert (Hfree : freeSlot va i).
      { intros n Hn. pose proof (held_IsActive v (Hheld n i v Hn Hv)). congruence. }
      assert (Hok : ok v = true) by (eapply (proj1 (Forall_lookup _ _) Hoks); eauto).
      assert (Hop : hasOperators v = true) by (eapply (proj1 (Forall_lookup _ _) Hops); eauto).
      destruct (ok_NoteOn v note vel Hok) as (v' & E & Hok' & _ & Hop').
      assert (Hh : held v' = true) by (eapply NoteOn_held; eauto).
      eapply Hcut; [exact (NoteOn_allocate va note vel i v v' Hm Ef Hv E) | | reflexivity].
      apply (bindNote_inv (set_voices va (<[i := v']> (voices va))) note i v'); auto.
      * apply replace_inv; auto. congruence.
      * cbn. apply list_lookup_insert_eq. eapply lookup_lt_Some, Hv.
    + destruct (activeNotes va) as [|oldest rest] eqn:Hn.
      * (* nothing to steal: fall back to slot 0 *)
        assert (Hfree : freeSlot va 0).
        { intros n Hn0. assert (Hin : n ∈ @nil Z) by (apply Hdom; eauto).
          eapply not_elem_of_nil, Hin. }
        destruct (voices va !! 0%nat) as [v|] eqn:Hv.
        2: { split.
             - intros Hpos. apply lookup_ge_None in Hv.
               unfold poolSized, len in Hsz. lia.
             - intros va'. unfold NoteOn. rewrite Hm, Ef. cbn. rewrite Hn, Hv. discriminate. }
        assert (Hok : ok v = true) by (eapply (proj1 (Forall_lookup _ _) Hoks); eauto).
        assert (Hop : hasOperators v = true) by (eapply (proj1 (Forall_lookup _ _) Hops); eauto).
        destruct (ok_NoteOn v note vel Hok) as (v' & E & Hok' & _ & Hop').
        assert (Hh : held v' = true) by (eapply NoteOn_held; eauto).
        eapply Hcut; [exact (NoteOn_fallback va note vel v v' Hm Ef Hn Hv E) | | reflexivity].
        pose proof (bindNote_inv (set_voices va (<[0%nat := v']> (voices va))) note 0%nat v')
          as HX.
        cbn in HX. rewrite Hn in HX. apply HX; auto.
        -- apply replace_inv; auto. congruence.
        -- apply list_lookup_insert_eq. eapply lookup_lt_Some, Hv.
      * (* steal the oldest note *)
        assert (Hold : is_Some (noteMap va !! oldest)).
        { apply Hdom. apply list_elem_of_here. }
        destruct Hold as [i Hi].
        destruct (inv_lookup va oldest i Hinv Hi) as (v & Hv & Hok & Hop).
        destruct (ok_NoteOn v note vel Hok) as (v' & E & Hok' & _ & Hop').
        assert (Hh : held v' = true) by (eapply NoteOn_held; eauto).
        eapply Hcut; [exact (NoteOn_steal va note vel oldest rest i v v' Hm Ef Hn Hi Hv E)
                     | | reflexivity].
        destruct (unbind_inv va oldest i Hinv Hi) as [Hinv0 Hfree0].
        rewrite Hn in Hinv0, Hfree0. cbn [removeNote] in Hinv0, Hfree0.
        rewrite Z.eqb_refl in Hinv0, Hfree0.
        set (va0 := set_notes va (delete oldest (noteMap va)) rest) in *.
        apply (bindNote_inv (set_voices va0 (<[i := v']> (voices va0))) note i v'); auto.
        -- apply replace_inv; auto. congruence.
        -- cbn. apply lookup_delete_None. auto.
        -- cbn. apply list_lookup_insert_eq. eapply lookup_lt_Some, Hv.
Qed.

Lemma NoteOff_inv va note :
  inv va -> exists va', NoteOff va note = Some va' /\ inv va' /\ maxVoices va' = maxVoices va.
Proof.
  intros Hinv. unfold NoteOff.
  destruct (noteMap va !! note) as [i|] eqn:Hm; [|eauto].
  destruct (inv_lookup va note i Hinv Hm) as (v & Hv & Hok & Hop).
  destruct (ok_NoteOff v Hok) as (v' & E & Hok' & Hop').
  rewrite (onVoice_Some va i _ v v' Hv E). cbn.
  eexists. split; [reflexivity|]. split; [|reflexivity].
  destruct (unbind_inv va note i Hinv Hm) as [Hinv0 Hfree0].
  apply (replace_inv _ i v' Hinv0); auto. congruence.
Qed.

Lemma mapM_NoteOff vs :
  Forall (fun v => ok v = true) vs -> Forall (fun v => hasOperators v = true) vs ->
  exists vs', mapM Voice.NoteOff vs = Some vs' /\ length vs' = length vs /\
              Forall (fun v => ok v = true) vs' /\ Forall (fun v => hasOperators v = true) vs'.
Proof.
  induction vs as [|v vs IH]; intros Hok Hop.
  - exists []. repeat split; constructor.
  - apply Forall_cons in Hok as [Hv Hok]. apply Forall_cons in Hop as [Hvo Hop].
    destruct (IH Hok Hop) as (vs' & E & Hlen & Hok' & Hop').
    destruct (ok_NoteOff v Hv) as (v' & Ev & Hv' & Hvo').
    exists (v' :: vs'). cbn. rewrite Ev. cbn. rewrite E. cbn.
    repeat split; [congruence | constructor; auto | constructor; auto; congruence].
Qed.

Lemma AllNotesOff_inv va :
  inv va -> exists va', AllNotesOff va = Some va' /\ inv va' /\ maxVoices va' = maxVoices va.
Proof.
  intros ((Hnd & Hdom & Hrng & Hoks) & Hinj & Hheld & Hops & Hsz). unfold AllNotesOff.
  destruct (mapM_NoteOff (voices va) Hoks Hops) as (vs' & E & Hlen & Hok' & Hop').
  rewrite E. cbn. eexists. split; [reflexivity|]. split; [|reflexivity].
  split; [|split; [|split; [|split]]].
  - split; [|split; [|split]]; cbn; auto.
    + constructor.
    + intros n. rewrite elem_of_nil, lookup_empty. split; [tauto | intros [? [=]]].
    + intros n i. rewrite lookup_empty. discriminate.
  - intros n1 n2 i. cbn. rewrite lookup_empty. discriminate.
  - intros n i v. cbn. rewrite lookup_empty. discriminate.
  - exact Hop'.
  - unfold poolSized, len in *. cbn. congruence.
Qed.

Lemma Next_inv va :
  inv va -> exists s va', Next va = Some (s, va') /\ inv va' /\ maxVoices va' = maxVoices va.
Proof.
  intros ((Hnd & Hdom & Hrng & Hoks) & Hinj & Hheld & Hops & Hsz).
  rewrite (Next_spec va Hoks). do 2 eexists. split; [reflexivity|]. split; [|reflexivity].
  split; [|split; [|split; [|split]]].
  - split; [|split; [|split]]; cbn; auto.
    + intros n i Hn. rewrite list_lookup_fmap. destruct (Hrng n i Hn) as [v ->]. cbn. eauto.
    + apply Forall_fmap. eapply Forall_impl; [exact Hoks|]. intros v Hv. apply advanced_ok, Hv.
  - exact Hinj.
  - unfold mappedHeld. cbn. intros n i v Hn. rewrite list_lookup_fmap.
    destruct (voices va !! i) as [w|] eqn:Hw; [|discriminate].
    cbn. intros [= <-]. apply advanced_held. eapply Hheld; eauto.
  - unfold withOperators in *. cbn. apply Forall_fmap.
    apply Forall_forall. intros v Hv.
    pose proof (proj1 (Forall_forall _ _) Hoks v Hv) as Hokv.
    pose proof (proj1 (Forall_forall _ _) Hops v Hv) as Hopv.
    cbn. rewrite (proj2 (advanced_ok v Hokv)). exact Hopv.
  - unfold poolSized, len in *. cbn. rewrite length_fmap. exact Hsz.
Qed.

Lemma apply_inv va op :
  inv va ->
  (0 < maxVoices va -> is_Some (apply va op)) /\
  (forall va', apply va op = Some va' -> inv va' /\ maxVoices va' = maxVoices va).
Proof.
  intros Hinv. destruct op as [note vel|note| |]; cbn [apply].
  - apply NoteOn_inv, Hinv.
  - destruct (NoteOff_inv va note Hinv) as (va1 & -> & H1).
    split; [eauto | intros va' [= <-]; exact H1].
  - destruct (AllNotesOff_inv va Hinv) as (va1 & -> & H1).
    split; [eauto | intros va' [= <-]; exact H1].
  - destruct (Next_inv va Hinv) as (s & va1 & -> & H1). cbn.
    split; [eauto | intros va' [= <-]; exact H1].
Qed.

Lemma run_inv ops va :
  inv va ->
  (0 < maxVoices va -> is_Some (run ops va)) /\
  (forall va', run ops va = Some va' -> inv va' /\ maxVoices va' = maxVoices va).
Proof.
  revert va. induction ops as [|op ops IH]; intros va Hinv; cbn [run].
  - split; [eauto | intros va' [= <-]; auto].
  - destruct (apply_inv va op Hinv) as [Htot Hpres].
    destruct (apply va op) as [va1|] eqn:E; cbn.
    + destruct (Hpres va1 eq_refl) as [Hinv1 Hmax]. rewrite <- Hmax.
      apply IH, Hinv1.
    + split; [intros Hpos; destruct (Htot Hpos) as [? [=]] | discriminate].
Qed.

Lemma inv_fresh inst rate n va :
  NewVoiceAllocator inst rate n = Some va -> inv va /\ maxVoices va = n.
Proof.
  intros Hnew.
  destruct (NewVoiceAllocator_Some _ _ _ _ Hnew) as (v0 & Hok & Hop & _ & -> & Hn).
  split; [|reflexivity].
  split; [|split; [|split; [|split]]].
  - split; [|split; [|split]]; cbn.
    + constructor.
    + intros k. rewrite elem_of_nil, lookup_empty. split; [tauto | intros [? [=]]].
    + intros k i. rewrite lookup_empty. discriminate.
    + apply Forall_replicate, Hok.
  - intros n1 n2 i. cbn. rewrite lookup_empty. discriminate.
  - intros k i v. cbn. rewrite lookup_empty. discriminate.
  - unfold withOperators. cbn. apply Forall_replicate, Hop.
  - unfold poolSized, len. cbn. rewrite length_replicate. lia.
Qed.

(** Distinct notes occupy distinct slots, so the list fits in the pool. *)
Lemma inv_bound va : inv va -> len (activeNotes va) <= maxVoices va.
Proof.
  intros ((Hnd & Hdom & Hrng & _) & Hinj & _ & _ & Hsz).
  unfold poolSized in Hsz. rewrite <- Hsz. unfold len.
  set (slot := fun n : Z => default 0%nat (noteMap va !! n)).
  assert (Hsub : (slot <$> activeNotes va) ⊆+ seq 0 (length (voices va))).
  { apply NoDup_submseteq.
    - apply NoDup_fmap_2_strong; [|exact Hnd].
      intros x y [i Hx]%Hdom [j Hy]%Hdom. unfold slot. rewrite Hx, Hy. cbn.
      intros ->. eapply Hinj; eauto.
    - intros i [n [-> Hn]]%list_elem_of_fmap.
      apply Hdom in Hn as [j Hj]. unfold slot. rewrite Hj. cbn.
      apply elem_of_seq. split; [lia|]. cbn. apply lookup_lt_is_Some. eapply Hrng, Hj. }
  apply submseteq_length in Hsub. rewrite length_fmap, length_seq in Hsub. lia.
Qed.

End AllocatorInvariant.

Section AllocatorInvariantClaim.
Import VoiceSpec VoiceAllocator VoiceAllocatorSpec.

(** C9: after any finite sequence of [NoteOn], [NoteOff] and [AllNotesOff]
    calls on an allocator built by [NewVoiceAllocator] (per-sample [Next]
    calls may be interleaved as well), the active-note list has no
    duplicate, its elements are exactly the keys of the note map, the map
    is injective, the list is no longer than the pool, and every mapped
    voice reports active.  With a pool of at least one voice no call of the
    sequence panics. *)
Theorem allocator_invariant `{MathLib} (inst : Tracker.Instrument) (rate : float64) (size : Z)
  (va0 : VoiceAllocator.t) (ops : list Op) :
  NewVoiceAllocator inst rate size = Some va0 ->
  (0 < size -> is_Some (run ops va0)) /\
  (forall va : VoiceAllocator.t, run ops va0 = Some va ->
     NoDup (activeNotes va) /\
     (forall n : Z, n ∈ activeNotes va <-> is_Some (noteMap va !! n)) /\
     injective va /\
     GetActiveVoiceCount va <= GetMaxVoices va /\
     GetMaxVoices va = size /\
     mappedActive va).
Proof.
  intros Hnew. destruct (inv_fresh _ _ _ _ Hnew) as [Hinv0 Hmax0].
  destruct (run_inv ops va0 Hinv0) as [Htot Hpres].
  split; [rewrite <- Hmax0; exact Htot|].
  intros va Hrun. destruct (Hpres va Hrun) as [Hinv Hmax].
  pose proof (inv_bound va Hinv) as Hb.
  destruct Hinv as ((Hnd & Hdom & _) & Hinj & Hheld & _).
  repeat split; try assumption; try (apply Hdom).
  - unfold GetMaxVoices. congruence.
  - intros n i v Hn Hv. apply held_IsActive. eapply Hheld; eauto.
Qed.

(** A short session on a fresh pool of four default voices. *)
Lemma allocator_invariant_witness :
  let ops := [OpNoteOn 60 f1.0; OpNoteOn 64 f1.0; OpNext; OpNoteOff 60; OpNoteOn 67 f1.0;
              OpAllNotesOff; OpNoteOn 60 f1.0] in
  (0 < 4 -> is_Some (@run anyMath ops fresh44k)) /\
  (forall va : VoiceAllocator.t, @run anyMath ops fresh44k = Some va ->
     NoDup (activeNotes va) /\
     (forall n : Z, n ∈ activeNotes va <-> is_Some (noteMap va !! n)) /\
     injective va /\
     GetActiveVoiceCount va <= GetMaxVoices va /\
     GetMaxVoices va = 4 /\
     mappedActive va).
Proof.
  apply (@allocator_invariant anyMath Player.defaultInst (float64_of_int 44100) 4 fresh44k).
  vm_compute. reflexivity.
Defined.

End AllocatorInvariantClaim.

(** ** Notes *)

Section NoteFacts.

(** In binary64, with [math.Pow] returning 1 for a zero exponent (as Go
    documents: Pow(x, ±0) = 1 for any x), note 57 is exactly 440.0. *)
Lemma NoteToFrequency_A4 `{MathLib} :
  (forall x, math_Pow x (S754_zero false) = float64_of_int 1) ->
  NoteToFrequency 57 = float64_of_int 440.
Proof.
  intros Hpow. unfold NoteToFrequency.
  change (fdiv (float64_of_int (wrap (57 - 57))) (float64_of_int 12)) with (S754_zero false).
  rewrite Hpow. vm_compute. reflexivity.
Qed.

(** One octave above, the exponent is exactly 1.0: with [math.Pow]
    returning its base for the exponent 1 (as Go documents: Pow(x, 1) = x
    for any x), note 69 is exactly 880.0.  For the other notes the result
    is what [math.Pow] makes of an exponent that the division by 12 has
    rounded. *)
Lemma NoteToFrequency_A5 `{MathLib} :
  (forall x, math_Pow x (float64_of_int 1) = x) ->
  NoteToFrequency 69 = float64_of_int 880.
Proof.
  intros Hpow. unfold NoteToFrequency.
  change (fdiv (float64_of_int (wrap (69 - 57))) (float64_of_int 12)) with (float64_of_int 1).
  rewrite Hpow. vm_compute. reflexivity.
Qed.

End NoteFacts.

(** ** Player *)

Section PlayerFacts.
Context `{MathLib}.
Import VoiceAllocatorSpec Player PlayerSpec.

#[local] Arguments VoiceAllocator.NoteOn : simpl never.
#[local] Arguments VoiceAllocator.AllNotesOff : simpl never.
#[local] Arguments VoiceAllocator.Next : simpl never.

Lemma index_Some {A} (l : list A) (i : Z) (x : A) :
  index l i = Some x <-> 0 <= i /\ l !! Z.to_nat i = Some x.
Proof.
  unfold index. destruct (Z.ltb_spec i 0); split.
  - discriminate.
  - intros [? _]. lia.
  - auto.
  - tauto.
Qed.

Lemma index_in_range {A} (l : list A) (i : Z) :
  0 <= i < len l -> is_Some (index l i).
Proof.
  intros [H0 Hlt]. unfold index. destruct (Z.ltb_spec i 0); [lia|].
  apply lookup_lt_is_Some. unfold len in Hlt. lia.
Qed.

Lemma index_lt {A} (l : list A) (i : Z) (x : A) : index l i = Some x -> 0 <= i < len l.
Proof.
  intros [H0 Hl]%index_Some. apply lookup_lt_Some in Hl. unfold len. lia.
Qed.

(** *** No panic on a sound player *)

Lemma NoteOn_good va note vel :
  good va -> exists va', VoiceAllocator.NoteOn va note vel = Some va' /\ good va'.
Proof.
  intros [Hinv Hpos]. destruct (NoteOn_inv va note vel Hinv) as [Htot Hpres].
  destruct (Htot Hpos) as [va' E]. destruct (Hpres va' E) as [Hinv' Hmax].
  exists va'. split; [exact E|]. split; [exact Hinv' | lia].
Qed.

Lemma chordOn_good va chord vel :
  good va -> exists va', chordOn va chord vel = Some va' /\ good va'.
Proof.
  revert va. induction chord as [|c chord IH]; intros va Hva; cbn [chordOn]; [eauto|].
  destruct (0 <=? c).
  - destruct (NoteOn_good va c vel Hva) as (va1 & -> & H1). cbn. apply IH, H1.
  - cbn. apply IH, Hva.
Qed.

Lemma processNote_good va note :
  good va -> exists va', processNote va note = Some va' /\ good va'.
Proof.
  intros Hva. unfold processNote.
  destruct (0 <=? Tracker.Note note).
  - match goal with |- context [VoiceAllocator.NoteOn va ?n ?v] =>
      destruct (NoteOn_good va n v Hva) as (va1 & -> & H1) end.
    cbn. apply chordOn_good, H1.
  - destruct (Tracker.Note note =? -2); [|eauto].
    destruct Hva as [Hinv Hpos].
    destruct (AllNotesOff_inv va Hinv) as (va1 & -> & Hinv1 & Hmax).
    exists va1. split; [reflexivity|]. split; [exact Hinv1 | lia].
Qed.

Lemma processChannels_good channels vas row :
  Forall good vas -> 0 <= row ->
  exists vas', processChannels channels vas row = Some vas' /\ Forall good vas'.
Proof.
  intros Hvas Hrow. revert channels.
  induction Hvas as [|va vas Hva Htl IH]; intros cs.
  - destruct cs; cbn; eauto.
  - destruct cs as [|c cs]; [cbn; eauto using Forall_cons_2|]. cbn [processChannels].
    assert (Hstep : exists va',
      (if row <? len c then note ← index c row; processNote va note else Some va)
      = Some va' /\ good va').
    { destruct (Z.ltb_spec row (len c)); [|eauto].
      destruct (index_in_range c row) as [note ->]; [lia|]. cbn.
      apply processNote_good, Hva. }
    destruct Hstep as (va' & -> & Hva'). cbn.
    destruct (IH cs) as (vas' & -> & Hvas'). cbn. eauto.
Qed.

Lemma mixChannels_good vas sample :
  Forall good vas ->
  exists s vas', mixChannels vas sample = Some (s, vas') /\ Forall good vas'.
Proof.
  intros Hvas. revert sample. induction Hvas as [|va vas [Hinv Hpos] _ IH]; intros sample; cbn.
  - eauto.
  - destruct (Next_inv va Hinv) as (s & va' & -> & Hinv' & Hmax). cbn.
    destruct (IH (fadd sample s)) as (s' & vas' & -> & Hvas'). cbn.
    do 2 eexists. split; [reflexivity|]. constructor; [|exact Hvas'].
    split; [exact Hinv' | lia].
Qed.

Lemma processRow_sound p :
  sound p ->
  exists vas, processRow p = Some (set_allocators p vas) /\ Forall good vas.
Proof.
  intros (Hvas & [Hlen Hseq] & Hpos & Hrow & Hcnt & Hspr). unfold processRow.
  destruct (Z.leb_spec (len (Tracker.Sequence (module p))) (currentPos p)) as [|Hlt].
  { exists (VoiceAllocators p). split; [destruct p; reflexivity | exact Hvas]. }
  destruct (index_in_range (Tracker.Sequence (module p)) (currentPos p)) as [idx Hidx]; [lia|].
  rewrite Hidx. cbn.
  assert (Hin : idx ∈ Tracker.Sequence (module p)).
  { apply index_Some in Hidx as [_ Hidx]. eapply list_elem_of_lookup_2, Hidx. }
  destruct (proj1 (Forall_forall _ _) Hseq idx Hin) as (pat & Hpat & _).
  pose proof (index_lt _ _ _ Hpat) as Hr.
  destruct (Z.leb_spec (len (Tracker.Patterns (module p))) idx); [lia|].
  rewrite Hpat. cbn.
  destruct (processChannels_good (Tracker.Channels pat) (VoiceAllocators p) (currentRow p) Hvas)
    as (vas & -> & Hgood); [lia|].
  cbn. eauto.
Qed.


Lemma advance_sound m spr pos row counter :
  wellSequenced m ->
  0 <= pos <= len (Tracker.Sequence m) ->
  (pos < len (Tracker.Sequence m) -> 0 <= row < int_max) ->
  0 <= counter < int_max -> spr <= int_max ->
  exists pos' row' counter' d,
    advance m spr pos row counter = Some (pos', row', counter', d) /\
    0 <= pos' <= len (Tracker.Sequence m) /\
    (pos' < len (Tracker.Sequence m) -> 0 <= row' < int_max) /\
    0 <= counter' < int_max.
Proof.
  intros [Hlen Hseq] Hpos Hrow Hcnt Hspr. unfold advance.
  assert (Hmax : int_max = 2 ^ 63 - 1) by reflexivity.
  assert (Hmin : int_min = - 2 ^ 63) by reflexivity.
  rewrite (wrap_small (counter + 1)) by lia.
  destruct (Z.leb_spec spr (counter + 1)); [|do 4 eexists; split; [reflexivity|]; lia].
  destruct (Z.ltb_spec pos (len (Tracker.Sequence m))) as [Hlt|Hge].
  2: { do 4 eexists. split; [reflexivity|]. lia. }
  destruct (index_in_range (Tracker.Sequence m) pos) as [idx Hidx]; [lia|].
  rewrite Hidx. cbn.
  assert (Hin : idx ∈ Tracker.Sequence m).
  { apply index_Some in Hidx as [_ Hidx]. eapply list_elem_of_lookup_2, Hidx. }
  destruct (proj1 (Forall_forall _ _) Hseq idx Hin) as (pat & Hpat & Hrows).
  pose proof (index_lt _ _ _ Hpat) as Hr.
  destruct (Z.ltb_spec idx (len (Tracker.Patterns m))); [|lia].
  rewrite Hpat. cbn.
  rewrite (wrap_small (row + 1)) by lia.
  destruct (Z.leb_spec (Tracker.Rows pat) (row + 1)).
  - rewrite (wrap_small (pos + 1)) by lia.
    do 4 eexists. split; [reflexivity|]. lia.
  - do 4 eexists. split; [reflexivity|]. lia.
Qed.

(** One call of [Next] on a sound player: it returns, the player stays
    sound, and the cursor moves as [advance] says. *)
Lemma Next_sound p :
  sound p ->
  exists s p',
    Next p = Some (s, p') /\ sound p' /\
    module p' = module p /\ samplesPerRow p' = samplesPerRow p /\
    (isDone p = true -> p' = p) /\
    (isDone p = false ->
       advance (module p) (samplesPerRow p) (currentPos p) (currentRow p) (sampleCounter p)
       = Some (currentPos p', currentRow p', sampleCounter p', isDone p')).
Proof.
  intros Hs. unfold Next. destruct (isDone p) eqn:Hd.
  { exists f0.0, p. split; [reflexivity|]. split; [exact Hs|].
    repeat split; auto. discriminate. }
  assert (Hrow : exists vas1,
    (if sampleCounter p =? 0 then processRow p else Some p) = Some (set_allocators p vas1) /\
    Forall good vas1).
  { destruct (sampleCounter p =? 0); [apply processRow_sound, Hs|].
    exists (VoiceAllocators p). split; [destruct p; reflexivity | apply Hs]. }
  destruct Hrow as (vas1 & -> & Hgood1). cbn.
  destruct (mixChannels_good vas1 f0.0 Hgood1) as (s & vas & -> & Hgood). cbn.
  destruct Hs as (_ & Hws & Hpos & Hrow & Hcnt & Hspr).
  destruct (advance_sound _ _ _ _ _ Hws Hpos Hrow Hcnt Hspr)
    as (pos' & row' & counter' & d & -> & Hpos' & Hrow' & Hcnt').
  cbn. do 2 eexists. split; [reflexivity|].
  split.
  { split; [exact Hgood|]. split; [exact Hws|]. split; [exact Hpos'|].
    split; [exact Hrow'|]. split; [exact Hcnt' | exact Hspr]. }
  cbn. repeat split; auto. discriminate.
Qed.

Lemma after_S n p :
  after (S n) p = '(_, p1) ← Next p; after n p1.
Proof.
  unfold after. cbn [render].
  destruct (Next p) as [[s p1]|]; [|reflexivity]. cbn.
  destruct (render n p1) as [[ss p2]|]; reflexivity.
Qed.

Lemma after_sound n p :
  sound p ->
  exists pn, after n p = Some pn /\ sound pn /\
             module pn = module p /\ samplesPerRow pn = samplesPerRow p.
Proof.
  revert p. induction n as [|n IH]; intros p Hs; [exists p; auto|].
  rewrite after_S.
  destruct (Next_sound p Hs) as (s & p1 & -> & Hs1 & Hm1 & Hspr1 & _). cbn.
  destruct (IH p1 Hs1) as (pn & -> & Hsn & Hmn & Hsprn).
  exists pn. split; [reflexivity|]. split; [exact Hsn|].
  split; [rewrite Hmn; exact Hm1 | rewrite Hsprn; exact Hspr1].
Qed.

Lemma render_after n p pn :
  after n p = Some pn -> exists ss, render n p = Some (ss, pn).
Proof.
  unfold after. destruct (render n p) as [[ss q]|]; [|discriminate].
  cbn. intros [= <-]. eauto.
Qed.

(** *** Construction *)

Lemma mapM_Forall {A B} (f : A -> option B) (P : B -> Prop) l :
  (forall x, exists y, f x = Some y /\ P y) ->
  exists ys, mapM f l = Some ys /\ Forall P ys.
Proof.
  intros Hf. induction l as [|x l (ys & E & Hys)]; cbn; [eauto|].
  destruct (Hf x) as (y & -> & Hy). cbn. rewrite E. cbn. eauto.
Qed.

Lemma NewPlayer_sound m rate :
  wellSequenced m ->
  exists p, NewPlayer m rate = Some p /\ sound p /\ module p = m /\
            currentPos p = 0 /\ currentRow p = 0 /\ sampleCounter p = 0 /\ isDone p = false /\
            samplesPerRow p = samplesPerRowOf (Tracker.Tempo m) rate.
Proof.
  intros Hws. unfold NewPlayer.
  match goal with |- context [mapM ?f ?l] =>
    destruct (mapM_Forall f good l) as (vas & -> & Hgood) end.
  { intros i.
    match goal with |- context [VoiceAllocator.NewVoiceAllocator ?a ?b ?c] =>
      destruct (NewVoiceAllocator_total a b c) as [va E]; [lia|];
      destruct (inv_fresh _ _ _ _ E) as [Hinv Hmax]; exists va end.
    split; [exact E|]. split; [exact Hinv | lia]. }
  cbn. eexists. split; [reflexivity|].
  split.
  { split; [exact Hgood|]. split; [exact Hws|]. cbn.
    assert (Hmax : int_max = 2 ^ 63 - 1) by reflexivity.
    split; [unfold len; lia|]. split; [lia|]. split; [lia|].
    apply int_of_float64_range. }
  cbn. repeat split; reflexivity.
Qed.

End PlayerFacts.

(** *** Row timing *)

Section FourRows.
Context `{MathLib}.
Import Player PlayerSpec.

Variable m : Tracker.TrackerModule.
Variable pat : Tracker.Pattern.
Hypothesis Hseq : Tracker.Sequence m = [0].
Hypothesis Hpat : Tracker.Patterns m !! 0%nat = Some pat.
Hypothesis Hrows : Tracker.Rows pat = 4.

Lemma fourRows_wellSequenced : wellSequenced m.
Proof.
  split; rewrite Hseq; [unfold len, int_max; cbn; lia|].
  constructor; [|constructor]. exists pat. split.
  - unfold index. cbn. exact Hpat.
  - rewrite Hrows. unfold int_max. lia.
Qed.

Lemma fourRows_advance row counter :
  0 <= row < 4 -> 0 <= counter < 5512 ->
  advance m 5512 0 row counter =
    Some (if counter + 1 <? 5512 then (0, row, counter + 1, false)
          else if row + 1 <? 4 then (0, row + 1, 0, false)
          else (1, 0, 0, true)).
Proof.
  intros Hr Hc. unfold advance.
  rewrite (wrap_small (counter + 1)) by (unfold int_min, int_max; lia).
  destruct (Z.leb_spec 5512 (counter + 1)); destruct (Z.ltb_spec (counter + 1) 5512); try lia;
    [|reflexivity].
  rewrite Hseq.
  change (0 <? len [0]) with true. change (index [0] 0) with (Some 0).
  cbn [mbind option_bind].
  assert (Hlen : (0 <? len (Tracker.Patterns m)) = true).
  { apply Z.ltb_lt. apply lookup_lt_Some in Hpat. unfold len. lia. }
  rewrite Hlen.
  assert (Hidx : index (Tracker.Patterns m) 0 = Some pat) by exact Hpat.
  rewrite Hidx. cbn [mbind option_bind]. rewrite Hrows.
  rewrite (wrap_small (row + 1)) by (unfold int_min, int_max; lia).
  destruct (Z.leb_spec 4 (row + 1)); destruct (Z.ltb_spec (row + 1) 4); try lia; reflexivity.
Qed.

Lemma fourRows_step p :
  playing m p ->
  exists p1, after 1 p = Some p1 /\
    (elapsed p + 1 < 4 * 5512 -> playing m p1 /\ elapsed p1 = elapsed p + 1) /\
    (elapsed p + 1 = 4 * 5512 -> isDone p1 = true).
Proof.
  intros (Hs & Hm & Hspr & Hd & Hpos & Hrow & Hcnt).
  destruct (Next_sound p Hs) as (s & p1 & E & Hs1 & Hm1 & Hspr1 & _ & Hadv).
  specialize (Hadv Hd). rewrite Hm, Hspr, Hpos, (fourRows_advance _ _ Hrow Hcnt) in Hadv.
  exists p1. split; [rewrite after_S, E; reflexivity|].
  unfold playing, elapsed.
  destruct (Z.ltb_spec (sampleCounter p + 1) 5512);
    [|destruct (Z.ltb_spec (currentRow p + 1) 4)];
    injection Hadv as <- <- <- <-.
  - split; [|intros; exfalso; lia]. intros _.
    split; [|lia]. split; [exact Hs1|]. split; [congruence|]. split; [congruence|].
    split; [reflexivity|]. split; [reflexivity|]. lia.
  - split; [|intros; exfalso; lia]. intros _.
    split; [|lia]. split; [exact Hs1|]. split; [congruence|]. split; [congruence|].
    split; [reflexivity|]. split; [reflexivity|]. lia.
  - split; [intros; exfalso; lia | reflexivity].
Qed.

Lemma after_add n k p : after (n + k) p = after n p ≫= after k.
Proof.
  revert p. induction n as [|n IH]; intros p; [reflexivity|].
  change (S n + k)%nat with (S (n + k)). rewrite !after_S.
  destruct (Next p) as [[s p1]|]; [cbn; apply IH | reflexivity].
Qed.

Lemma fourRows_progress (k : nat) p :
  playing m p -> elapsed p + Z.of_nat k < 4 * 5512 ->
  exists pk, after k p = Some pk /\ playing m pk /\ elapsed pk = elapsed p + Z.of_nat k.
Proof.
  revert p. induction k as [|k IH]; intros p Hp Hk.
  - exists p. split; [reflexivity|]. split; [exact Hp | lia].
  - destruct (fourRows_step p Hp) as (p1 & E1 & Hgo & _).
    destruct Hgo as [Hp1 He1]; [lia|].
    destruct (IH p1 Hp1) as (pk & Ek & Hpk & Hek); [lia|].
    exists pk. split; [|split; [exact Hpk | lia]].
    change (S k) with (1 + k)%nat. rewrite after_add, E1. exact Ek.
Qed.

Lemma fourRows_done p :
  playing m p -> elapsed p = 0 ->
  (forall k : nat, Z.of_nat k < 4 * 5512 ->
     exists pk, after k p = Some pk /\ IsDone pk = false) /\
  (exists pN, after (Z.to_nat (4 * 5512)) p = Some pN /\ IsDone pN = true).
Proof.
  intros Hp He. split.
  - intros k Hk. destruct (fourRows_progress k p Hp) as (pk & E & Hpk & _); [lia|].
    exists pk. split; [exact E | apply Hpk].
  - destruct (fourRows_progress (Z.to_nat (4 * 5512 - 1)) p Hp) as (pk & E & Hpk & Hek); [lia|].
    destruct (fourRows_step pk Hpk) as (pN & EN & _ & Hdone).
    exists pN. split; [|apply Hdone; lia].
    replace (Z.to_nat (4 * 5512)) with (Z.to_nat (4 * 5512 - 1) + 1)%nat by lia.
    rewrite after_add, E. exact EN.
Qed.

End FourRows.

Section PlayerTiming.
Import Player PlayerSpec.

(** C1: a player built at 44100 Hz on a module with tempo 120, sequence
    [0] and a pattern 0 of 4 rows (whatever its channels hold) has 5512
    samples per row; it is not done after any number of calls of [Next]
    below 4 * 5512, and it is done after exactly 4 * 5512 calls. *)
Theorem four_rows_at_120bpm `{MathLib} (m : Tracker.TrackerModule) (pat : Tracker.Pattern) :
  Tracker.Tempo m = 120 ->
  Tracker.Sequence m = [0] ->
  Tracker.Patterns m !! 0%nat = Some pat ->
  Tracker.Rows pat = 4 ->
  exists p0,
    NewPlayer m (float64_of_int 44100) = Some p0 /\
    samplesPerRow p0 = 5512 /\
    (forall k : nat, Z.of_nat k < 4 * 5512 ->
       exists pk, after k p0 = Some pk /\ IsDone pk = false) /\
    (exists pN, after (Z.to_nat (4 * 5512)) p0 = Some pN /\ IsDone pN = true).
Proof.
  intros Htempo Hseq Hpat Hrows.
  pose proof (fourRows_wellSequenced m pat Hseq Hpat Hrows) as Hws.
  destruct (NewPlayer_sound m (float64_of_int 44100) Hws)
    as (p0 & E & Hs & Hm & Hpos & Hrow & Hcnt & Hd & Hspr).
  rewrite Htempo in Hspr.
  change (samplesPerRowOf 120 (float64_of_int 44100)) with 5512 in Hspr.
  exists p0. split; [exact E|]. split; [exact Hspr|].
  apply (fourRows_done m pat Hseq Hpat Hrows).
  - split; [exact Hs|]. split; [exact Hm|]. split; [exact Hspr|]. split; [exact Hd|].
    split; [exact Hpos|]. lia.
  - unfold elapsed. rewrite Hrow, Hcnt. reflexivity.
Qed.

(** The module [fourRows]. *)
Lemma four_rows_at_120bpm_witness :
  exists p0,
    NewPlayer fourRows (float64_of_int 44100) = Some p0 /\
    samplesPerRow p0 = 5512 /\
    (forall k : nat, Z.of_nat k < 4 * 5512 ->
       exists pk, @after anyMath k p0 = Some pk /\ IsDone pk = false) /\
    (exists pN, @after anyMath (Z.to_nat (4 * 5512)) p0 = Some pN /\ IsDone pN = true).
Proof.
  apply (@four_rows_at_120bpm anyMath fourRows
           {| Tracker.Rows := 4;
              Tracker.Channels := [[event 60; event (-1); event (-2); event (-1)]] |});
    reflexivity.
Defined.

End PlayerTiming.

(** *** Rest rows *)

Section RestRows.
Context `{MathLib}.
Import Player PlayerSpec.

#[local] Arguments VoiceAllocator.NoteOn : simpl never.
#[local] Arguments VoiceAllocator.AllNotesOff : simpl never.
#[local] Arguments VoiceAllocator.Next : simpl never.
#[local] Arguments Envelope.Next : simpl never.
#[local] Arguments Oscillator.Next : simpl never.
#[local] Arguments FMInstrument.Next : simpl never.

Lemma processNote_rest va note :
  Tracker.Note note = -1 -> processNote va note = Some va.
Proof. unfold processNote. intros ->. reflexivity. Qed.

(** The channel loop leaves alone every channel whose event is a rest. *)
Lemma processChannels_frame cs vas row vas' (ch : nat) :
  processChannels cs vas row = Some vas' ->
  (forall c note, cs !! ch = Some c -> row < len c -> index c row = Some note ->
                  Tracker.Note note = -1) ->
  vas' !! ch = vas !! ch.
Proof.
  revert vas vas' ch. induction cs as [|c cs IH]; intros vas vas' ch Hrun Hrest.
  - destruct vas; cbn in Hrun; congruence.
  - destruct vas as [|va vas]; cbn [processChannels] in Hrun; [congruence|].
    destruct (if row <? len c then _ else _) as [va'|] eqn:Eva; [|discriminate].
    cbn in Hrun.
    destruct (processChannels cs vas row) as [rest|] eqn:Erest; [|discriminate].
    cbn in Hrun. injection Hrun as <-.
    destruct ch as [|ch]; cbn.
    + f_equal. destruct (Z.ltb_spec row (len c)); [|congruence].
      destruct (index c row) as [note|] eqn:En; [|discriminate]. cbn in Eva.
      rewrite (processNote_rest va note) in Eva; [congruence|].
      apply (Hrest c note); auto.
    + apply (IH vas rest ch Erest). intros c' note Hc'. apply Hrest. exact Hc'.
Qed.

Lemma processRow_frame p p' (ch : nat) :
  processRow p = Some p' ->
  (forall note, currentNote p ch = Some note -> Tracker.Note note = -1) ->
  VoiceAllocators p' !! ch = VoiceAllocators p !! ch.
Proof.
  unfold processRow, currentNote. intros Hrun Hrest.
  destruct (len (Tracker.Sequence (module p)) <=? currentPos p); [congruence|].
  destruct (index (Tracker.Sequence (module p)) (currentPos p)) as [idx|]; [|discriminate].
  cbn in Hrun, Hrest.
  destruct (len (Tracker.Patterns (module p)) <=? idx); [congruence|].
  destruct (index (Tracker.Patterns (module p)) idx) as [pat|]; [|discriminate].
  cbn in Hrun, Hrest.
  destruct (processChannels _ _ _) as [vas|] eqn:E; [|discriminate].
  cbn in Hrun. injection Hrun as <-. cbn.
  apply (processChannels_frame _ _ _ _ ch E).
  intros c note Hc Hlt Hn. apply Hrest. rewrite Hc. cbn.
  destruct (Z.ltb_spec (currentRow p) (len c)); [exact Hn | lia].
Qed.

Lemma mixChannels_lookup vas sample s vas' (ch : nat) va :
  mixChannels vas sample = Some (s, vas') -> vas !! ch = Some va ->
  exists x va', VoiceAllocator.Next va = Some (x, va') /\ vas' !! ch = Some va'.
Proof.
  revert sample s vas' ch. induction vas as [|a vas IH]; intros sample s vas' ch Hmix Hch.
  - discriminate.
  - cbn [mixChannels] in Hmix.
    destruct (VoiceAllocator.Next a) as [[x a']|] eqn:Ea; [|discriminate]. cbn in Hmix.
    destruct (mixChannels vas (fadd sample x)) as [[s' rest]|] eqn:Er; [|discriminate].
    cbn in Hmix. injection Hmix as <- <-.
    destruct ch as [|ch]; cbn in *.
    + injection Hch as <-. eauto.
    + eapply IH; eauto.
Qed.

Lemma Envelope_Next_Sustain e :
  Envelope.stage e = Sustain -> Envelope.stage (snd (Envelope.Next e)) = Sustain.
Proof. unfold Envelope.Next. intros Hs. rewrite Hs. cbn. exact Hs. Qed.

Lemma FMOperator_Next_Sustain op x :
  Envelope.stage (FMOperator.envelope op) = Sustain ->
  Envelope.stage (FMOperator.envelope (snd (FMOperator.Next op x))) = Sustain.
Proof.
  intros Hs. unfold FMOperator.Next.
  pose proof (Envelope_Next_Sustain _ Hs) as Hn.
  destruct (Envelope.Next (FMOperator.envelope op)) as [env e1]. exact Hn.
Qed.

Lemma Voice_Next_inSustain v y v' :
  Voice.Next v = Some (y, v') -> inSustain v = true -> inSustain v' = true.
Proof.
  destruct v as [o e fm u vol a sr]. unfold Voice.Next, inSustain. cbn.
  destruct u, fm as [fm|]; cbn.
  1: { destruct (negb a && negb (FMInstrument.IsActive fm)); [intros [= <- <-]; auto|].
       pose proof (FMInstrument_Next_operators fm) as Hops.
       destruct (FMInstrument.Next fm) as [s fm1]. cbn in Hops.
       intros [= <- <-]. cbn. rewrite Hops, !forallb_forall, <- !List.Forall_forall.
       intros Hall.
       apply (route_Forall
                (fun op => bool_decide (Envelope.stage (FMOperator.envelope op) = Sustain) = true));
         [|exact Hall].
       intros op x Hop. apply bool_decide_eq_true. apply bool_decide_eq_true in Hop.
       apply FMOperator_Next_Sustain, Hop. }
  all: destruct e as [e|]; [|intros _ [=]];
    destruct a; cbn;
    try (destruct (negb (Envelope.IsActive e)); cbn; [intros [= <- <-]; auto|]);
    (destruct o as [o|]; [|discriminate]); cbn;
    pose proof (Envelope_Next_Sustain e) as Hn;
    destruct (Oscillator.Next o) as [osc o1], (Envelope.Next e) as [env e1];
    intros [= <- <-]; cbn; intros Hs%bool_decide_eq_true;
    apply bool_decide_eq_true, Hn, Hs.
Qed.


Lemma mixVoices_inSustain vs sample count s c vs' :
  VoiceAllocator.mixVoices vs sample count = Some (s, c, vs') ->
  Forall2 (fun v v' => inSustain v = true -> inSustain v' = true) vs vs'.
Proof.
  revert sample count s c vs'.
  induction vs as [|v vs IH]; intros sample count s c vs' Hmix; cbn in Hmix.
  - injection Hmix as <- <- <-. constructor.
  - destruct (Voice.IsActive v) as [[|]|]; cbn in Hmix; [| |discriminate].
    + destruct (Voice.Next v) as [[y v1]|] eqn:Ev; [|discriminate]. cbn in Hmix.
      destruct (VoiceAllocator.mixVoices vs _ _) as [[[s1 c1] vs1]|] eqn:Er; [|discriminate].
      cbn in Hmix. injection Hmix as <- <- <-.
      constructor; [apply (Voice_Next_inSustain v y v1 Ev) | eapply IH, Er].
    + destruct (VoiceAllocator.mixVoices vs _ _) as [[[s1 c1] vs1]|] eqn:Er; [|discriminate].
      cbn in Hmix. injection Hmix as <- <- <-.
      constructor; [auto | eapply IH, Er].
Qed.

Lemma quiet_refl va : quiet va va.
Proof.
  split; [reflexivity|]. split; [reflexivity|].
  apply Forall2_same_length_lookup_2; [reflexivity|]. intros i v v' Hv Hv'. congruence.
Qed.

Lemma quiet_trans va1 va2 va3 : quiet va1 va2 -> quiet va2 va3 -> quiet va1 va3.
Proof.
  intros (Hm1 & Hn1 & Hv1) (Hm2 & Hn2 & Hv2).
  split; [congruence|]. split; [congruence|].
  eapply Forall2_trans; [|exact Hv1|exact Hv2]. cbn. auto.
Qed.

Lemma VoiceAllocator_Next_quiet va x va' :
  VoiceAllocator.Next va = Some (x, va') -> quiet va va'.
Proof.
  unfold VoiceAllocator.Next.
  destruct (VoiceAllocator.mixVoices _ _ _) as [[[s c] vs]|] eqn:E; [|discriminate].
  cbn. intros [= _ <-]. split; [reflexivity|]. split; [reflexivity|].
  cbn. eapply mixVoices_inSustain, E.
Qed.

(** One call of the player's [Next] at which channel [ch] sees at most a
    rest does nothing to its allocator but advance it by one sample. *)
Lemma Next_quiet p s p' (ch : nat) va :
  Next p = Some (s, p') -> restStep p ch -> VoiceAllocators p !! ch = Some va ->
  exists va', VoiceAllocators p' !! ch = Some va' /\ quiet va va'.
Proof.
  unfold Next, restStep. intros Hnext Hrest Hva.
  destruct (isDone p) eqn:Hd.
  { injection Hnext as <- <-. exists va. split; [exact Hva | apply quiet_refl]. }
  destruct (if sampleCounter p =? 0 then processRow p else Some p) as [p1|] eqn:E1;
    [|discriminate].
  assert (Hch : VoiceAllocators p1 !! ch = Some va).
  { destruct (Z.eqb_spec (sampleCounter p) 0) as [Hc|_].
    - rewrite (processRow_frame p p1 ch E1 (Hrest eq_refl Hc)). exact Hva.
    - injection E1 as <-. exact Hva. }
  cbn in Hnext.
  destruct (mixChannels (VoiceAllocators p1) f0.0) as [[x vas]|] eqn:Emix; [|discriminate].
  cbn in Hnext.
  destruct (advance _ _ _ _ _) as [[[[pos row] counter] d]|]; [|discriminate].
  cbn in Hnext. injection Hnext as <- <-. cbn.
  destruct (mixChannels_lookup _ _ _ _ ch va Emix Hch) as (y & va' & Ey & Hva').
  exists va'. split; [exact Hva' | eapply VoiceAllocator_Next_quiet, Ey].
Qed.

Lemma after_quiet n p pn (ch : nat) va :
  after n p = Some pn ->
  (forall (k : nat) pk, (k < n)%nat -> after k p = Some pk -> restStep pk ch) ->
  VoiceAllocators p !! ch = Some va ->
  exists van, VoiceAllocators pn !! ch = Some van /\ quiet va van.
Proof.
  revert p va. induction n as [|n IH]; intros p va Hrun Hrest Hva.
  - injection Hrun as <-. exists va. split; [exact Hva | apply quiet_refl].
  - rewrite after_S in Hrun.
    destruct (Next p) as [[s p1]|] eqn:E1; [|discriminate]. cbn in Hrun.
    destruct (Next_quiet p s p1 ch va E1) as (va1 & Hva1 & Hq1); [|exact Hva|].
    { apply (Hrest 0%nat p); [lia | reflexivity]. }
    destruct (IH p1 va1 Hrun) as (van & Hvan & Hqn); [|exact Hva1|].
    { intros k pk Hk Hpk. apply (Hrest (S k) pk); [lia|].
      rewrite after_S, E1. exact Hpk. }
    exists van. split; [exact Hvan | eapply quiet_trans; eauto].
Qed.

End RestRows.

Section RestRowsClaim.
Import Player PlayerSpec.

(** C6: when the row under the cursor holds a rest (note -1) for channel
    [ch], [processRow] leaves the allocator of that channel exactly as it
    was (so neither [NoteOff] nor [AllNotesOff] has touched it); and across
    any number of calls of [Next] at which the channel only meets rests,
    its note map and active-note list do not change and every voice whose
    engine is in Sustain is still in Sustain. *)
Theorem rest_row_leaves_channel_ringing `{MathLib} (p p1 pn : Player.t) (ch : nat)
  (note : Tracker.TrackerNote) (n : nat) (va : VoiceAllocator.t) :
  processRow p = Some p1 ->
  currentNote p ch = Some note ->
  Tracker.Note note = -1 ->
  VoiceAllocators p !! ch = Some va ->
  after n p = Some pn ->
  (forall (k : nat) pk, (k < n)%nat -> after k p = Some pk -> restStep pk ch) ->
  VoiceAllocators p1 !! ch = Some va /\
  exists van,
    VoiceAllocators pn !! ch = Some van /\
    VoiceAllocator.noteMap van = VoiceAllocator.noteMap va /\
    VoiceAllocator.activeNotes van = VoiceAllocator.activeNotes va /\
    forall (i : nat) v,
      VoiceAllocator.voices va !! i = Some v -> inSustain v = true ->
      exists vn, VoiceAllocator.voices van !! i = Some vn /\ inSustain vn = true.
Proof.
  intros Hrow Hcur Hnote Hva Hrun Hrest. split.
  - rewrite (processRow_frame p p1 ch Hrow); [exact Hva|].
    intros note' Hcur'. congruence.
  - destruct (after_quiet n p pn ch va Hrun Hrest Hva) as (van & Hvan & Hm & Hn & Hvs).
    exists van. repeat split; auto.
    intros i v Hv Hs.
    destruct (Forall2_lookup_l _ _ _ i v Hvs Hv) as (vn & Hvn & Himp).
    exists vn. auto.
Qed.

(** The player [holding], whose channel 0 sustains note 60 and meets a
    rest on row 2. *)
Lemma rest_row_leaves_channel_ringing_witness :
  let va := default VoiceAllocatorSpec.noVoices (VoiceAllocators holding !! 0%nat) in
  VoiceAllocators (default holding (@processRow anyMath holding)) !! 0%nat = Some va /\
  exists van,
    VoiceAllocators (default holding (@after anyMath 1 holding)) !! 0%nat = Some van /\
    VoiceAllocator.noteMap van = VoiceAllocator.noteMap va /\
    VoiceAllocator.activeNotes van = VoiceAllocator.activeNotes va /\
    forall (i : nat) v,
      VoiceAllocator.voices va !! i = Some v -> inSustain v = true ->
      exists vn, VoiceAllocator.voices van !! i = Some vn /\ inSustain vn = true.
Proof.
  apply (@rest_row_leaves_channel_ringing anyMath holding
           (default holding (@processRow anyMath holding))
           (default holding (@after anyMath 1 holding))
           0%nat (event (-1)) 1%nat).
  - vm_compute. reflexivity.
  - vm_compute. reflexivity.
  - reflexivity.
  - vm_compute. reflexivity.
  - vm_compute. reflexivity.
  - intros k pk Hk Hpk. destruct k as [|k]; [|lia]. injection Hpk as <-.
    intros _ _ note Hn. vm_compute in Hn. injection Hn as <-. reflexivity.
Defined.

End RestRowsClaim.

(** * Further properties *)

(** ** Envelope: the shape of a held note *)

Section HeldNoteFacts.
Import Envelope EnvelopeSpec.

Lemma rampLevel_params st e e' c :
  ramping st = true -> params e' = params e -> rampLevel st e' c = rampLevel st e c.
Proof.
  intros Hst Hp. unfold rampLevel. rewrite (stageSamples_params st e e' Hp).
  unfold params in Hp. injection Hp as _ _ Hs _ _.
  destruct st; try discriminate; rewrite ?Hs; reflexivity.
Qed.

Lemma steps_in_Sustain m e :
  stage e = Sustain -> level e = sustainLevel e ->
  stage (steps m e) = Sustain /\ level (steps m e) = sustainLevel e.
Proof.
  revert e. induction m as [|m IH]; intros e Hs Hl; [auto|].
  cbn [steps].
  assert (Hn : snd (Next e) = set_level e (sustainLevel e)) by (unfold Next; rewrite Hs; reflexivity).
  rewrite Hn. destruct (IH (set_level e (sustainLevel e)) Hs eq_refl) as [H1 H2].
  split; [exact H1 | exact H2].
Qed.

(** After [Trigger], whatever the envelope was doing, the levels that
    [Next] returns follow [HeldNote.level]: (n-1)/attackSamples during the
    attack, 1.0 on call attackSamples+1, the linear decay towards the
    sustain level, and the sustain level from call
    attackSamples+decaySamples+2 on, for ever. *)
Theorem held_note_shape (e : Envelope.t) (n : nat) :
  (1 <= n)%nat ->
  level (steps n (Trigger e)) = HeldNote.level e (Z.of_nat n) /\
  stage (steps n (Trigger e)) = HeldNote.stage e (Z.of_nat n).
Proof.
  intros Hn. unfold HeldNote.level, HeldNote.stage. cbv zeta.
  set (t0 := Trigger e).
  assert (Hp0 : params t0 = params e) by reflexivity.
  destruct (ramp_done Attack t0 eq_refl eq_refl eq_refl) as (Hs1 & Hl1 & Hp1 & Hc1).
  change (stageSamples Attack t0) with (attackSamples e) in *.
  set (a := attackSamples e) in *.
  set (e1 := steps (Z.to_nat a + 1) t0) in *.
  specialize (Hc1 eq_refl).
  assert (Hd : stageSamples Decay e1 = decaySamples e)
    by exact (stageSamples_params Decay t0 e1 Hp1).
  destruct (ramp_done Decay e1 eq_refl Hs1 Hc1) as (Hs2 & Hl2 & Hp2 & _).
  rewrite Hd in *. set (d := decaySamples e) in *.
  set (e2 := steps (Z.to_nat d + 1) e1) in *.
  destruct (Z.leb_spec (Z.of_nat n) (Z.max 0 a)) as [Ha|Ha].
  { (* inside the attack ramp *)
    rewrite (ramp_steps Attack t0 n eq_refl eq_refl eq_refl) by first [lia | change (stageSamples Attack t0) with a; lia].
    split; reflexivity. }
  destruct (Z.eqb_spec (Z.of_nat n) (Z.max 0 a + 1)) as [Hpeak|Hpeak].
  { (* the peak *)
    replace n with (Z.to_nat a + 1)%nat by lia. fold e1.
    split; [exact Hl1|]. rewrite Hs1.
    match goal with |- context [?x <=? ?y] => destruct (Z.leb_spec x y); [reflexivity | lia] end. }
  destruct (Z.leb_spec (Z.of_nat n) (Z.max 0 a + 1 + Z.max 0 d)) as [Hdec|Hdec].
  { (* inside the decay ramp *)
    replace n with ((Z.to_nat a + 1) + (n - (Z.to_nat a + 1)))%nat by lia.
    rewrite steps_add. fold e1.
    rewrite (ramp_steps Decay e1 _ eq_refl Hs1 Hc1) by (rewrite ?Hd; lia).
    cbn [level stage set_stage set_level]. split; [|reflexivity].
    rewrite (rampLevel_params Decay e e1) by (auto; congruence).
    f_equal. lia. }
  (* sustain *)
  set (m := (n - (Z.to_nat a + 1) - (Z.to_nat d + 1))%nat).
  replace (steps n t0) with (steps m e2)
    by (unfold e2, e1; rewrite <- !steps_add; f_equal; lia).
  assert (Hsl : sustainLevel e2 = sustainLevel e).
  { assert (Hp : params e2 = params e) by congruence.
    unfold params in Hp. congruence. }
  assert (Hl2' : level e2 = sustainLevel e2).
  { rewrite Hl2. cbn. assert (Hp : params e2 = params e1) by exact Hp2.
    unfold params in Hp. congruence. }
  destruct (steps_in_Sustain m e2 Hs2 Hl2') as [H1 H2].
  rewrite H1, H2. split; [exact Hsl | reflexivity].
Qed.

(** The default envelope, three samples into the attack. *)
Lemma held_note_shape_witness :
  level (steps 3 (Trigger default44k)) = HeldNote.level default44k 3 /\
  stage (steps 3 (Trigger default44k)) = HeldNote.stage default44k 3.
Proof. apply (held_note_shape default44k 3). lia. Defined.

End HeldNoteFacts.

(** ** Voice: the tail of a released note *)

Section VoiceTailFacts.
Context `{MathLib}.
Import EnvelopeSpec VoiceSpec VoiceTail.

#[local] Arguments Envelope.Next : simpl never.
#[local] Arguments Oscillator.Next : simpl never.
#[local] Arguments Envelope.IsActive : simpl never.

Lemma subtractive_inv v :
  subtractive v = true ->
  exists o e, Voice.oscillator v = Some o /\ Voice.envelope v = Some e /\
    (Voice.useFM v = false \/ Voice.fmInstrument v = None).
Proof.
  unfold subtractive. intros Hs.
  destruct (Voice.useFM v), (Voice.fmInstrument v), (Voice.oscillator v) as [o|],
    (Voice.envelope v) as [e|]; try discriminate; exists o, e; auto.
Qed.

Lemma subtractive_IsActive v e :
  subtractive v = true -> Voice.envelope v = Some e ->
  Voice.IsActive v = Some (Voice.active v || Envelope.IsActive e).
Proof.
  intros Hs He. destruct (subtractive_inv v Hs) as (o & e' & Ho & He' & Hfm).
  unfold Voice.IsActive. rewrite He.
  destruct Hfm as [-> | ->]; destruct (Voice.useFM v), (Voice.active v); reflexivity.
Qed.

(** One call on a voice that is not idle advances the envelope by one
    sample and clears the flag when the envelope has come to Off. *)
Lemma subtractive_Next v e :
  subtractive v = true -> Voice.envelope v = Some e ->
  Voice.active v || Envelope.IsActive e = true ->
  exists s v', Voice.Next v = Some (s, v') /\ subtractive v' = true /\
    Voice.envelope v' = Some (snd (Envelope.Next e)) /\
    Voice.active v' = Envelope.IsActive (snd (Envelope.Next e)) && Voice.active v.
Proof.
  intros Hs He Hact. destruct (subtractive_inv v Hs) as (o & e' & Ho & He' & Hfm).
  assert (e' = e) by congruence. subst e'.
  unfold Voice.Next. rewrite Ho, He.
  destruct (Oscillator.Next o) as [osc o1] eqn:Hon.
  destruct (Envelope.Next e) as [env e1] eqn:Hen.
  assert (Hidle : (if Voice.active v then Some false
                   else e0 ← Some e; Some (negb (Envelope.IsActive e0))) = Some false).
  { destruct (Voice.active v); [reflexivity|]. cbn in *. rewrite Hact. reflexivity. }
  destruct Hfm as [Hfm | Hfm]; rewrite Hfm.
  - rewrite Hidle. cbn. rewrite Hon, Hen. eexists _, _. split; [reflexivity|].
    unfold subtractive. cbn. rewrite ?Hfm. repeat split.
    destruct (Envelope.IsActive e1); reflexivity.
  - destruct (Voice.useFM v) eqn:Hu; rewrite Hidle; cbn; rewrite Hon, Hen;
      (eexists _, _; split; [reflexivity|]);
      unfold subtractive; cbn; rewrite ?Hfm, ?Hu; repeat split;
      destruct (Envelope.IsActive e1); reflexivity.
Qed.

(** An idle voice returns 0 and stays as it is. *)
Lemma subtractive_idle v e :
  subtractive v = true -> Voice.envelope v = Some e ->
  Voice.active v = false -> Envelope.IsActive e = false ->
  Voice.Next v = Some (f0.0, v).
Proof.
  intros Hs He Ha Hi. destruct (subtractive_inv v Hs) as (o & e' & Ho & He' & Hfm).
  unfold Voice.Next. rewrite He, Ha. cbn. rewrite Hi. cbn.
  destruct Hfm as [-> | ->]; destruct (Voice.useFM v); reflexivity.
Qed.

Lemma idle_steps n v e :
  subtractive v = true -> Voice.envelope v = Some e ->
  Voice.active v = false -> Envelope.IsActive e = false ->
  steps n v = Some v.
Proof.
  intros Hs He Ha Hi. induction n as [|n IH]; [reflexivity|].
  cbn [steps]. rewrite (subtractive_idle v e Hs He Ha Hi). cbn. exact IH.
Qed.

Lemma voice_steps_add n m v :
  steps (n + m) v = steps n v ≫= steps m.
Proof.
  revert v. induction n as [|n IH]; intros v; [reflexivity|].
  cbn [steps Nat.add]. destruct (Voice.Next v) as [[s v']|]; [|reflexivity].
  cbn. apply IH.
Qed.

(** While the envelope is in a stage other than Off before each call, the
    voice advances it sample by sample. *)
Lemma running_steps n : forall v e,
  subtractive v = true -> Voice.envelope v = Some e ->
  (forall k, (k < n)%nat -> Envelope.IsActive (Envelope.steps k e) = true) ->
  exists vn, steps n v = Some vn /\ subtractive vn = true /\
    Voice.envelope vn = Some (Envelope.steps n e) /\
    ((1 <= n)%nat ->
     Voice.active vn = Envelope.IsActive (Envelope.steps n e) && Voice.active v).
Proof.
  induction n as [|n IH]; intros v e Hs He Hrun.
  { exists v. repeat split; try assumption. lia. }
  assert (Hact : Voice.active v || Envelope.IsActive e = true).
  { pose proof (Hrun 0%nat ltac:(lia)) as H0. cbn [Envelope.steps] in H0.
    rewrite H0. apply orb_true_r. }
  destruct (subtractive_Next v e Hs He Hact) as (s & v' & HN & Hs' & He' & Ha').
  destruct (IH v' _ Hs' He') as (vn & Hst & Hsn & Hen & Han).
  { intros k Hk. apply (Hrun (S k)). lia. }
  exists vn. cbn [steps]. rewrite HN. cbn. split; [exact Hst|].
  split; [exact Hsn|]. split; [exact Hen|]. intros _.
  change (Envelope.steps (S n) e) with (Envelope.steps n (snd (Envelope.Next e))).
  destruct n as [|n].
  - cbn in Hst. injection Hst as <-. exact Ha'.
  - rewrite Han by lia. rewrite Ha'.
    change (snd (Envelope.Next e)) with (Envelope.steps 1 e).
    rewrite (Hrun 1%nat) by lia. reflexivity.
Qed.

(** After [NoteOff] on a sounding oscillator-and-envelope voice, the voice
    stays active for exactly releaseSamples further calls of [Next] (none,
    when that count is not positive) and is inactive after every later
    call: [IsActive] after [n] calls is true exactly when
    n <= releaseSamples. *)
Theorem released_voice_active_for_release_time (v v1 : Voice.t) (n : nat) :
  subtractive v = true -> sounding v = true ->
  Voice.NoteOff v = Some v1 ->
  exists vn, steps n v1 = Some vn /\
    Voice.IsActive vn = Some (bool_decide (Z.of_nat n <= Z.max 0 (releaseSamples v))).
Proof.
  intros Hs Hsnd Hoff.
  destruct (subtractive_inv v Hs) as (o & e & Ho & He & Hfm).
  unfold sounding, releaseSamples in *. rewrite He in *.
  assert (Hne : Envelope.stage e <> Off)
    by (unfold Envelope.IsActive in Hsnd; apply bool_decide_eq_true in Hsnd; exact Hsnd).
  set (e1 := Envelope.set_stage e EnvelopeStage.Release 0).
  assert (Hs1 : subtractive v1 = true /\ Voice.envelope v1 = Some e1).
  { unfold Voice.NoteOff in Hoff. rewrite He in Hoff.
    unfold subtractive.
    destruct Hfm as [Hfm | Hfm]; rewrite Hfm in Hoff; [|destruct (Voice.useFM v) eqn:Hu];
      cbn in Hoff; rewrite (Release_active e Hne) in Hoff;
      injection Hoff as <-; cbn; rewrite ?Hfm, ?Hu, ?Ho; auto. }
  destruct Hs1 as [Hs1 He1].
  set (r := Envelope.releaseSamples e).
  assert (Hrel : forall k, (k <= Z.to_nat r)%nat ->
                 Envelope.stage (Envelope.steps k e1) = EnvelopeStage.Release).
  { intros [|k] Hk; [reflexivity|].
    rewrite (ramp_steps EnvelopeStage.Release e1 (S k) eq_refl eq_refl eq_refl)
      by first [lia | change (stageSamples EnvelopeStage.Release e1) with r; lia].
    reflexivity. }
  assert (Hrun : forall k, (k <= Z.to_nat r)%nat ->
                 Envelope.IsActive (Envelope.steps k e1) = true).
  { intros k Hk. unfold Envelope.IsActive. rewrite (Hrel k Hk). reflexivity. }
  destruct (le_gt_dec n (Z.to_nat r)) as [Hle|Hgt].
  - destruct (running_steps n v1 e1 Hs1 He1) as (vn & Hst & Hsn & Hen & _).
    { intros k Hk. apply Hrun. lia. }
    exists vn. split; [exact Hst|].
    rewrite (subtractive_IsActive vn _ Hsn Hen), (Hrun n Hle), orb_true_r.
    rewrite bool_decide_eq_true_2 by lia. reflexivity.
  - destruct (running_steps (Z.to_nat r + 1) v1 e1 Hs1 He1) as (vr & Hst & Hsr & Her & Har).
    { intros k Hk. apply Hrun. lia. }
    destruct (ramp_done EnvelopeStage.Release e1 eq_refl eq_refl eq_refl) as (Hoffs & _).
    change (stageSamples EnvelopeStage.Release e1) with r in Hoffs. cbn in Hoffs.
    assert (Hin : Envelope.IsActive (Envelope.steps (Z.to_nat r + 1) e1) = false).
    { unfold Envelope.IsActive. rewrite Hoffs. reflexivity. }
    rewrite Hin in Har. specialize (Har ltac:(lia)). cbn in Har.
    exists vr. split.
    + replace n with ((Z.to_nat r + 1) + (n - (Z.to_nat r + 1)))%nat by lia.
      rewrite voice_steps_add, Hst. cbn.
      exact (idle_steps _ vr _ Hsr Her Har Hin).
    + rewrite (subtractive_IsActive vr _ Hsr Her), Har, Hin.
      rewrite bool_decide_eq_false_2 by lia. reflexivity.
Qed.

Lemma idle_inv v :
  idle v = true ->
  exists e, subtractive v = true /\ Voice.envelope v = Some e /\
            Voice.active v = false /\ Envelope.IsActive e = false.
Proof.
  unfold idle, sounding. intros [[Hs Ha]%andb_true_iff Hn]%andb_true_iff.
  destruct (subtractive_inv v Hs) as (o & e & _ & He & _). rewrite He in Hn.
  exists e. repeat split; try assumption.
  - destruct (Voice.active v); [discriminate | reflexivity].
  - destruct (Envelope.IsActive e); [discriminate | reflexivity].
Qed.

Lemma idle_intro v e :
  subtractive v = true -> Voice.envelope v = Some e ->
  Voice.active v = false -> Envelope.IsActive e = false -> idle v = true.
Proof. intros Hs He Ha Hi. unfold idle, sounding. rewrite Hs, He, Ha, Hi. reflexivity. Qed.

Lemma idle_Next v : idle v = true -> Voice.Next v = Some (f0.0, v).
Proof. intros (e & Hs & He & Ha & Hi)%idle_inv. exact (subtractive_idle v e Hs He Ha Hi). Qed.

Lemma idle_IsActive v : idle v = true -> Voice.IsActive v = Some false.
Proof.
  intros (e & Hs & He & Ha & Hi)%idle_inv.
  rewrite (subtractive_IsActive v e Hs He), Ha, Hi. reflexivity.
Qed.

Lemma idle_stays n v : idle v = true -> steps n v = Some v.
Proof. intros (e & Hs & He & Ha & Hi)%idle_inv. exact (idle_steps n v e Hs He Ha Hi). Qed.

(** A released voice has nothing left to play once the release time has
    passed, whatever it was doing before. *)
Lemma release_tail v v1 n :
  subtractive v = true -> Voice.NoteOff v = Some v1 ->
  Z.max 0 (releaseSamples v) + 1 <= Z.of_nat n ->
  exists vn, steps n v1 = Some vn /\ idle vn = true.
Proof.
  intros Hs Hoff Hn.
  destruct (subtractive_inv v Hs) as (o & e & Ho & He & Hfm).
  unfold releaseSamples in Hn. rewrite He in Hn.
  assert (H1 : subtractive v1 = true /\ Voice.envelope v1 = Some (Envelope.Release e) /\
               Voice.active v1 = Voice.active v).
  { unfold Voice.NoteOff in Hoff. rewrite He in Hoff. unfold subtractive.
    destruct Hfm as [Hfm | Hfm]; rewrite Hfm in Hoff; [|destruct (Voice.useFM v) eqn:Hu];
      cbn in Hoff; injection Hoff as <-; cbn; rewrite ?Hfm, ?Hu, ?Ho; auto. }
  destruct H1 as (Hs1 & He1 & Ha1).
  destruct (decide (Envelope.stage e = Off)) as [Hoffst | Hne].
  - (* the envelope was Off already *)
    rewrite (Release_Off e Hoffst) in He1.
    assert (Hin : Envelope.IsActive e = false)
      by (unfold Envelope.IsActive; rewrite Hoffst; reflexivity).
    destruct (Voice.active v1) eqn:Hact.
    + destruct (subtractive_Next v1 e Hs1 He1) as (s & v' & HN & Hs' & He' & Ha').
      { rewrite Hact. reflexivity. }
      destruct (steps_Off 1 e Hoffst) as [Hst _]. cbn [Envelope.steps] in Hst.
      assert (Hin' : Envelope.IsActive (snd (Envelope.Next e)) = false)
        by (unfold Envelope.IsActive; rewrite Hst; reflexivity).
      rewrite Hin' in Ha'. cbn in Ha'.
      exists v'. destruct n as [|n]; [lia|]. cbn [steps]. rewrite HN. cbn.
      pose proof (idle_intro v' _ Hs' He' Ha' Hin') as Hidle.
      split; [exact (idle_stays n v' Hidle) | exact Hidle].
    + pose proof (idle_intro v1 e Hs1 He1 Hact Hin) as Hidle.
      exists v1. split; [exact (idle_stays n v1 Hidle) | exact Hidle].
  - (* the release ramp runs to its end *)
    rewrite (Release_active e Hne) in He1.
    set (e1 := Envelope.set_stage e EnvelopeStage.Release 0) in *.
    set (r := Envelope.releaseSamples e) in *.
    assert (Hrun : forall k, (k <= Z.to_nat r)%nat ->
                   Envelope.IsActive (Envelope.steps k e1) = true).
    { intros [|k] Hk; [reflexivity|]. unfold Envelope.IsActive.
      rewrite (ramp_steps EnvelopeStage.Release e1 (S k) eq_refl eq_refl eq_refl)
        by first [lia | change (stageSamples EnvelopeStage.Release e1) with r; lia].
      reflexivity. }
    destruct (running_steps (Z.to_nat r + 1) v1 e1 Hs1 He1) as (vr & Hst & Hsr & Her & Har).
    { intros k Hk. apply Hrun. lia. }
    destruct (ramp_done EnvelopeStage.Release e1 eq_refl eq_refl eq_refl) as (Hoffs & _).
    change (stageSamples EnvelopeStage.Release e1) with r in Hoffs. cbn in Hoffs.
    assert (Hin : Envelope.IsActive (Envelope.steps (Z.to_nat r + 1) e1) = false).
    { unfold Envelope.IsActive. rewrite Hoffs. reflexivity. }
    rewrite Hin in Har. specialize (Har ltac:(lia)). cbn in Har.
    pose proof (idle_intro vr _ Hsr Her Har Hin) as Hidle.
    exists vr. split; [|exact Hidle].
    replace n with ((Z.to_nat r + 1) + (n - (Z.to_nat r + 1)))%nat by lia.
    rewrite voice_steps_add, Hst. cbn. exact (idle_stays _ vr Hidle).
Qed.

Lemma subtractive_ok v : subtractive v = true -> ok v = true.
Proof.
  unfold subtractive, ok.
  destruct (Voice.useFM v), (Voice.fmInstrument v), (Voice.oscillator v), (Voice.envelope v);
    try discriminate; reflexivity.
Qed.

(** One call of the allocator's [Next] does to a voice what [Voice.Next]
    does, also when the voice reports inactive. *)
Lemma subtractive_advanced v :
  subtractive v = true ->
  exists s, Voice.Next v = Some (s, VoiceAllocatorSpec.advanced v) /\
            subtractive (VoiceAllocatorSpec.advanced v) = true /\
            releaseSamples (VoiceAllocatorSpec.advanced v) = releaseSamples v.
Proof.
  intros Hs. destruct (subtractive_inv v Hs) as (o & e & Ho & He & Hfm).
  unfold VoiceAllocatorSpec.advanced. rewrite (subtractive_IsActive v e Hs He).
  destruct (Voice.active v || Envelope.IsActive e) eqn:Hact.
  - destruct (subtractive_Next v e Hs He Hact) as (s & v' & HN & Hs' & He' & _).
    rewrite HN. exists s. split; [reflexivity|]. split; [exact Hs'|].
    unfold releaseSamples. rewrite He', He.
    pose proof (Next_params e) as Hp. unfold params in Hp.
    unfold Envelope.releaseSamples. congruence.
  - apply orb_false_iff in Hact as [Ha Hi].
    rewrite (subtractive_idle v e Hs He Ha Hi). exists f0.0. auto.
Qed.

Lemma subtractive_NoteOff v :
  subtractive v = true ->
  exists v1, Voice.NoteOff v = Some v1 /\ subtractive v1 = true.
Proof.
  intros Hs. destruct (subtractive_inv v Hs) as (o & e & Ho & He & Hfm).
  unfold Voice.NoteOff, subtractive. rewrite He.
  destruct Hfm as [Hfm | Hfm]; rewrite Hfm; [|destruct (Voice.useFM v) eqn:Hu];
    cbn; eexists; (split; [reflexivity|]); cbn; rewrite ?Hfm, ?Hu, ?Ho; reflexivity.
Qed.

End VoiceTailFacts.

(** The note of [ringingVoice], 100 samples after its release. *)
Lemma released_voice_active_for_release_time_witness :
  exists vn,
    @VoiceSpec.steps anyMath 100 (default ringingVoice (Voice.NoteOff ringingVoice)) = Some vn /\
    Voice.IsActive vn =
      Some (bool_decide (Z.of_nat 100 <= Z.max 0 (VoiceTail.releaseSamples ringingVoice))).
Proof.
  apply (@released_voice_active_for_release_time anyMath ringingVoice _ 100);
    vm_compute; reflexivity.
Defined.

(** ** FM instruments: the tail of a released note *)

Section FMTail.
Context `{MathLib}.
Import EnvelopeSpec FMSpec.

#[local] Arguments Envelope.Next : simpl never.

(** A released envelope is active for exactly releaseSamples further
    samples, if it was active at all. *)
Lemma released_envelope_active e (n : nat) :
  Envelope.IsActive (Envelope.steps n (Envelope.Release e)) =
    Envelope.IsActive e && (Z.of_nat n <=? Z.max 0 (Envelope.releaseSamples e)).
Proof.
  destruct (decide (Envelope.stage e = Off)) as [Hoff|Hne].
  - rewrite (Release_Off e Hoff). destruct (steps_Off n e Hoff) as [Hst _].
    unfold Envelope.IsActive. rewrite Hst, Hoff. reflexivity.
  - rewrite (Release_active e Hne).
    set (e1 := Envelope.set_stage e EnvelopeStage.Release 0).
    set (r := Envelope.releaseSamples e).
    assert (Hact : Envelope.IsActive e = true)
      by (unfold Envelope.IsActive; apply bool_decide_eq_true_2, Hne).
    rewrite Hact. cbn [andb].
    destruct (Z.leb_spec (Z.of_nat n) (Z.max 0 r)) as [Hle|Hgt].
    + destruct n as [|n]; [reflexivity|].
      unfold Envelope.IsActive.
      rewrite (ramp_steps EnvelopeStage.Release e1 (S n) eq_refl eq_refl eq_refl)
        by first [lia | change (stageSamples EnvelopeStage.Release e1) with r; lia].
      reflexivity.
    + destruct (ramp_done EnvelopeStage.Release e1 eq_refl eq_refl eq_refl) as (Hoffs & _).
      change (stageSamples EnvelopeStage.Release e1) with r in Hoffs. cbn in Hoffs.
      replace n with ((Z.to_nat r + 1) + (n - (Z.to_nat r + 1)))%nat by lia.
      rewrite steps_add.
      destruct (steps_Off (n - (Z.to_nat r + 1)) _ Hoffs) as [Hst _].
      unfold Envelope.IsActive. rewrite Hst. reflexivity.
Qed.

Lemma FMOperator_Next_envelope op m :
  FMOperator.envelope (snd (FMOperator.Next op m)) = snd (Envelope.Next (FMOperator.envelope op)).
Proof.
  unfold FMOperator.Next. destruct (Envelope.Next (FMOperator.envelope op)). reflexivity.
Qed.

(** The wiring of an instrument that has the operators of its algorithm
    advances the envelope of every operator by one sample. *)
Lemma route_envelopes fm :
  wired fm = true ->
  FMOperator.envelope <$> snd (FMInstrument.route fm) =
    (fun op => snd (Envelope.Next (FMOperator.envelope op))) <$> FMInstrument.operators fm.
Proof.
  unfold wired. intros Hw%bool_decide_eq_true. unfold FMInstrument.route.
  destruct (FMInstrument.algorithm fm);
    destruct (FMInstrument.operators fm) as [|o0 [|o1 [|o2 [|o3 [|o4 r]]]]];
    try discriminate Hw.
  all: repeat match goal with
         | |- context [FMOperator.Next ?o ?m] =>
             let E := fresh "E" in
             pose proof (FMOperator_Next_envelope o m) as E; destruct (FMOperator.Next o m)
         end; cbn [snd fmap list_fmap] in *; congruence.
Qed.

Lemma Next_wired fm :
  wired fm = true ->
  wired (snd (FMInstrument.Next fm)) = true /\
  FMOperator.envelope <$> FMInstrument.operators (snd (FMInstrument.Next fm)) =
    (fun op => snd (Envelope.Next (FMOperator.envelope op))) <$> FMInstrument.operators fm.
Proof.
  intros Hw. pose proof (route_envelopes fm Hw) as Hr.
  pose proof (route_length fm) as Hl.
  pose proof (FMInstrument_Next_operators fm) as Ho.
  assert (Ha : FMInstrument.algorithm (snd (FMInstrument.Next fm)) = FMInstrument.algorithm fm).
  { unfold FMInstrument.Next. destruct (FMInstrument.operators fm); [reflexivity|].
    destruct (FMInstrument.route fm). reflexivity. }
  split.
  - unfold wired in *. apply bool_decide_eq_true in Hw. apply bool_decide_eq_true_2.
    rewrite Ho, Hl, Ha. exact Hw.
  - rewrite Ho. exact Hr.
Qed.

Lemma steps_envelopes (n : nat) : forall fm,
  wired fm = true ->
  FMOperator.envelope <$> FMInstrument.operators (steps n fm) =
    (fun op => Envelope.steps n (FMOperator.envelope op)) <$> FMInstrument.operators fm.
Proof.
  induction n as [|n IH]; intros fm Hw; [reflexivity|].
  destruct (Next_wired fm Hw) as [Hw1 He1].
  cbn [steps]. rewrite (IH _ Hw1).
  change (fun op => Envelope.steps n (FMOperator.envelope op))
    with (Envelope.steps n ∘ FMOperator.envelope).
  rewrite list_fmap_compose, He1, <- list_fmap_compose. reflexivity.
Qed.

Lemma IsActive_envelopes fm :
  FMInstrument.IsActive fm =
    existsb Envelope.IsActive (FMOperator.envelope <$> FMInstrument.operators fm).
Proof.
  unfold FMInstrument.IsActive.
  induction (FMInstrument.operators fm) as [|op ops IH]; [reflexivity|].
  cbn. rewrite IH. reflexivity.
Qed.

(** After [NoteOff] on an instrument that has the operators of its
    algorithm, the instrument is active after [n] calls of [Next] exactly
    when some operator was active at the release and [n] is at most its
    releaseSamples: it falls silent when the longest release has run
    out. *)
Theorem fm_instrument_active_for_longest_release (fm : FMInstrument.t) (n : nat) :
  wired fm = true ->
  FMInstrument.IsActive (steps n (FMInstrument.NoteOff fm)) =
    existsb (fun op => FMOperator.IsActive op && (Z.of_nat n <=? Z.max 0 (releaseSamples op)))
            (FMInstrument.operators fm).
Proof.
  intros Hw.
  assert (Hw' : wired (FMInstrument.NoteOff fm) = true).
  { unfold wired in *. apply bool_decide_eq_true in Hw. apply bool_decide_eq_true_2.
    cbn. rewrite length_fmap. exact Hw. }
  rewrite IsActive_envelopes, (steps_envelopes n _ Hw'). cbn [FMInstrument.NoteOff
    FMInstrument.set_operators FMInstrument.operators].
  induction (FMInstrument.operators fm) as [|op ops IH]; [reflexivity|].
  cbn [fmap list_fmap existsb]. rewrite IH. f_equal.
  cbn [FMOperator.Release FMOperator.set_envelope FMOperator.envelope].
  apply released_envelope_active.
Qed.

(** An operator that the wiring does not run keeps its envelope. *)
Lemma route_unwired fm :
  wired fm = false -> FMInstrument.operators fm <> [] ->
  exists i : nat, (i < length (FMInstrument.operators fm))%nat /\
    forall fm', FMInstrument.algorithm fm' = FMInstrument.algorithm fm ->
                length (FMInstrument.operators fm') = length (FMInstrument.operators fm) ->
                snd (FMInstrument.route fm') !! i = FMInstrument.operators fm' !! i.
Proof.
  unfold wired. intros Hw%bool_decide_eq_false Hne.
  set (k := arity (FMInstrument.algorithm fm)) in *.
  exists (if decide (length (FMInstrument.operators fm) < k)%nat then 0%nat else k).
  split.
  { destruct (decide _); [destruct (FMInstrument.operators fm); [congruence | cbn; lia] | lia]. }
  intros fm' Ha Hl. unfold FMInstrument.route. rewrite Ha. subst k.
  destruct (FMInstrument.algorithm fm);
    destruct (FMInstrument.operators fm) as [|p0 [|p1 [|p2 [|p3 [|p4 pr]]]]];
    destruct (FMInstrument.operators fm') as [|o0 [|o1 [|o2 [|o3 [|o4 r]]]]];
    cbn in Hw, Hl |- *; try discriminate Hl; try congruence; try lia;
    repeat match goal with
           | |- context [FMOperator.Next ?o ?m] => destruct (FMOperator.Next o m)
           end; reflexivity.
Qed.

Lemma Next_shape fm :
  FMInstrument.algorithm (snd (FMInstrument.Next fm)) = FMInstrument.algorithm fm /\
  length (FMInstrument.operators (snd (FMInstrument.Next fm))) =
    length (FMInstrument.operators fm).
Proof.
  split.
  - unfold FMInstrument.Next. destruct (FMInstrument.operators fm); [reflexivity|].
    destruct (FMInstrument.route fm). reflexivity.
  - rewrite FMInstrument_Next_operators. apply route_length.
Qed.

Lemma steps_unwired (i : nat) (fm0 : FMInstrument.t) :
  (forall fm', FMInstrument.algorithm fm' = FMInstrument.algorithm fm0 ->
               length (FMInstrument.operators fm') = length (FMInstrument.operators fm0) ->
               snd (FMInstrument.route fm') !! i = FMInstrument.operators fm' !! i) ->
  forall (n : nat) fm,
    FMInstrument.algorithm fm = FMInstrument.algorithm fm0 ->
    length (FMInstrument.operators fm) = length (FMInstrument.operators fm0) ->
    FMInstrument.operators (steps n fm) !! i = FMInstrument.operators fm !! i /\
    FMInstrument.algorithm (steps n fm) = FMInstrument.algorithm fm0 /\
    length (FMInstrument.operators (steps n fm)) = length (FMInstrument.operators fm0).
Proof.
  intros Hkeep n. induction n as [|n IH]; intros fm Ha Hl; [auto|].
  destruct (Next_shape fm) as [Ha1 Hl1].
  destruct (IH (snd (FMInstrument.Next fm))) as (Hi & Ha' & Hl'); [congruence | congruence|].
  cbn [steps]. rewrite Hi, FMInstrument_Next_operators.
  split; [apply Hkeep; assumption | auto].
Qed.

(** An instrument that has more or fewer operators than its algorithm
    runs never falls silent once a note was triggered: whatever the
    numbers of calls of [Next] before and after [NoteOff], it reports
    active (one of its operators is never advanced). *)
Theorem miswired_instrument_stays_active (fm : FMInstrument.t) (note : Z)
  (velocity : float64) (m n : nat) :
  wired fm = false -> (0 < length (FMInstrument.operators fm))%nat ->
  FMInstrument.IsActive
    (steps n (FMInstrument.NoteOff (steps m (FMInstrument.NoteOn fm note velocity)))) = true.
Proof.
  intros Hw Hlen.
  destruct (route_unwired fm Hw) as (i & Hi & Hkeep).
  { destruct (FMInstrument.operators fm); [cbn in Hlen; lia | discriminate]. }
  destruct (lookup_lt_is_Some_2 _ _ Hi) as [op Hop].
  set (fm1 := FMInstrument.NoteOn fm note velocity).
  assert (H1 : exists op1, FMInstrument.operators fm1 !! i = Some op1 /\
                           Envelope.stage (FMOperator.envelope op1) = Attack).
  { eexists. cbn. rewrite list_lookup_fmap, Hop. cbn. split; reflexivity. }
  destruct H1 as (op1 & Hop1 & Hst1).
  destruct (steps_unwired i fm Hkeep m fm1) as (Hi2 & Ha2 & Hl2);
    [reflexivity | cbn; apply length_fmap|].
  set (fm2 := steps m fm1) in *.
  set (fm3 := FMInstrument.NoteOff fm2).
  assert (H3 : exists op3, FMInstrument.operators fm3 !! i = Some op3 /\
                           Envelope.stage (FMOperator.envelope op3) = EnvelopeStage.Release).
  { exists (FMOperator.Release op1). split.
    - unfold fm3, FMInstrument.NoteOff.
      cbn [FMInstrument.operators FMInstrument.set_operators].
      rewrite list_lookup_fmap, Hi2, Hop1. reflexivity.
    - unfold FMOperator.Release. cbn [FMOperator.envelope FMOperator.set_envelope].
      rewrite Release_active by (rewrite Hst1; discriminate). reflexivity. }
  destruct H3 as (op3 & Hop3 & Hst3).
  destruct (steps_unwired i fm Hkeep n fm3) as (Hi4 & _);
    [exact Ha2 | cbn; rewrite length_fmap; exact Hl2|].
  unfold FMInstrument.IsActive. apply existsb_exists. exists op3. split.
  - apply list_elem_of_In. eapply list_elem_of_lookup_2. rewrite Hi4. exact Hop3.
  - unfold FMOperator.IsActive, Envelope.IsActive. rewrite Hst3. reflexivity.
Qed.

End FMTail.

(** The bell, five samples after its release. *)
Lemma fm_instrument_active_for_longest_release_witness :
  FMInstrument.IsActive (@FMSpec.steps anyMath 5 (FMInstrument.NoteOff FMSpec.ringingBell)) =
    existsb (fun op => FMOperator.IsActive op &&
                       (Z.of_nat 5 <=? Z.max 0 (FMSpec.releaseSamples op)))
            (FMInstrument.operators FMSpec.ringingBell).
Proof.
  apply (@fm_instrument_active_for_longest_release anyMath FMSpec.ringingBell 5).
  vm_compute. reflexivity.
Defined.

(** Three operators under the two-operator algorithm. *)
Lemma miswired_instrument_stays_active_witness :
  FMInstrument.IsActive
    (@FMSpec.steps anyMath 7
       (FMInstrument.NoteOff
          (@FMSpec.steps anyMath 3 (@FMInstrument.NoteOn anyMath FMSpec.threeForTwo 60 f1.0))))
    = true.
Proof.
  apply (@miswired_instrument_stays_active anyMath FMSpec.threeForTwo 60 f1.0 3 7).
  - vm_compute. reflexivity.
  - vm_compute. lia.
Defined.

(** ** Voice allocator: chords, round trips *)

Section ChordFacts.
Context `{MathLib}.
Import VoiceSpec VoiceAllocator VoiceAllocatorSpec ChordSpec.

#[local] Arguments Voice.Next : simpl never.
#[local] Arguments Voice.IsActive : simpl never.
#[local] Arguments Voice.NoteOn : simpl never.
#[local] Arguments Voice.NoteOff : simpl never.

Lemma filled_unmapped n played va x :
  filled n played va -> x ∉ played -> noteMap va !! x = None.
Proof.
  intros (((_ & Hdom & _) & _) & _ & Hact & _) Hx.
  destruct (noteMap va !! x) as [i|] eqn:E; [|reflexivity].
  exfalso. apply Hx. eapply (subseteq_drop (length played - n)).
  rewrite <- Hact. apply Hdom. rewrite E. eauto.
Qed.

Lemma filled_step n played va x vel :
  (0 < n)%nat -> filled n played va -> x ∉ played ->
  exists va', NoteOn va x vel = Some va' /\ filled n (played ++ [x]) va'.
Proof.
  intros Hn HJ Hx.
  pose proof (filled_unmapped _ _ _ _ HJ Hx) as Hnone.
  destruct HJ as (Hinv & Hlen & Hact & Hheld & Hfree).
  pose proof Hinv as ((Hnd & Hdom & Hrng & Hok) & Hinj & HmH & Hops & Hsz).
  destruct (NoteOn_inv va x vel Hinv) as [_ Hpost].
  destruct (le_lt_dec n (length played)) as [Hfull | Hroom].
  - (* every voice holds a note: the oldest is stolen *)
    assert (Hall : Forall (fun w => Voice.IsActive w = Some true) (voices va)).
    { apply Forall_lookup. intros i v Hv. apply held_IsActive, (Hheld i v Hv).
      apply lookup_lt_Some in Hv. lia. }
    destruct (played !! (length played - n)%nat) as [oldest|] eqn:Hold.
    2: { apply lookup_ge_None in Hold. lia. }
    pose proof (drop_S _ _ _ Hold) as Hdrop.
    rewrite <- Hact in Hdrop.
    assert (is_Some (noteMap va !! oldest)) as [i Hi].
    { apply Hdom. rewrite Hdrop. apply list_elem_of_here. }
    destruct (inv_lookup va oldest i Hinv Hi) as (v & Hv & Hokv & Hopv).
    destruct (ok_NoteOn v x vel Hokv) as (v' & E & Hok' & Hact' & Hops').
    pose proof (NoteOn_steal va x vel oldest _ i v v' Hnone (findInactive_none _ 0%nat Hall)
                  Hdrop Hi Hv E) as HN.
    eexists. split; [exact HN|].
    destruct (Hpost _ HN) as [Hinv' _].
    split; [exact Hinv'|]. cbn. rewrite length_insert. split; [exact Hlen|]. split.
    + rewrite length_app. cbn.
      replace (length played + 1 - n)%nat with (S (length played - n)) by lia.
      rewrite drop_app_le by lia. reflexivity.
    + split.
      * intros j w Hw _. apply list_lookup_insert_Some in Hw as [(-> & <- & _) | (Hne & Hw)].
        -- exact (NoteOn_held v x vel v' E Hopv).
        -- apply (Hheld j w Hw). apply lookup_lt_Some in Hw. lia.
      * intros j w Hw Hj. apply lookup_lt_Some in Hw.
        rewrite length_insert in Hw. rewrite length_app in Hj. cbn in Hj. lia.
  - (* slot [length played] is the first idle one *)
    set (j := length played) in *.
    destruct (lookup_lt_is_Some_2 (voices va) j ltac:(lia)) as [v Hv].
    pose proof (Hfree j v Hv ltac:(lia)) as Hidle.
    assert (Hpre : Forall (fun w => Voice.IsActive w = Some true) (take j (voices va))).
    { apply Forall_lookup. intros i w Hw. apply lookup_take_Some in Hw as [Hw Hi].
      apply held_IsActive, (Hheld i w Hw). exact Hi. }
    pose proof (findInactive_found (take j (voices va)) v (drop (S j) (voices va)) 0 Hpre Hidle)
      as HF.
    rewrite (take_drop_middle _ _ _ Hv), length_take in HF.
    replace (0 + j `min` length (voices va))%nat with j in HF by lia.
    assert (Hokv : ok v = true) by (eapply (proj1 (Forall_lookup _ _) Hok); eauto).
    assert (Hopv : hasOperators v = true) by (eapply (proj1 (Forall_lookup _ _) Hops); eauto).
    destruct (ok_NoteOn v x vel Hokv) as (v' & E & Hok' & Hact' & Hops').
    pose proof (NoteOn_allocate va x vel j v v' Hnone HF Hv E) as HN.
    eexists. split; [exact HN|].
    destruct (Hpost _ HN) as [Hinv' _].
    split; [exact Hinv'|]. cbn. rewrite length_insert. split; [exact Hlen|]. split.
    + rewrite Hact, length_app. cbn. fold j.
      replace (j - n)%nat with 0%nat by lia. replace (j + 1 - n)%nat with 0%nat by lia.
      reflexivity.
    + rewrite length_app. cbn. fold j. split.
      * intros i w Hw Hi. apply list_lookup_insert_Some in Hw as [(<- & <- & _) | (Hne & Hw)].
        -- exact (NoteOn_held v x vel v' E Hopv).
        -- apply (Hheld i w Hw). lia.
      * intros i w Hw Hi. apply list_lookup_insert_Some in Hw as [(<- & _ & _) | (Hne & Hw)];
          [lia|]. apply (Hfree i w Hw). lia.
Qed.

Lemma filled_chord n vel rest : forall played va,
  (0 < n)%nat -> filled n played va -> NoDup (played ++ rest) ->
  exists va', PlayChord va rest vel = Some va' /\ filled n (played ++ rest) va'.
Proof.
  induction rest as [|x rest IH]; intros played va Hn HJ Hnd.
  - exists va. rewrite app_nil_r. split; [reflexivity | exact HJ].
  - assert (Hx : x ∉ played).
    { apply NoDup_app in Hnd as (_ & Hdis & _). intros Hin. apply (Hdis x Hin), list_elem_of_here. }
    destruct (filled_step n played va x vel Hn HJ Hx) as (va1 & HN & HJ1).
    destruct (IH (played ++ [x]) va1 Hn HJ1) as (va' & HP & HJ').
    { rewrite <- app_assoc. exact Hnd. }
    exists va'. cbn [PlayChord]. rewrite HN. cbn. split; [exact HP|].
    rewrite <- app_assoc in HJ'. exact HJ'.
Qed.

Lemma filled_fresh inst rate n va :
  NewVoiceAllocator inst rate n = Some va -> filled (Z.to_nat n) [] va.
Proof.
  intros Hnew. destruct (inv_fresh _ _ _ _ Hnew) as [Hinv _].
  destruct (NewVoiceAllocator_Some _ _ _ _ Hnew) as (v0 & _ & _ & Hidle & -> & _).
  split; [exact Hinv|]. cbn. rewrite length_replicate. split; [reflexivity|].
  split; [reflexivity|]. split.
  - intros i v _ Hi. cbn in Hi. lia.
  - intros i v Hv _. apply lookup_replicate in Hv as [-> _]. exact Hidle.
Qed.

(** [PlayChord] with pairwise distinct notes on a freshly built pool of
    [n] voices succeeds whatever the number of notes; afterwards the
    active list holds the newest [n] notes of the chord in the order
    given (all of them when there are at most [n]), and each of them has a
    voice that reports active. *)
Theorem chord_keeps_newest_notes (inst : Tracker.Instrument) (rate : float64) (n : Z)
  (va0 : VoiceAllocator.t) (notes : list Z) (velocity : float64) :
  NewVoiceAllocator inst rate n = Some va0 -> 0 < n -> NoDup notes ->
  exists va, PlayChord va0 notes velocity = Some va /\
    GetActiveNotes va = drop (length notes - Z.to_nat n) notes /\
    GetActiveVoiceCount va = Z.min (len notes) n /\
    forall note, note ∈ GetActiveNotes va ->
      exists v, GetVoiceForNote va note = Some v /\ Voice.IsActive v = Some true.
Proof.
  intros Hnew Hn Hnd.
  destruct (filled_chord (Z.to_nat n) velocity notes [] va0 ltac:(lia)
              (filled_fresh _ _ _ _ Hnew) Hnd) as (va & HP & HJ).
  exists va. split; [exact HP|]. cbn [app] in HJ.
  destruct HJ as (Hinv & _ & Hact & _).
  unfold GetActiveNotes, GetActiveVoiceCount. split; [exact Hact|]. split.
  - rewrite Hact. unfold len. rewrite length_drop. lia.
  - intros note Hin.
    pose proof Hinv as ((_ & Hdom & _) & _ & HmH & _).
    apply Hdom in Hin as [i Hi].
    destruct (inv_lookup va note i Hinv Hi) as (v & Hv & _).
    exists v. unfold GetVoiceForNote. rewrite Hi. cbn. split; [exact Hv|].
    apply held_IsActive. exact (HmH note i v Hi Hv).
Qed.

End ChordFacts.

(** Six notes on a fresh pool of four default voices. *)
Lemma chord_keeps_newest_notes_witness :
  exists va, @VoiceAllocator.PlayChord anyMath VoiceAllocatorSpec.fresh44k
               [60; 62; 64; 65; 67; 69] f1.0 = Some va /\
    VoiceAllocator.GetActiveNotes va = drop (6 - Z.to_nat 4) [60; 62; 64; 65; 67; 69] /\
    VoiceAllocator.GetActiveVoiceCount va = Z.min (len [60; 62; 64; 65; 67; 69]) 4 /\
    forall note, note ∈ VoiceAllocator.GetActiveNotes va ->
      exists v, VoiceAllocator.GetVoiceForNote va note = Some v /\
                Voice.IsActive v = Some true.
Proof.
  apply (@chord_keeps_newest_notes anyMath Player.defaultInst (float64_of_int 44100) 4
           VoiceAllocatorSpec.fresh44k [60; 62; 64; 65; 67; 69] f1.0).
  - vm_compute. reflexivity.
  - lia.
  - apply (bool_decide_unpack _). vm_compute. reflexivity.
Defined.

Section AllocatorRoundTrip.
Context `{MathLib}.
Import VoiceSpec VoiceAllocator VoiceAllocatorSpec.

#[local] Arguments Voice.Next : simpl never.
#[local] Arguments Voice.IsActive : simpl never.
#[local] Arguments Voice.NoteOn : simpl never.
#[local] Arguments Voice.NoteOff : simpl never.

Lemma removeNote_absent x l : x ∉ l -> removeNote x l = l.
Proof.
  induction l as [|a l IH]; intros Hx; [reflexivity|]. cbn.
  apply not_elem_of_cons in Hx as [Hne Hx].
  destruct (Z.eqb_spec a x); [congruence|]. rewrite (IH Hx). reflexivity.
Qed.

Lemma removeNote_last x l : x ∉ l -> removeNote x (l ++ [x]) = l.
Proof.
  induction l as [|a l IH]; intros Hx; cbn.
  - rewrite Z.eqb_refl. reflexivity.
  - apply not_elem_of_cons in Hx as [Hne Hx].
    destruct (Z.eqb_spec a x); [congruence|]. rewrite (IH Hx). reflexivity.
Qed.

Lemma removeNote_filter x l : NoDup l -> removeNote x l = filter (fun n => n <> x) l.
Proof.
  induction l as [|a l IH]; intros Hnd; [reflexivity|].
  apply NoDup_cons in Hnd as [Ha Hnd]. cbn [removeNote].
  destruct (Z.eqb_spec a x) as [->|Hne].
  - rewrite filter_cons_False by tauto.
    rewrite <- (IH Hnd). symmetry. apply removeNote_absent, Ha.
  - rewrite filter_cons_True by assumption. rewrite (IH Hnd). reflexivity.
Qed.

(** What [NoteOff] does to the bookkeeping, mapped or not. *)
Lemma NoteOff_notes va note va' :
  inv va -> NoteOff va note = Some va' ->
  activeNotes va' = removeNote note (activeNotes va) /\
  noteMap va' = delete note (noteMap va) /\
  length (voices va') = length (voices va).
Proof.
  intros Hinv. pose proof Hinv as ((Hnd & Hdom & _) & _).
  unfold NoteOff. destruct (noteMap va !! note) as [i|] eqn:Hm.
  - unfold onVoice. destruct (voices va !! i) as [v|]; [|discriminate]. cbn.
    destruct (Voice.NoteOff v) as [v'|]; [|discriminate]. cbn.
    intros [= <-]. cbn. rewrite length_insert. auto.
  - intros [= <-]. rewrite delete_id by exact Hm.
    rewrite removeNote_absent; [auto|].
    rewrite Hdom, Hm. intros [? [=]].
Qed.

(** On an allocator reached from a fresh one by any calls: triggering a
    note that is not playing, while some voice is idle, and releasing it
    again restores the note map and the active list; no other note is
    disturbed. *)
Theorem note_on_off_restores_bookkeeping (inst : Tracker.Instrument) (rate : float64)
  (size : Z) (va0 : VoiceAllocator.t) (ops : list Op) (va : VoiceAllocator.t) (note : Z)
  (velocity : float64) (idle : Voice.t) :
  NewVoiceAllocator inst rate size = Some va0 -> run ops va0 = Some va ->
  noteMap va !! note = None ->
  idle ∈ voices va -> Voice.IsActive idle = Some false ->
  exists va1 va2,
    NoteOn va note velocity = Some va1 /\ NoteOff va1 note = Some va2 /\
    GetActiveNotes va1 = GetActiveNotes va ++ [note] /\
    noteMap va2 = noteMap va /\ GetActiveNotes va2 = GetActiveNotes va.
Proof.
  intros Hnew Hrun Hnone Hin Hidle.
  assert (Hinv : inv va).
  { destruct (inv_fresh _ _ _ _ Hnew) as [Hinv0 _].
    destruct (run_inv ops va0 Hinv0) as [_ Hpres]. apply (Hpres va Hrun). }
  pose proof Hinv as ((Hnd & Hdom & Hrng & Hok) & Hinj & HmH & Hops & Hsz).
  destruct (findInactive_spec (voices va) Hok) as [(i & v & HF & Hv & Hvi) | [_ Hall]].
  2: { rewrite Forall_forall in Hall. rewrite (Hall idle Hin) in Hidle. discriminate. }
  assert (Hokv : ok v = true) by (eapply (proj1 (Forall_lookup _ _) Hok); eauto).
  destruct (ok_NoteOn v note velocity Hokv) as (v' & E & Hok' & _).
  pose proof (NoteOn_allocate va note velocity i v v' Hnone HF Hv E) as HN.
  destruct (NoteOn_inv va note velocity Hinv) as [_ Hpost].
  destruct (Hpost _ HN) as [Hinv1 _].
  destruct (NoteOff_inv _ note Hinv1) as (va2 & HOff & _).
  destruct (NoteOff_notes _ note va2 Hinv1 HOff) as (Hl & Hm & _).
  eexists _, va2. split; [exact HN|]. split; [exact HOff|].
  unfold GetActiveNotes. split; [reflexivity|]. cbn in Hl, Hm. split.
  - rewrite Hm, delete_insert_eq. apply delete_id, Hnone.
  - rewrite Hl. apply removeNote_last. rewrite Hdom, Hnone. intros [? [=]].
Qed.

Lemma filter_all {A} (P : A -> Prop) `{!forall x, Decision (P x)} (l : list A) :
  Forall P l -> filter P l = l.
Proof.
  induction 1 as [|a l Ha _ IH]; [reflexivity|].
  rewrite filter_cons_True by assumption. rewrite IH. reflexivity.
Qed.

Lemma ReleaseChord_notes (notes : list Z) : forall va : VoiceAllocator.t,
  inv va ->
  exists va', ReleaseChord va notes = Some va' /\ inv va' /\
    activeNotes va' = filter (fun n => n ∉ notes) (activeNotes va) /\
    (forall n, noteMap va' !! n = if decide (n ∈ notes) then None else noteMap va !! n) /\
    maxVoices va' = maxVoices va.
Proof.
  induction notes as [|x notes IH]; intros va Hinv.
  - exists va. split; [reflexivity|]. split; [exact Hinv|]. split; [|split; [|reflexivity]].
    + symmetry. apply filter_all, Forall_forall. intros n _. apply not_elem_of_nil.
    + intros n. destruct (decide (n ∈ [])) as [Hin|]; [|reflexivity].
      apply elem_of_nil in Hin. contradiction.
  - destruct (NoteOff_inv va x Hinv) as (va1 & HOff & Hinv1 & Hmax1).
    destruct (NoteOff_notes va x va1 Hinv HOff) as (Hl & Hm & _).
    destruct (IH va1 Hinv1) as (va' & HR & Hinv' & Hl' & Hm' & Hmax').
    exists va'. cbn [ReleaseChord]. rewrite HOff. cbn.
    split; [exact HR|]. split; [exact Hinv'|]. split; [|split].
    + rewrite Hl', Hl. destruct Hinv as ((Hnd & _) & _).
      rewrite (removeNote_filter x _ Hnd), list_filter_filter.
      apply list_filter_iff. intros n. rewrite not_elem_of_cons. tauto.
    + intros n. rewrite Hm', Hm.
      destruct (decide (n ∈ notes)) as [Hin|Hnin], (decide (n ∈ x :: notes)) as [Hin'|Hnin'];
        try reflexivity.
      * exfalso. apply Hnin'. right. exact Hin.
      * apply elem_of_cons in Hin' as [->|Hin']; [apply lookup_delete_eq | contradiction].
      * apply not_elem_of_cons in Hnin' as [Hne _]. apply lookup_delete_ne. congruence.
    + congruence.
Qed.

(** On an allocator reached from a fresh one by any calls, [ReleaseChord]
    succeeds and takes exactly the listed notes out of the active list and
    the note map, keeping the order of the others; notes that are not
    playing, or listed twice, are passed over. *)
Theorem release_chord_removes_listed_notes (inst : Tracker.Instrument) (rate : float64)
  (size : Z) (va0 : VoiceAllocator.t) (ops : list Op) (va : VoiceAllocator.t)
  (notes : list Z) :
  NewVoiceAllocator inst rate size = Some va0 -> run ops va0 = Some va ->
  exists va', ReleaseChord va notes = Some va' /\
    GetActiveNotes va' = filter (fun n => n ∉ notes) (GetActiveNotes va) /\
    (forall n, noteMap va' !! n = if decide (n ∈ notes) then None else noteMap va !! n) /\
    GetMaxVoices va' = GetMaxVoices va.
Proof.
  intros Hnew Hrun.
  assert (Hinv : inv va).
  { destruct (inv_fresh _ _ _ _ Hnew) as [Hinv0 _].
    destruct (run_inv ops va0 Hinv0) as [_ Hpres]. apply (Hpres va Hrun). }
  destruct (ReleaseChord_notes notes va Hinv) as (va' & HR & _ & Hl & Hm & Hmax).
  exists va'. auto.
Qed.

End AllocatorRoundTrip.

(** Note 64 on the pool in which note 60 sounds. *)
Lemma note_on_off_restores_bookkeeping_witness :
  exists va1 va2,
    @VoiceAllocator.NoteOn anyMath VoiceAllocatorSpec.oneNote44k 64 f1.0 = Some va1 /\
    VoiceAllocator.NoteOff va1 64 = Some va2 /\
    VoiceAllocator.GetActiveNotes va1 =
      VoiceAllocator.GetActiveNotes VoiceAllocatorSpec.oneNote44k ++ [64] /\
    VoiceAllocator.noteMap va2 = VoiceAllocator.noteMap VoiceAllocatorSpec.oneNote44k /\
    VoiceAllocator.GetActiveNotes va2 =
      VoiceAllocator.GetActiveNotes VoiceAllocatorSpec.oneNote44k.
Proof.
  apply (@note_on_off_restores_bookkeeping anyMath Player.defaultInst (float64_of_int 44100) 4
           VoiceAllocatorSpec.fresh44k [VoiceAllocatorSpec.OpNoteOn 60 f1.0]
           VoiceAllocatorSpec.oneNote44k 64 f1.0
           (default (Voice.NewVoice Square (float64_of_int 44100))
              (VoiceAllocator.voices VoiceAllocatorSpec.oneNote44k !! 1%nat))).
  - vm_compute. reflexivity.
  - vm_compute. reflexivity.
  - vm_compute. reflexivity.
  - apply (list_elem_of_lookup_2 _ 1%nat). vm_compute. reflexivity.
  - vm_compute. reflexivity.
Defined.

(** Releasing a chord of which only one note sounds. *)
Lemma release_chord_removes_listed_notes_witness :
  exists va', VoiceAllocator.ReleaseChord VoiceAllocatorSpec.oneNote44k [60; 64; 60] = Some va' /\
    VoiceAllocator.GetActiveNotes va' =
      filter (fun n => n ∉ [60; 64; 60]) (VoiceAllocator.GetActiveNotes VoiceAllocatorSpec.oneNote44k) /\
    (forall n, VoiceAllocator.noteMap va' !! n =
               if decide (n ∈ [60; 64; 60]) then None
               else VoiceAllocator.noteMap VoiceAllocatorSpec.oneNote44k !! n) /\
    VoiceAllocator.GetMaxVoices va' = VoiceAllocator.GetMaxVoices VoiceAllocatorSpec.oneNote44k.
Proof.
  apply (@release_chord_removes_listed_notes anyMath Player.defaultInst (float64_of_int 44100) 4
           VoiceAllocatorSpec.fresh44k [VoiceAllocatorSpec.OpNoteOn 60 f1.0]).
  - vm_compute. reflexivity.
  - vm_compute. reflexivity.
Defined.

(** ** Voice allocator: silence after [AllNotesOff] *)

Section AllocatorSilence.
Context `{MathLib}.
Import VoiceSpec VoiceAllocator VoiceAllocatorSpec VoiceTail.

#[local] Arguments Voice.Next : simpl never.
#[local] Arguments Voice.IsActive : simpl never.
#[local] Arguments Voice.NoteOn : simpl never.
#[local] Arguments Voice.NoteOff : simpl never.
#[local] Arguments activeVoices : simpl never.
#[local] Arguments advanced : simpl never.
#[local] Arguments output : simpl never.

(** [n] calls of the allocator's [Next] are [n] calls of [Next] on each
    voice of an oscillator-and-envelope pool. *)
Lemma Next_run n : forall va : VoiceAllocator.t,
  Forall (fun v => subtractive v = true) (voices va) ->
  exists vs', run (replicate n OpNext) va = Some (set_voices va vs') /\
              Forall2 (fun v v' => steps n v = Some v') (voices va) vs'.
Proof.
  induction n as [|n IH]; intros va Hs.
  - exists (voices va). split; [destruct va; reflexivity|].
    apply Forall_Forall2_diag, Forall_forall. reflexivity.
  - assert (Hok : Forall (fun v => ok v = true) (voices va))
      by (eapply Forall_impl; [exact Hs | exact subtractive_ok]).
    destruct (IH (set_voices va (advanced <$> voices va))) as (vs' & Hrun & HF).
    { cbn. apply Forall_fmap. eapply Forall_impl; [exact Hs|]. intros v Hv. cbn.
      destruct (subtractive_advanced v Hv) as (s & _ & H' & _). exact H'. }
    exists vs'. cbn [replicate run apply]. rewrite (Next_spec va Hok). cbn. split.
    + rewrite Hrun. reflexivity.
    + cbn in HF. apply Forall2_fmap_l in HF.
      apply Forall2_same_length_lookup. split; [eapply Forall2_length, HF|].
      intros i v v' Hv Hv'.
      pose proof (Forall2_lookup_lr _ _ _ _ _ _ HF Hv Hv') as Hst. cbn in Hst.
      destruct (subtractive_advanced v) as (s & HN & _).
      { eapply (proj1 (Forall_lookup _ _) Hs); eauto. }
      cbn [steps]. rewrite HN. cbn. exact Hst.
Qed.

Lemma idle_pool vs :
  Forall (fun v => idle v = true) vs ->
  anyActive vs = Some false /\ activeVoices vs = [] /\ advanced <$> vs = vs.
Proof.
  induction 1 as [|v vs Hv _ (IH1 & IH2 & IH3)]; [auto|].
  pose proof (idle_IsActive v Hv) as Hi.
  split; [|split].
  - cbn. rewrite Hi. cbn. exact IH1.
  - rewrite activeVoices_cons_false by (rewrite Hi; discriminate). exact IH2.
  - cbn. rewrite IH3. f_equal. unfold advanced. rewrite Hi. reflexivity.
Qed.

(** After [AllNotesOff] on a pool of oscillator-and-envelope voices whose
    release stages are at most [r] samples long, and [r]+1 or more calls of
    [Next], every voice has fallen idle: no note is listed or mapped,
    [IsActive] is false, and [Next] returns 0 and changes nothing.  No call
    on the way panics. *)
Theorem all_notes_off_silences_pool (va : VoiceAllocator.t) (r : Z) (n : nat) :
  Forall (fun v => subtractive v = true /\ releaseSamples v <= r) (voices va) ->
  Z.max 0 r + 1 <= Z.of_nat n ->
  exists va', run (OpAllNotesOff :: replicate n OpNext) va = Some va' /\
    GetActiveNotes va' = [] /\ noteMap va' = ∅ /\
    IsActive va' = Some false /\ Next va' = Some (f0.0, va').
Proof.
  intros Hpool Hn.
  assert (Hoff : is_Some (mapM Voice.NoteOff (voices va))).
  { apply mapM_is_Some. eapply Forall_impl; [exact Hpool|]. intros v [Hv _]. cbn.
    destruct (subtractive_NoteOff v Hv) as (v1 & -> & _). eauto. }
  destruct Hoff as [vs1 Hvs1].
  pose proof (proj1 (mapM_Some _ _ _) Hvs1) as HF1.
  set (va1 := set_notes (set_voices va vs1) ∅ []).
  assert (Hs1 : Forall (fun v => subtractive v = true) (voices va1)).
  { cbn. apply Forall_lookup. intros i v1 Hv1.
    destruct (Forall2_lookup_r _ _ _ _ _ HF1 Hv1) as (v & Hv & Hoffv).
    destruct (proj1 (Forall_lookup _ _) Hpool i v Hv) as [Hsv _].
    destruct (subtractive_NoteOff v Hsv) as (v1' & E & Hs'). congruence. }
  destruct (Next_run n va1 Hs1) as (vs' & Hrun & HF).
  assert (Hidle : Forall (fun v => idle v = true) vs').
  { apply Forall_lookup. intros i vn Hvn.
    destruct (Forall2_lookup_r _ _ _ _ _ HF Hvn) as (v1 & Hv1 & Hst). cbn in Hv1.
    destruct (Forall2_lookup_r _ _ _ _ _ HF1 Hv1) as (v & Hv & Hoffv).
    destruct (proj1 (Forall_lookup _ _) Hpool i v Hv) as [Hsv Hrv].
    destruct (release_tail v v1 n Hsv Hoffv ltac:(lia)) as (vn' & Hst' & Hi). congruence. }
  destruct (idle_pool vs' Hidle) as (Hany & Hact & Hadv).
  exists (set_voices va1 vs'). split.
  - cbn [run apply]. unfold AllNotesOff. rewrite Hvs1. cbn. exact Hrun.
  - split; [reflexivity|]. split; [reflexivity|]. split; [exact Hany|].
    rewrite Next_spec.
    + cbn. rewrite Hact, Hadv. reflexivity.
    + cbn. eapply Forall_impl; [exact Hidle|]. intros v Hv. cbn.
      apply subtractive_ok. apply idle_inv in Hv as (e & Hs & _). exact Hs.
Qed.

(** [ReleaseVoice] does not touch the bookkeeping: after releasing, by its
    index, the voice that plays a note of an oscillator-and-envelope pool,
    and letting the release (at most [r] samples) run out, the note is
    still listed and mapped although its voice reports inactive.  An index
    outside the pool is ignored. *)
Theorem release_voice_leaves_note_listed (va : VoiceAllocator.t) (note : Z) (i : nat)
  (r : Z) (n : nat) :
  Forall (fun v => subtractive v = true /\ releaseSamples v <= r) (voices va) ->
  noteMap va !! note = Some i -> (i < length (voices va))%nat ->
  Z.max 0 r + 1 <= Z.of_nat n ->
  (forall k : Z, k < 0 \/ len (voices va) <= k -> ReleaseVoice va k = Some va) /\
  exists va1 va' v,
    ReleaseVoice va (Z.of_nat i) = Some va1 /\
    run (replicate n OpNext) va1 = Some va' /\
    GetActiveNotes va' = GetActiveNotes va /\
    GetVoiceForNote va' note = Some v /\ Voice.IsActive v = Some false.
Proof.
  intros Hpool Hm Hi Hn. split.
  { intros k Hk. unfold ReleaseVoice.
    destruct (Z.leb_spec 0 k), (Z.ltb_spec k (len (voices va))); cbn; try reflexivity; lia. }
  destruct (lookup_lt_is_Some_2 _ _ Hi) as [v Hv].
  destruct (proj1 (Forall_lookup _ _) Hpool i v Hv) as [Hsv Hrv].
  destruct (subtractive_NoteOff v Hsv) as (v1 & Hoff & Hs1).
  set (va1 := set_voices va (<[i := v1]> (voices va))).
  assert (HR : ReleaseVoice va (Z.of_nat i) = Some va1).
  { unfold ReleaseVoice, len.
    destruct (Z.leb_spec 0 (Z.of_nat i)), (Z.ltb_spec (Z.of_nat i) (Z.of_nat (length (voices va))));
      try lia. cbn. rewrite Nat2Z.id. exact (onVoice_Some va i _ v v1 Hv Hoff). }
  assert (Hsub : Forall (fun w => subtractive w = true) (voices va1)).
  { cbn. apply Forall_insert; [|exact Hs1].
    eapply Forall_impl; [exact Hpool|]. intros w [Hw _]. exact Hw. }
  destruct (Next_run n va1 Hsub) as (vs' & Hrun & HF).
  assert (Hv1 : voices va1 !! i = Some v1) by (cbn; apply list_lookup_insert_eq; exact Hi).
  destruct (Forall2_lookup_l _ _ _ _ _ HF Hv1) as (vn & Hvn & Hst).
  destruct (release_tail v v1 n Hsv Hoff ltac:(lia)) as (vn' & Hst' & Hidle).
  exists va1, (set_voices va1 vs'), vn.
  split; [exact HR|]. split; [exact Hrun|]. split; [reflexivity|].
  unfold GetVoiceForNote. cbn. rewrite Hm. cbn. split; [exact Hvn|].
  apply idle_IsActive. congruence.
Qed.

End AllocatorSilence.

(** The pool in which note 60 sounds; the default release lasts 8820
    samples. *)
Lemma all_notes_off_silences_pool_witness :
  exists va', @VoiceAllocatorSpec.run anyMath
                (VoiceAllocatorSpec.OpAllNotesOff :: replicate (Z.to_nat 8821) VoiceAllocatorSpec.OpNext)
                VoiceAllocatorSpec.oneNote44k = Some va' /\
    VoiceAllocator.GetActiveNotes va' = [] /\ VoiceAllocator.noteMap va' = ∅ /\
    VoiceAllocator.IsActive va' = Some false /\
    @VoiceAllocator.Next anyMath va' = Some (f0.0, va').
Proof.
  apply (@all_notes_off_silences_pool anyMath VoiceAllocatorSpec.oneNote44k 8820 (Z.to_nat 8821)).
  - apply (bool_decide_unpack _). vm_compute. reflexivity.
  - lia.
Defined.

(** The voice of note 60, released by its index. *)
Lemma release_voice_leaves_note_listed_witness :
  (forall k : Z, k < 0 \/ len (VoiceAllocator.voices VoiceAllocatorSpec.oneNote44k) <= k ->
     VoiceAllocator.ReleaseVoice VoiceAllocatorSpec.oneNote44k k =
       Some VoiceAllocatorSpec.oneNote44k) /\
  exists va1 va' v,
    VoiceAllocator.ReleaseVoice VoiceAllocatorSpec.oneNote44k (Z.of_nat 0) = Some va1 /\
    @VoiceAllocatorSpec.run anyMath (replicate (Z.to_nat 8821) VoiceAllocatorSpec.OpNext) va1
      = Some va' /\
    VoiceAllocator.GetActiveNotes va' =
      VoiceAllocator.GetActiveNotes VoiceAllocatorSpec.oneNote44k /\
    VoiceAllocator.GetVoiceForNote va' 60 = Some v /\ Voice.IsActive v = Some false.
Proof.
  apply (@release_voice_leaves_note_listed anyMath VoiceAllocatorSpec.oneNote44k 60 0%nat 8820
           (Z.to_nat 8821)).
  - apply (bool_decide_unpack _). vm_compute. reflexivity.
  - vm_compute. reflexivity.
  - vm_compute. lia.
  - lia.
Defined.

(** ** Voice allocator: pools without voices *)

Section AllocatorEmpty.
Context `{MathLib}.
Import VoiceSpec VoiceAllocator VoiceAllocatorSpec.

#[local] Arguments Voice.Next : simpl never.
#[local] Arguments Voice.IsActive : simpl never.
#[local] Arguments Voice.NoteOn : simpl never.
#[local] Arguments Voice.NoteOff : simpl never.

(** [NewVoiceAllocator] panics on a negative pool size and builds an
    allocator for size 0; on that allocator every [NoteOn] panics (there is
    no first voice to fall back on), also after any [NoteOff],
    [AllNotesOff] and [Next] calls, which all succeed. *)
Theorem pool_without_voices (inst : Tracker.Instrument) (rate : float64) (size : Z)
  (ops : list Op) (note : Z) (velocity : float64) :
  size <= 0 ->
  Forall (fun op => forall n v, op <> OpNoteOn n v) ops ->
  if size <? 0 then NewVoiceAllocator inst rate size = None
  else exists va0 va,
         NewVoiceAllocator inst rate size = Some va0 /\
         run ops va0 = Some va /\ GetVoices va = [] /\
         NoteOn va note velocity = None.
Proof.
  intros Hsize Hops. unfold NewVoiceAllocator.
  destruct (Z.ltb_spec size 0) as [Hneg|Hzero]; [reflexivity|].
  replace (Z.to_nat size) with 0%nat by lia. cbn [replicate mapM mbind option_bind mret option_ret].
  eexists. 
  match goal with |- exists va, Some ?v = _ /\ _ => set (va0 := v) end.
  assert (Hrun : forall va, voices va = [] -> noteMap va = ∅ -> activeNotes va = [] ->
                 exists va', run ops va = Some va' /\ voices va' = [] /\
                             noteMap va' = ∅ /\ activeNotes va' = []).
  { induction Hops as [|op ops Hop _ IH]; intros va Hv Hm Ha; [exists va; auto|].
    assert (Hstep : exists va1, apply va op = Some va1 /\ voices va1 = [] /\
                               noteMap va1 = ∅ /\ activeNotes va1 = []).
    { destruct op as [n v| n | |]; cbn [apply].
      - exfalso. exact (Hop n v eq_refl).
      - unfold NoteOff. rewrite Hm, lookup_empty. eauto.
      - unfold AllNotesOff. rewrite Hv. cbn. eauto.
      - unfold Next. rewrite Hv. cbn. eauto. }
    destruct Hstep as (va1 & E1 & Hv1 & Hm1 & Ha1).
    destruct (IH va1 Hv1 Hm1 Ha1) as (va' & Er & Hr).
    exists va'. cbn [run]. rewrite E1. cbn. auto. }
  destruct (Hrun va0 eq_refl eq_refl eq_refl) as (va & Er & Hv & Hm & Ha).
  exists va. split; [reflexivity|]. split; [exact Er|]. split; [exact Hv|].
  unfold NoteOn. rewrite Hm, lookup_empty, Hv, Ha. reflexivity.
Qed.

End AllocatorEmpty.

(** A pool of size 0, after a note-off and a sample. *)
Lemma pool_without_voices_witness :
  if 0 <? 0 then VoiceAllocator.NewVoiceAllocator Player.defaultInst (float64_of_int 44100) 0 = None
  else exists va0 va,
         VoiceAllocator.NewVoiceAllocator Player.defaultInst (float64_of_int 44100) 0 = Some va0 /\
         @VoiceAllocatorSpec.run anyMath
           [VoiceAllocatorSpec.OpNoteOff 60; VoiceAllocatorSpec.OpNext] va0 = Some va /\
         VoiceAllocator.GetVoices va = [] /\
         @VoiceAllocator.NoteOn anyMath va 60 f1.0 = None.
Proof.
  apply (@pool_without_voices anyMath Player.defaultInst (float64_of_int 44100) 0
           [VoiceAllocatorSpec.OpNoteOff 60; VoiceAllocatorSpec.OpNext] 60 f1.0).
  - lia.
  - repeat constructor; discriminate.
Defined.

(** ** Player: how long a module plays *)

Section PlayerLength.
Context `{MathLib}.
Import Player PlayerSpec Timing.

Lemma checked_wellSequenced m : checked m = true -> wellSequenced m.
Proof.
  unfold checked, wellSequenced. intros [Hlen Hall]%andb_true_iff.
  split; [apply Z.leb_le, Hlen|].
  apply Forall_forall. intros i Hin.
  rewrite forallb_forall in Hall. specialize (Hall i).
  rewrite <- list_elem_of_In in Hall. specialize (Hall Hin).
  destruct (index (Tracker.Patterns m) i) as [pat|]; [|discriminate].
  exists pat. split; [reflexivity | apply Z.leb_le, Hall].
Qed.

Lemma rowsOf_nonneg m i : 0 <= rowsOf m i.
Proof. unfold rowsOf. destruct (index (Tracker.Patterns m) i); lia. Qed.

Lemma rowsIn_cons m i l : rowsIn m (i :: l) = rowsOf m i + rowsIn m l.
Proof. reflexivity. Qed.

Lemma rowsIn_nonneg m l : 0 <= rowsIn m l.
Proof.
  induction l as [|i l IH]; [unfold rowsIn; cbn; lia|].
  rewrite rowsIn_cons. pose proof (rowsOf_nonneg m i). lia.
Qed.

Lemma wellSequenced_entry m i :
  wellSequenced m -> i ∈ Tracker.Sequence m ->
  exists pat, index (Tracker.Patterns m) i = Some pat /\ Tracker.Rows pat <= int_max /\
              rowsOf m i = Z.max 1 (Tracker.Rows pat).
Proof.
  intros [_ Hall] Hin. rewrite Forall_forall in Hall.
  destruct (Hall i Hin) as (pat & Hpat & Hrows).
  exists pat. unfold rowsOf. rewrite Hpat. auto.
Qed.

(** The cursor of a running player after one more sample. *)
Lemma running_advance m spr pos row counter i pat :
  len (Tracker.Sequence m) <= int_max ->
  index (Tracker.Sequence m) pos = Some i ->
  index (Tracker.Patterns m) i = Some pat ->
  0 <= row < Z.max 1 (Tracker.Rows pat) -> row < int_max ->
  0 <= counter < Z.max 1 spr -> counter < int_max ->
  advance m spr pos row counter =
    Some (if counter + 1 <? Z.max 1 spr then (pos, row, counter + 1, false)
          else if row + 1 <? Z.max 1 (Tracker.Rows pat) then (pos, row + 1, 0, false)
          else (pos + 1, 0, 0, bool_decide (len (Tracker.Sequence m) <= pos + 1))).
Proof.
  intros Hlen Hi Hpat Hrow Hrow' Hcnt Hcnt'.
  pose proof (index_lt _ _ _ Hi) as Hpos. pose proof (index_lt _ _ _ Hpat) as Hidx.
  assert (Hmin : int_min = - 2 ^ 63) by reflexivity.
  assert (Hmax : int_max = 2 ^ 63 - 1) by reflexivity.
  unfold advance.
  rewrite (wrap_small (counter + 1)) by lia.
  rewrite (wrap_small (row + 1)) by lia.
  rewrite (wrap_small (pos + 1)) by lia.
  destruct (Z.leb_spec spr (counter + 1)), (Z.ltb_spec (counter + 1) (Z.max 1 spr));
    try lia; [|reflexivity].
  destruct (Z.ltb_spec pos (len (Tracker.Sequence m))); [|lia].
  rewrite Hi. cbn [mbind option_bind].
  destruct (Z.ltb_spec i (len (Tracker.Patterns m))); [|lia].
  rewrite Hpat. cbn [mbind option_bind].
  destruct (Z.leb_spec (Tracker.Rows pat) (row + 1)),
    (Z.ltb_spec (row + 1) (Z.max 1 (Tracker.Rows pat))); try lia; reflexivity.
Qed.

Lemma running_step m spr p :
  running m spr p ->
  1 <= remaining p /\
  exists p1, after 1 p = Some p1 /\
    (1 < remaining p -> running m spr p1 /\ remaining p1 = remaining p - 1) /\
    (remaining p = 1 -> isDone p1 = true).
Proof.
  intros (Hs & Hm & Hspr & Hd & (i & Hi & Hrow) & Hcnt).
  destruct (Next_sound p Hs) as (s & p1 & E & Hs1 & Hm1 & Hspr1 & _ & Hadv).
  specialize (Hadv Hd).
  pose proof Hs as (_ & Hws & _ & Hrowb & Hcntb & _).
  rewrite Hm in Hws, Hrowb.
  pose proof (index_lt _ _ _ Hi) as Hpos.
  apply index_Some in Hi as Hi'. destruct Hi' as [_ Hi'].
  destruct (wellSequenced_entry m i Hws (list_elem_of_lookup_2 _ _ _ Hi'))
    as (pat & Hpat & _ & HR).
  rewrite HR in Hrow.
  rewrite Hm, Hspr, (running_advance m spr _ _ _ i pat (proj1 Hws) Hi Hpat Hrow
                       ltac:(lia) Hcnt ltac:(lia)) in Hadv.
  pose proof (drop_S _ _ _ Hi') as Hdrop.
  set (rest := rowsIn m (drop (S (Z.to_nat (currentPos p))) (Tracker.Sequence m))).
  assert (Hrest : 0 <= rest) by apply rowsIn_nonneg.
  assert (Hrem : remaining p =
                 Z.max 1 spr * (Z.max 1 (Tracker.Rows pat) + rest - currentRow p)
                 - sampleCounter p).
  { unfold remaining. rewrite Hm, Hspr, Hdrop. rewrite rowsIn_cons, HR. reflexivity. }
  set (S' := Z.max 1 spr) in *. set (R := Z.max 1 (Tracker.Rows pat)) in *.
  assert (HS' : 1 <= S') by (unfold S'; lia).
  assert (Hge : S' * 1 <= S' * (R + rest - currentRow p)) by (apply Z.mul_le_mono_nonneg_l; lia).
  split; [lia|].
  exists p1. split; [rewrite after_S, E; reflexivity|].
  assert (Hrem1 : remaining p1 =
                  S' * (rowsIn m (drop (Z.to_nat (currentPos p1)) (Tracker.Sequence m))
                        - currentRow p1) - sampleCounter p1).
  { unfold remaining. rewrite Hm1, Hspr1, Hm, Hspr. reflexivity. }
  destruct (Z.ltb_spec (sampleCounter p + 1) S');
    [|destruct (Z.ltb_spec (currentRow p + 1) R)];
    injection Hadv as Hp1 Hr1 Hc1 Hd1.
  - (* inside the row *)
    split; [|intros; exfalso; lia]. intros _.
    rewrite Hrem1, <- Hp1, <- Hr1, <- Hc1, Hdrop, rowsIn_cons, HR. fold rest.
    split; [|lia].
    split; [exact Hs1|]. split; [congruence|]. split; [congruence|]. split; [congruence|].
    split; [|lia]. exists i. rewrite HR, <- Hp1. split; [exact Hi | lia].
  - (* next row *)
    assert (Hge2 : S' * 2 <= S' * (R + rest - currentRow p))
      by (apply Z.mul_le_mono_nonneg_l; lia).
    split; [|intros; exfalso; lia]. intros _.
    rewrite Hrem1, <- Hp1, <- Hr1, <- Hc1, Hdrop, rowsIn_cons, HR. fold rest.
    split; [|lia].
    split; [exact Hs1|]. split; [congruence|]. split; [congruence|]. split; [congruence|].
    split; [|lia]. exists i. rewrite HR, <- Hp1. split; [exact Hi | lia].
  - (* next sequence entry, or the end *)
    assert (HRr : R + rest - currentRow p = 1 + rest) by lia.
    rewrite HRr in Hrem.
    destruct (decide (len (Tracker.Sequence m) <= currentPos p + 1)) as [Hend|Hmore].
    + assert (rest = 0) as Hr0.
      { unfold rest. rewrite drop_ge; [reflexivity|]. unfold len in Hend. lia. }
      rewrite Hr0 in Hrem.
      split; [intros; exfalso; lia|]. intros _. rewrite <- Hd1.
      apply bool_decide_eq_true_2, Hend.
    + assert (is_Some (Tracker.Sequence m !! S (Z.to_nat (currentPos p)))) as [i' Hi2].
      { apply lookup_lt_is_Some_2. unfold len in Hmore. lia. }
      destruct (wellSequenced_entry m i' Hws (list_elem_of_lookup_2 _ _ _ Hi2))
        as (pat' & Hpat' & _ & HR').
      assert (Hnext : Z.to_nat (currentPos p1) = S (Z.to_nat (currentPos p)))
        by (rewrite <- Hp1; lia).
      rewrite Hnext in Hrem1. fold rest in Hrem1.
      assert (Hrest' : 1 <= rest).
      { unfold rest. rewrite (drop_S _ _ _ Hi2), rowsIn_cons, HR'.
        pose proof (rowsIn_nonneg m (drop (S (S (Z.to_nat (currentPos p)))) (Tracker.Sequence m))).
        lia. }
      assert (Hge3 : S' * 1 <= S' * rest) by (apply Z.mul_le_mono_nonneg_l; lia).
      split; [|intros; exfalso; lia]. intros _.
      rewrite Hrem1, <- Hr1, <- Hc1.
      split; [|lia].
      split; [exact Hs1|]. split; [congruence|]. split; [congruence|].
      split; [rewrite <- Hd1; apply bool_decide_eq_false_2, Hmore|].
      split; [|lia]. exists i'. split; [|rewrite HR'; lia].
      apply index_Some. split; [lia|]. rewrite Hnext. exact Hi2.
Qed.

Lemma running_progress (k : nat) m spr : forall p,
  running m spr p -> Z.of_nat k < remaining p ->
  exists pk, after k p = Some pk /\ running m spr pk /\ remaining pk = remaining p - Z.of_nat k.
Proof.
  induction k as [|k IH]; intros p Hp Hk.
  - exists p. split; [reflexivity|]. split; [exact Hp | lia].
  - destruct (running_step m spr p Hp) as (_ & p1 & E1 & Hgo & _).
    destruct Hgo as [Hp1 He1]; [lia|].
    destruct (IH p1 Hp1) as (pk & Ek & Hpk & Hek); [lia|].
    exists pk. split; [|split; [exact Hpk | lia]].
    change (S k) with (1 + k)%nat. rewrite after_add, E1. exact Ek.
Qed.

Lemma done_stays n p : isDone p = true -> after n p = Some p.
Proof.
  intros Hd. induction n as [|n IH]; [reflexivity|].
  rewrite after_S. unfold Next. rewrite Hd. cbn. exact IH.
Qed.

(** A pass from a running state: not done before [remaining] samples,
    done from then on. *)
Lemma running_done m spr p :
  running m spr p ->
  (forall k : nat, Z.of_nat k < remaining p ->
     exists pk, after k p = Some pk /\ IsDone pk = false) /\
  (exists pN, IsDone pN = true /\
     forall k : nat, remaining p <= Z.of_nat k -> after k p = Some pN).
Proof.
  intros Hp. destruct (running_step m spr p Hp) as (Hpos & _). split.
  - intros k Hk. destruct (running_progress k m spr p Hp Hk) as (pk & E & Hpk & _).
    exists pk. split; [exact E | apply Hpk].
  - destruct (running_progress (Z.to_nat (remaining p - 1)) m spr p Hp) as (pk & E & Hpk & Hek);
      [lia|].
    destruct (running_step m spr pk Hpk) as (_ & pN & EN & _ & Hdone).
    specialize (Hdone ltac:(lia)).
    exists pN. split; [exact Hdone|]. intros k Hk.
    replace k with (Z.to_nat (remaining p - 1) + (1 + (k - Z.to_nat (remaining p)))%nat)%nat
      by lia.
    rewrite after_add, E. cbn [mbind option_bind]. rewrite after_add, EN. cbn.
    apply done_stays, Hdone.
Qed.

(** A sound player at the start of a playable module is running. *)
Lemma start_running m p :
  playable m = true -> sound p -> module p = m ->
  currentPos p = 0 -> currentRow p = 0 -> sampleCounter p = 0 -> isDone p = false ->
  running m (samplesPerRow p) p /\ remaining p = duration m (samplesPerRow p).
Proof.
  intros [Hck Hne]%andb_true_iff Hs Hm Hpos Hrow Hcnt Hd.
  apply Z.ltb_lt in Hne. pose proof (checked_wellSequenced m Hck) as Hws.
  destruct (Tracker.Sequence m) as [|i rest] eqn:Hseq; [unfold len in Hne; cbn in Hne; lia|].
  destruct (wellSequenced_entry m i Hws) as (pat & Hpat & _ & HR).
  { rewrite Hseq. apply list_elem_of_here. }
  split.
  - split; [exact Hs|]. split; [exact Hm|]. split; [reflexivity|]. split; [exact Hd|].
    split; [|lia]. exists i. rewrite Hseq, Hpos, Hrow. split; [reflexivity | rewrite HR; lia].
  - unfold remaining, duration. rewrite Hm, Hpos, Hrow, Hcnt.
    change (Z.to_nat 0) with 0%nat. rewrite drop_0, !Z.sub_0_r. reflexivity.
Qed.

(** A player built on a playable module is done after exactly
    max(1, samplesPerRow) times the number of rows of the sequence (each
    entry counting the rows of its pattern, and one when that is not
    positive): no call of [Next] panics, the player is not done before
    that many calls, and it is done, and no longer changes, after that
    many and after any more. *)
Theorem playback_length (m : Tracker.TrackerModule) (rate : float64) :
  playable m = true ->
  exists p0, NewPlayer m rate = Some p0 /\
    0 < duration m (samplesPerRow p0) /\
    (forall k : nat, Z.of_nat k < duration m (samplesPerRow p0) ->
       exists pk, after k p0 = Some pk /\ IsDone pk = false) /\
    (exists pN, IsDone pN = true /\
       forall k : nat, duration m (samplesPerRow p0) <= Z.of_nat k -> after k p0 = Some pN).
Proof.
  intros Hplay. pose proof Hplay as [Hck _]%andb_true_iff.
  destruct (NewPlayer_sound m rate (checked_wellSequenced m Hck))
    as (p0 & E & Hs & Hm & Hpos & Hrow & Hcnt & Hd & _).
  destruct (start_running m p0 Hplay Hs Hm Hpos Hrow Hcnt Hd) as [Hrun Hrem].
  exists p0. split; [exact E|]. rewrite <- Hrem.
  split; [destruct (running_step _ _ _ Hrun); lia|].
  exact (running_done _ _ _ Hrun).
Qed.

(** [Reset], at any point of the playback of a playable module (also when
    it is done), starts a whole new pass: the player is done again after
    exactly the full duration. *)
Theorem reset_replays_whole_module (m : Tracker.TrackerModule) (rate : float64)
  (p0 p : Player.t) (j : nat) :
  playable m = true -> NewPlayer m rate = Some p0 -> after j p0 = Some p ->
  IsDone (Reset p) = false /\
  VoiceAllocators (Reset p) = VoiceAllocators p /\
  (forall k : nat, Z.of_nat k < duration m (samplesPerRow p0) ->
     exists pk, after k (Reset p) = Some pk /\ IsDone pk = false) /\
  (exists pN, IsDone pN = true /\
     forall k : nat, duration m (samplesPerRow p0) <= Z.of_nat k ->
       after k (Reset p) = Some pN).
Proof.
  intros Hplay Hnew Hj. pose proof Hplay as [Hck _]%andb_true_iff.
  destruct (NewPlayer_sound m rate (checked_wellSequenced m Hck))
    as (p0' & E & Hs & Hm & _).
  assert (p0' = p0) by congruence. subst p0'.
  destruct (after_sound j p0 Hs) as (p' & Hj' & Hsp & Hmp & Hsprp).
  assert (p' = p) by congruence. subst p'.
  assert (Hsr : sound (Reset p)).
  { destruct Hsp as (Hg & Hws & _ & _ & _ & Hspr).
    split; [exact Hg|]. split; [exact Hws|]. cbn.
    assert (Hmax : int_max = 2 ^ 63 - 1) by reflexivity.
    split; [unfold len; lia|]. split; [lia|]. split; [lia | exact Hspr]. }
  destruct (start_running m (Reset p) Hplay Hsr) as [Hrun Hrem]; try reflexivity.
  { cbn. congruence. }
  change (samplesPerRow (Reset p)) with (samplesPerRow p) in *. rewrite Hsprp in *.
  split; [reflexivity|]. split; [reflexivity|]. rewrite <- Hrem.
  exact (running_done _ _ _ Hrun).
Qed.

End PlayerLength.

(** The module [fourRows] at 44.1 kHz: 4 rows of 5512 samples. *)
Lemma playback_length_witness :
  exists p0, Player.NewPlayer PlayerSpec.fourRows (float64_of_int 44100) = Some p0 /\
    0 < Timing.duration PlayerSpec.fourRows (Player.samplesPerRow p0) /\
    (forall k : nat, Z.of_nat k < Timing.duration PlayerSpec.fourRows (Player.samplesPerRow p0) ->
       exists pk, @PlayerSpec.after anyMath k p0 = Some pk /\ Player.IsDone pk = false) /\
    (exists pN, Player.IsDone pN = true /\
       forall k : nat, Timing.duration PlayerSpec.fourRows (Player.samplesPerRow p0) <= Z.of_nat k ->
         @PlayerSpec.after anyMath k p0 = Some pN).
Proof.
  apply (@playback_length anyMath PlayerSpec.fourRows (float64_of_int 44100)).
  vm_compute. reflexivity.
Defined.

(** [Reset] three samples into [fourRows]. *)
Lemma reset_replays_whole_module_witness :
  let p := default PlayerSpec.fourRowsPlayer (@PlayerSpec.after anyMath 3 PlayerSpec.fourRowsPlayer) in
  Player.IsDone (Player.Reset p) = false /\
  Player.VoiceAllocators (Player.Reset p) = Player.VoiceAllocators p /\
  (forall k : nat,
     Z.of_nat k < Timing.duration PlayerSpec.fourRows (Player.samplesPerRow PlayerSpec.fourRowsPlayer) ->
     exists pk, @PlayerSpec.after anyMath k (Player.Reset p) = Some pk /\ Player.IsDone pk = false) /\
  (exists pN, Player.IsDone pN = true /\
     forall k : nat,
       Timing.duration PlayerSpec.fourRows (Player.samplesPerRow PlayerSpec.fourRowsPlayer) <= Z.of_nat k ->
       @PlayerSpec.after anyMath k (Player.Reset p) = Some pN).
Proof.
  apply (@reset_replays_whole_module anyMath PlayerSpec.fourRows (float64_of_int 44100)
           PlayerSpec.fourRowsPlayer _ 3).
  - vm_compute. reflexivity.
  - vm_compute. reflexivity.
  - vm_compute. reflexivity.
Defined.

(** ** Player: modules that cannot be played through *)

Section PlayerStuck.
Context `{MathLib}.
Import VoiceAllocatorSpec Player PlayerSpec Timing.

#[local] Arguments VoiceAllocator.NoteOn : simpl never.
#[local] Arguments VoiceAllocator.AllNotesOff : simpl never.
#[local] Arguments VoiceAllocator.Next : simpl never.

(** [NewPlayer] succeeds on every module. *)
Lemma NewPlayer_Some m rate :
  exists vas, Forall good vas /\
    NewPlayer m rate =
      Some {| module := m; VoiceAllocators := vas; sampleRate := rate;
              currentPos := 0; currentRow := 0; sampleCounter := 0;
              samplesPerRow := samplesPerRowOf (Tracker.Tempo m) rate;
              isDone := false; maxPolyphony := 4 |}.
Proof.
  unfold NewPlayer.
  match goal with |- context [mapM ?f ?l] =>
    destruct (mapM_Forall f good l) as (vas & -> & Hgood) end.
  { intros i.
    match goal with |- context [VoiceAllocator.NewVoiceAllocator ?a ?b ?c] =>
      destruct (NewVoiceAllocator_total a b c) as [va E]; [lia|];
      destruct (inv_fresh _ _ _ _ E) as [Hinv Hmax]; exists va end.
    split; [exact E|]. split; [exact Hinv | lia]. }
  exists vas. split; [exact Hgood | reflexivity].
Qed.

Lemma stuck_processRow p :
  stuck (module p) = true -> currentPos p = 0 -> processRow p = Some p.
Proof.
  unfold stuck, processRow. intros Hst ->.
  destruct (Tracker.Sequence (module p)) as [|i rest]; [reflexivity|].
  change (len (i :: rest) <=? 0) with (Z.of_nat (S (length rest)) <=? 0).
  destruct (Z.leb_spec (Z.of_nat (S (length rest))) 0); [lia|].
  change (index (i :: rest) 0) with (Some i). cbn [mbind option_bind].
  rewrite Hst. reflexivity.
Qed.

Lemma stuck_advance m spr row counter :
  stuck m = true ->
  exists row' counter', advance m spr 0 row counter = Some (0, row', counter', false).
Proof.
  unfold stuck, advance. intros Hst.
  destruct (spr <=? wrap (counter + 1)); [|eauto].
  destruct (Tracker.Sequence m) as [|i rest]; [cbn; eauto|].
  change (0 <? len (i :: rest)) with (0 <? Z.of_nat (S (length rest))).
  destruct (Z.ltb_spec 0 (Z.of_nat (S (length rest)))); [|lia].
  change (index (i :: rest) 0) with (Some i). cbn [mbind option_bind].
  apply Z.leb_le in Hst.
  destruct (Z.ltb_spec i (len (Tracker.Patterns m))); [lia | eauto].
Qed.

Lemma stuck_step p :
  stuck (module p) = true -> Forall good (VoiceAllocators p) ->
  currentPos p = 0 -> isDone p = false ->
  exists s p1, Next p = Some (s, p1) /\ module p1 = module p /\
    Forall good (VoiceAllocators p1) /\ currentPos p1 = 0 /\ isDone p1 = false.
Proof.
  intros Hst Hgood Hpos Hd. unfold Next. rewrite Hd.
  assert (Hrow : (if sampleCounter p =? 0 then processRow p else Some p) = Some p).
  { destruct (sampleCounter p =? 0); [apply stuck_processRow; assumption | reflexivity]. }
  rewrite Hrow. cbn [mbind option_bind].
  destruct (mixChannels_good _ f0.0 Hgood) as (s & vas & -> & Hgood1). cbn.
  rewrite Hpos.
  destruct (stuck_advance (module p) (samplesPerRow p) (currentRow p) (sampleCounter p) Hst)
    as (row' & counter' & ->).
  cbn. do 2 eexists. split; [reflexivity|]. cbn. auto.
Qed.

Lemma stuck_after (k : nat) : forall p,
  stuck (module p) = true -> Forall good (VoiceAllocators p) ->
  currentPos p = 0 -> isDone p = false ->
  exists pk, after k p = Some pk /\ IsDone pk = false /\ currentPos pk = 0.
Proof.
  induction k as [|k IH]; intros p Hst Hg Hpos Hd.
  - exists p. auto.
  - destruct (stuck_step p Hst Hg Hpos Hd) as (s & p1 & E1 & Hm1 & Hg1 & Hpos1 & Hd1).
    destruct (IH p1) as (pk & Ek & Hk); [rewrite Hm1; exact Hst | assumption..|].
    exists pk. rewrite after_S, E1. cbn. auto.
Qed.

(** A module whose sequence is empty, or starts with a pattern number
    beyond the last pattern, never finishes: the player is built, no call
    of [Next] panics, and after any number of calls it is still at
    sequence position 0 and not done. *)
Theorem stuck_module_never_finishes (m : Tracker.TrackerModule) (rate : float64) :
  stuck m = true ->
  exists p0, NewPlayer m rate = Some p0 /\
    forall k : nat, exists pk,
      after k p0 = Some pk /\ IsDone pk = false /\ currentPos pk = 0.
Proof.
  intros Hst. destruct (NewPlayer_Some m rate) as (vas & Hgood & E).
  eexists. split; [exact E|].
  intros k. apply stuck_after; [exact Hst | exact Hgood | reflexivity | reflexivity].
Qed.

Lemma negative_processRow p i rest :
  Tracker.Sequence (module p) = i :: rest -> currentPos p = 0 -> i < 0 ->
  processRow p = None.
Proof.
  unfold processRow. intros Hseq -> Hi. rewrite Hseq.
  change (len (i :: rest) <=? 0) with (Z.of_nat (S (length rest)) <=? 0).
  destruct (Z.leb_spec (Z.of_nat (S (length rest))) 0); [lia|].
  change (index (i :: rest) 0) with (Some i). cbn [mbind option_bind].
  destruct (Z.leb_spec (len (Tracker.Patterns (module p))) i); [unfold len in *; lia|].
  unfold index at 1. destruct (Z.ltb_spec i 0); [reflexivity | lia].
Qed.

(** A module whose sequence starts with a negative pattern number: the
    player is built, and its first call of [Next] panics (index out of
    range). *)
Theorem negative_sequence_entry_panics (m : Tracker.TrackerModule) (rate : float64)
  (i : Z) (rest : list Z) :
  Tracker.Sequence m = i :: rest -> i < 0 ->
  exists p0, NewPlayer m rate = Some p0 /\ Next p0 = None.
Proof.
  intros Hseq Hi. destruct (NewPlayer_Some m rate) as (vas & _ & E).
  eexists. split; [exact E|].
  match goal with |- Next ?p = None =>
    assert (HP : processRow p = None)
      by (apply (negative_processRow p i rest); [exact Hseq | reflexivity | exact Hi])
  end.
  unfold Next. cbn [isDone sampleCounter Z.eqb]. rewrite HP. reflexivity.
Qed.

End PlayerStuck.

(** [fourRows] without its sequence. *)
Lemma stuck_module_never_finishes_witness :
  let m := {| Tracker.Title := "no sequence"; Tracker.Tempo := 120; Tracker.TicksPerRow := 6;
              Tracker.Patterns := Tracker.Patterns PlayerSpec.fourRows;
              Tracker.Sequence := []; Tracker.Instruments := [] |} in
  exists p0, Player.NewPlayer m (float64_of_int 44100) = Some p0 /\
    forall k : nat, exists pk,
      @PlayerSpec.after anyMath k p0 = Some pk /\ Player.IsDone pk = false /\
      Player.currentPos pk = 0.
Proof.
  apply (@stuck_module_never_finishes anyMath). reflexivity.
Defined.

(** [fourRows] with the sequence -1. *)
Lemma negative_sequence_entry_panics_witness :
  let m := {| Tracker.Title := "minus one"; Tracker.Tempo := 120; Tracker.TicksPerRow := 6;
              Tracker.Patterns := Tracker.Patterns PlayerSpec.fourRows;
              Tracker.Sequence := [-1]; Tracker.Instruments := [] |} in
  exists p0, Player.NewPlayer m (float64_of_int 44100) = Some p0 /\
             @Player.Next anyMath p0 = None.
Proof.
  apply (@negative_sequence_entry_panics anyMath _ (float64_of_int 44100) (-1) []);
    [reflexivity | lia].
Defined.

(** ** Player: [Stream] *)

Section PlayerStream.
Context `{MathLib}.
Import Player PlayerSpec Timing.

#[local] Arguments Next : simpl never.

Lemma streamFrom_spec (buf : list (float64 * float64)) : forall (p : Player.t) (i : Z),
  sound p ->
  exists (n : nat) (ss : list float64) (p' : Player.t),
    streamFrom p i buf =
      Some (((fun s => (s, s)) <$> ss) ++ drop n buf, i + Z.of_nat n,
            bool_decide (n = length buf), p') /\
    (n <= length buf)%nat /\
    render n p = Some (ss, p') /\
    (forall k : nat, (k < n)%nat -> exists pk, after k p = Some pk /\ IsDone pk = false) /\
    ((n < length buf)%nat -> IsDone p' = true).
Proof.
  induction buf as [|old rest IH]; intros p i Hs.
  - exists 0%nat, [], p. cbn. rewrite Z.add_0_r.
    split; [reflexivity|]. split; [lia|]. split; [reflexivity|]. split; intros; lia.
  - cbn [streamFrom]. destruct (isDone p) eqn:Hd.
    + exists 0%nat, [], p. cbn. rewrite Z.add_0_r.
      split; [reflexivity|]. split; [lia|]. split; [reflexivity|].
      split; [intros; lia | intros _; exact Hd].
    + destruct (Next_sound p Hs) as (s & p1 & E & Hs1 & _).
      destruct (IH p1 (i + 1) Hs1) as (n & ss & p' & HS & Hn & HR & Hbefore & Hstop).
      exists (S n), (s :: ss), p'. rewrite E. cbn [mbind option_bind]. rewrite HS.
      cbn [mbind option_bind render]. rewrite E. cbn [mbind option_bind]. rewrite HR.
      cbn [mbind option_bind fmap list_fmap app drop length].
      split.
      { replace (i + Z.of_nat (S n)) with (i + 1 + Z.of_nat n) by lia.
        rewrite (bool_decide_ext (S n = S (length rest)) (n = length rest)) by lia.
        reflexivity. }
      split; [lia|]. split; [reflexivity|]. split.
      * intros [|k] Hk; [exists p; auto|].
        destruct (Hbefore k ltac:(lia)) as (pk & Ek & Hdk).
        exists pk. rewrite after_S, E. cbn. auto.
      * intros Hlt. apply Hstop. lia.
Qed.

(** [Stream], on a player at any point of the playback of a well-sequenced
    module, does not panic; it writes the samples that [Next] returns, each
    to both channels, over the first [n] frames of the buffer and leaves
    the other frames as they were; it takes no sample from a player that
    is done; [ok] is true exactly when the buffer was filled, and the
    player is done when it was not. *)
Theorem stream_is_render_in_stereo (m : Tracker.TrackerModule) (rate : float64)
  (p0 p : Player.t) (j : nat) (buf : list (float64 * float64)) :
  checked m = true -> NewPlayer m rate = Some p0 -> after j p0 = Some p ->
  exists (n : nat) (ss : list float64) (p' : Player.t),
    Stream p buf =
      Some (((fun s => (s, s)) <$> ss) ++ drop n buf, Z.of_nat n,
            bool_decide (n = length buf), p') /\
    (n <= length buf)%nat /\
    render n p = Some (ss, p') /\
    (forall k : nat, (k < n)%nat -> exists pk, after k p = Some pk /\ IsDone pk = false) /\
    ((n < length buf)%nat -> IsDone p' = true).
Proof.
  intros Hck Hnew Hj.
  destruct (NewPlayer_sound m rate (checked_wellSequenced m Hck)) as (p0' & E & Hs & _).
  assert (p0' = p0) by congruence. subst p0'.
  destruct (after_sound j p0 Hs) as (p1 & Hj' & Hsp & _).
  assert (p1 = p) by congruence. subst p1.
  exact (streamFrom_spec buf p 0 Hsp).
Qed.

End PlayerStream.

(** A buffer of three frames, three samples into [fourRows]. *)
Lemma stream_is_render_in_stereo_witness :
  let p := default PlayerSpec.fourRowsPlayer (@PlayerSpec.after anyMath 3 PlayerSpec.fourRowsPlayer) in
  let buf := [(f0.0, f0.0); (f1.0, f1.0); (f0.0, f1.0)] in
  exists (n : nat) (ss : list float64) (p' : Player.t),
    @Player.Stream anyMath p buf =
      Some (((fun s => (s, s)) <$> ss) ++ drop n buf, Z.of_nat n,
            bool_decide (n = length buf), p') /\
    (n <= length buf)%nat /\
    @Player.render anyMath n p = Some (ss, p') /\
    (forall k : nat, (k < n)%nat ->
       exists pk, @PlayerSpec.after anyMath k p = Some pk /\ Player.IsDone pk = false) /\
    ((n < length buf)%nat -> Player.IsDone p' = true).
Proof.
  apply (@stream_is_render_in_stereo anyMath PlayerSpec.fourRows (float64_of_int 44100)
           PlayerSpec.fourRowsPlayer _ 3).
  - vm_compute. reflexivity.
  - vm_compute. reflexivity.
  - vm_compute. reflexivity.
Defined.

(** ** Player: what of a module is heard *)

Section AudibleFacts.
Context `{MathLib}.
Import Player PlayerSpec Audible.

#[local] Arguments VoiceAllocator.NoteOn : simpl never.
#[local] Arguments VoiceAllocator.AllNotesOff : simpl never.
#[local] Arguments VoiceAllocator.Next : simpl never.
#[local] Arguments processNote : simpl never.

Lemma processChannels_take (k : nat) channels : forall vas row,
  (length vas <= k)%nat ->
  processChannels (take k channels) vas row = processChannels channels vas row.
Proof.
  revert k. induction channels as [|channel channels IH]; intros k vas row Hk.
  - rewrite take_nil. reflexivity.
  - destruct vas as [|va vas]; [destruct k; reflexivity|].
    destruct k as [|k]; [cbn in Hk; lia|].
    cbn [take processChannels]. rewrite IH by (cbn in Hk; lia). reflexivity.
Qed.

Lemma processChannels_length channels : forall vas row vas',
  processChannels channels vas row = Some vas' -> length vas' = length vas.
Proof.
  induction channels as [|channel channels IH]; intros vas row vas' Hp.
  - destruct vas; injection Hp as <-; reflexivity.
  - destruct vas as [|va vas]; [injection Hp as <-; reflexivity|].
    cbn [processChannels] in Hp.
    destruct (if row <? len channel then _ else _) as [va'|]; [|discriminate].
    cbn in Hp. destruct (processChannels channels vas row) as [rest|] eqn:E; [|discriminate].
    injection Hp as <-. cbn. rewrite (IH _ _ _ E). reflexivity.
Qed.

Lemma mixChannels_length vas : forall sample s vas',
  mixChannels vas sample = Some (s, vas') -> length vas' = length vas.
Proof.
  induction vas as [|va vas IH]; intros sample s vas' Hm.
  - injection Hm as _ <-. reflexivity.
  - cbn [mixChannels] in Hm.
    destruct (VoiceAllocator.Next va) as [[s1 va1]|]; [|discriminate]. cbn in Hm.
    destruct (mixChannels vas (fadd sample s1)) as [[s2 rest]|] eqn:E; [|discriminate].
    injection Hm as _ <-. cbn. rewrite (IH _ _ _ E). reflexivity.
Qed.

Lemma samePatterns_index pats pats' i :
  Forall2 samePattern pats pats' ->
  match index pats i, index pats' i with
  | Some a, Some b => samePattern a b
  | None, None => True
  | _, _ => False
  end.
Proof.
  intros HF. unfold index. destruct (i <? 0); [exact I|].
  destruct (pats !! Z.to_nat i) as [a|] eqn:Ea.
  - destruct (Forall2_lookup_l _ _ _ _ _ HF Ea) as (b & -> & Hab). exact Hab.
  - apply lookup_ge_None in Ea. rewrite (Forall2_length _ _ _ HF) in Ea.
    apply lookup_ge_None in Ea. rewrite Ea. exact I.
Qed.

Lemma sameState_processRow p p' :
  sameState p p' ->
  match processRow p, processRow p' with
  | Some q, Some q' => sameState q q'
  | None, None => True
  | _, _ => False
  end.
Proof.
  intros Hs. pose proof Hs as ((Ht & Hseq & Hpats & Hinst) & Hvas & Hlen & Hsr & Hpos & Hrow &
                               Hcnt & Hspr & Hd & Hmp).
  assert (Hl : len (Tracker.Patterns (module p)) = len (Tracker.Patterns (module p')))
    by (unfold len; f_equal; exact (Forall2_length _ _ _ Hpats)).
  unfold processRow. rewrite <- Hseq, <- Hpos, <- Hl.
  destruct (len (Tracker.Sequence (module p)) <=? currentPos p); [exact Hs|].
  destruct (index (Tracker.Sequence (module p)) (currentPos p)) as [idx|]; [|exact I].
  cbn [mbind option_bind].
  destruct (len (Tracker.Patterns (module p)) <=? idx); [exact Hs|].
  pose proof (samePatterns_index _ _ idx Hpats) as Hidx.
  destruct (index (Tracker.Patterns (module p)) idx) as [a|],
           (index (Tracker.Patterns (module p')) idx) as [b|]; try contradiction; [|exact I].
  destruct Hidx as [_ Hch]. cbn [mbind option_bind].
  rewrite <- Hvas, <- Hrow.
  rewrite <- (processChannels_take 8 (Tracker.Channels a)) by exact Hlen.
  rewrite <- (processChannels_take 8 (Tracker.Channels b)) by exact Hlen.
  rewrite Hch.
  destruct (processChannels (take 8 (Tracker.Channels b)) (VoiceAllocators p) (currentRow p))
    as [vas|] eqn:E; [|exact I].
  cbn. pose proof (processChannels_length _ _ _ _ E) as Hl'.
  split; [exact (proj1 Hs)|]. repeat split; cbn; try assumption; try reflexivity. lia.
Qed.

Lemma sameModule_advance m m' spr pos row counter :
  sameModule m m' -> advance m spr pos row counter = advance m' spr pos row counter.
Proof.
  intros (Ht & Hseq & Hpats & Hinst). unfold advance. rewrite <- Hseq.
  destruct (spr <=? wrap (counter + 1)); [|reflexivity].
  destruct (pos <? len (Tracker.Sequence m)); [|reflexivity].
  destruct (index (Tracker.Sequence m) pos) as [idx|]; [|reflexivity].
  cbn [mbind option_bind].
  assert (Hl : len (Tracker.Patterns m) = len (Tracker.Patterns m'))
    by (unfold len; f_equal; exact (Forall2_length _ _ _ Hpats)).
  rewrite <- Hl. destruct (idx <? len (Tracker.Patterns m)); [|reflexivity].
  pose proof (samePatterns_index _ _ idx Hpats) as Hidx.
  destruct (index (Tracker.Patterns m) idx) as [a|],
           (index (Tracker.Patterns m') idx) as [b|]; try contradiction; [|reflexivity].
  destruct Hidx as [Hr _]. cbn [mbind option_bind]. rewrite Hr. reflexivity.
Qed.

Lemma sameState_Next p p' :
  sameState p p' ->
  match Next p, Next p' with
  | Some (s, q), Some (s', q') => s = s' /\ sameState q q'
  | None, None => True
  | _, _ => False
  end.
Proof.
  intros Hs. pose proof Hs as (Hm & Hvas & Hlen & Hsr & Hpos & Hrow & Hcnt & Hspr & Hd & Hmp).
  unfold Next. rewrite <- Hd, <- Hcnt.
  destruct (isDone p); [split; [reflexivity | exact Hs]|].
  assert (Hrow1 : match (if sampleCounter p =? 0 then processRow p else Some p),
                        (if sampleCounter p =? 0 then processRow p' else Some p') with
                  | Some q, Some q' => sameState q q'
                  | None, None => True
                  | _, _ => False
                  end).
  { destruct (sampleCounter p =? 0); [apply sameState_processRow, Hs | exact Hs]. }
  destruct (if sampleCounter p =? 0 then processRow p else Some p) as [q|],
           (if sampleCounter p =? 0 then processRow p' else Some p') as [q'|];
    try contradiction; [|exact I].
  cbn [mbind option_bind].
  destruct Hrow1 as (Hm1 & Hvas1 & Hlen1 & Hsr1 & Hpos1 & Hrw1 & Hcnt1 & Hspr1 & Hd1 & Hmp1).
  rewrite <- Hvas1.
  destruct (mixChannels (VoiceAllocators q) f0.0) as [[s vas]|] eqn:Emix; [|exact I].
  cbn [mbind option_bind].
  rewrite <- Hspr1, <- Hpos1, <- Hrw1, <- Hcnt1, <- (sameModule_advance _ _ _ _ _ _ Hm1).
  destruct (advance (module q) (samplesPerRow q) (currentPos q) (currentRow q) (sampleCounter q))
    as [[[[pos row] counter] d]|]; [|exact I].
  cbn. split; [reflexivity|].
  pose proof (mixChannels_length _ _ _ _ Emix) as Hl.
  split; [exact Hm1|]. repeat split; cbn; try assumption; try reflexivity. lia.
Qed.

Lemma sameState_render (n : nat) : forall p p',
  sameState p p' -> fst <$> render n p = fst <$> render n p'.
Proof.
  induction n as [|n IH]; intros p p' Hs; [reflexivity|].
  cbn [render]. pose proof (sameState_Next p p' Hs) as HN.
  destruct (Next p) as [[s q]|], (Next p') as [[s' q']|]; try contradiction; [|reflexivity].
  destruct HN as [<- Hq]. cbn [mbind option_bind].
  pose proof (IH q q' Hq) as Hr.
  destruct (render n q) as [[ss r]|], (render n q') as [[ss' r']|]; cbn in Hr |- *;
    congruence.
Qed.

Lemma mapM_ext_in {A B} (f g : A -> option B) (l : list A) :
  (forall x, x ∈ l -> f x = g x) -> mapM f l = mapM g l.
Proof.
  induction l as [|a l IH]; intros Hfg; [reflexivity|].
  cbn. rewrite (Hfg a) by apply list_elem_of_here.
  rewrite IH by (intros x Hx; apply Hfg; right; exact Hx). reflexivity.
Qed.

Lemma sameModule_NewPlayer m m' rate :
  sameModule m m' ->
  match NewPlayer m rate, NewPlayer m' rate with
  | Some p, Some p' => sameState p p'
  | None, None => True
  | _, _ => False
  end.
Proof.
  intros Hm. pose proof Hm as (Ht & Hseq & Hpats & Hinst). unfold NewPlayer.
  assert (Hlook : forall i : nat, (i < 8)%nat ->
                  Tracker.Instruments m !! i = Tracker.Instruments m' !! i).
  { intros i Hi.
    rewrite <- (lookup_take_lt (Tracker.Instruments m) 8 i) by exact Hi.
    rewrite <- (lookup_take_lt (Tracker.Instruments m') 8 i) by exact Hi.
    rewrite Hinst. reflexivity. }
  match goal with |- match (mapM ?f ?l ≫= _) with _ => _ end =>
    rewrite (mapM_ext_in f
               (fun i : nat =>
                  VoiceAllocator.NewVoiceAllocator
                    (default defaultInst (Tracker.Instruments m' !! i)) rate 4) l)
  end.
  2: { intros i Hi%elem_of_seq. rewrite Hlook by lia. reflexivity. }
  rewrite Ht.
  match goal with |- match (?x ≫= _) with _ => _ end => destruct x as [vas|] eqn:E end;
    [|exact I].
  cbn. assert (Hlen : length vas = 8%nat).
  { apply length_mapM in E. rewrite <- E. reflexivity. }
  split; [exact Hm|]. repeat split; cbn; try assumption; try reflexivity. lia.
Qed.

(** The player hears of a module only its tempo, its sequence, its first
    8 instruments, and of every pattern the row count and the first 8
    channels: two modules that agree on these give the same samples, call
    by call (and panic at the same call, if they do), whatever their
    titles, ticks per row, further instruments and further channels. *)
Theorem player_reads_eight_channels (m m' : Tracker.TrackerModule) (rate : float64)
  (n : nat) :
  sameModule m m' ->
  fst <$> (NewPlayer m rate ≫= render n) = fst <$> (NewPlayer m' rate ≫= render n).
Proof.
  intros Hm. pose proof (sameModule_NewPlayer m m' rate Hm) as HP.
  destruct (NewPlayer m rate) as [p|], (NewPlayer m' rate) as [p'|]; try contradiction;
    [|reflexivity].
  cbn [mbind option_bind]. apply sameState_render, HP.
Qed.

End AudibleFacts.

(** [fourRowsPadded] and [fourRowsAndMore], 12000 samples. *)
Lemma player_reads_eight_channels_witness :
  fst <$> (Player.NewPlayer Audible.fourRowsPadded (float64_of_int 44100)
             ≫= @Player.render anyMath (Z.to_nat 12000)) =
  fst <$> (Player.NewPlayer Audible.fourRowsAndMore (float64_of_int 44100)
             ≫= @Player.render anyMath (Z.to_nat 12000)).
Proof.
  apply (@player_reads_eight_channels anyMath Audible.fourRowsPadded Audible.fourRowsAndMore).
  split; [reflexivity|]. split; [reflexivity|]. split; [|reflexivity].
  constructor; [|constructor]. split; reflexivity.
Defined.

(** ** The WAV writer *)

Section WAVFacts.
Import WAV WAVSpec.

Lemma wrap_mod z : wrap z mod 2 ^ 64 = z mod 2 ^ 64.
Proof.
  unfold wrap.
  rewrite Zminus_mod, Z.mod_mod by lia.
  rewrite <- Zminus_mod. f_equal. lia.
Qed.

Lemma mod64_mod32 z : (z mod 2 ^ 64) mod 2 ^ 32 = z mod 2 ^ 32.
Proof.
  apply Z.mod_mod_divide. exists (2 ^ 32). reflexivity.
Qed.

Lemma uint32_wrap z : uint32 (wrap z) = uint32 z.
Proof. unfold uint32. rewrite <- (mod64_mod32 (wrap z)), wrap_mod. apply mod64_mod32. Qed.

Lemma uint32_add a b : uint32 (a + b) = uint32 (a + uint32 b).
Proof. unfold uint32. rewrite Zplus_mod_idemp_r. reflexivity. Qed.

Lemma uint32_mul a b : uint32 (a * b) = uint32 (uint32 a * b).
Proof. unfold uint32. rewrite Zmult_mod_idemp_l. reflexivity. Qed.

Lemma uint32_times4 k n :
  uint32 k = uint32 n -> uint32 (wrap (wrap (k * 2) * 2)) = (4 * n) mod 2 ^ 32.
Proof.
  intros Hk.
  rewrite uint32_wrap, uint32_mul, uint32_wrap, <- uint32_mul.
  rewrite <- Z.mul_assoc. change (2 * 2) with 4.
  rewrite uint32_mul, Hk, <- uint32_mul. unfold uint32. f_equal. lia.
Qed.

Lemma fileSize_spec w n :
  uint32 (numSamples w) = uint32 n -> fileSize w = (36 + 4 * n) mod 2 ^ 32.
Proof.
  intros Hk. unfold fileSize.
  rewrite uint32_wrap, uint32_add, (uint32_times4 _ n Hk).
  unfold uint32. rewrite Zplus_mod_idemp_r. reflexivity.
Qed.

Lemma dataSize_spec w n :
  uint32 (numSamples w) = uint32 n -> dataSize w = (4 * n) mod 2 ^ 32.
Proof. intros Hk. unfold dataSize. exact (uint32_times4 _ n Hk). Qed.

(** Writing at the end of the file appends. *)
Lemma write_append f bs :
  offset f = len (contents f) ->
  write f bs = {| contents := contents f ++ bs; offset := len (contents f ++ bs) |}.
Proof.
  intros Hoff. unfold write. rewrite Hoff. unfold len. rewrite Nat2Z.id, Nat.sub_diag.
  cbn [replicate]. rewrite app_nil_r, take_ge, drop_ge by lia.
  rewrite app_nil_r, length_app, Nat2Z.inj_add. reflexivity.
Qed.

Lemma writes_append (chunks : list (list Z)) : forall f,
  offset f = len (contents f) ->
  foldl write f chunks =
    {| contents := contents f ++ concat chunks; offset := len (contents f ++ concat chunks) |}.
Proof.
  induction chunks as [|bs chunks IH]; intros f Hoff.
  - cbn. rewrite app_nil_r, <- Hoff. destruct f; reflexivity.
  - cbn [foldl concat]. rewrite (write_append f bs Hoff), IH by reflexivity.
    cbn. rewrite <- app_assoc. reflexivity.
Qed.

(** Writing inside the file replaces what is there. *)
Lemma write_over pre old post bs off :
  off = len pre -> length old = length bs ->
  contents (write {| contents := pre ++ old ++ post; offset := off |} bs) = pre ++ bs ++ post.
Proof.
  intros -> Hlen. unfold write, len. cbn [contents offset]. rewrite Nat2Z.id.
  replace (length pre - length (pre ++ old ++ post))%nat with 0%nat
    by (rewrite length_app; lia).
  cbn [replicate]. rewrite app_nil_r.
  rewrite take_app_length.
  rewrite drop_app_ge by lia.
  replace (length pre + length bs - length pre)%nat with (length old) by lia.
  rewrite drop_app_length. reflexivity.
Qed.

Lemma le32_length v : length (le32 v) = 4%nat.
Proof. reflexivity. Qed.

Lemma writeAll_cons w frame frames :
  writeAll w (frame :: frames) = writeAll (WriteSample w (fst frame) (snd frame)) frames.
Proof. reflexivity. Qed.

Lemma WriteSample_file w l r :
  offset (file w) = len (contents (file w)) ->
  file (WriteSample w l r) =
    {| contents := contents (file w) ++ frameBytes (l, r);
       offset := len (contents (file w) ++ frameBytes (l, r)) |}.
Proof.
  intros Hoff. unfold WriteSample. cbn [file].
  match goal with |- write (write ?f ?a) ?b = _ =>
    change (write (write f a) b) with (foldl write f [a; b]) end.
  rewrite (writes_append _ (file w) Hoff). cbn [concat]. rewrite app_nil_r. reflexivity.
Qed.

Lemma uint32_succ k n : uint32 k = uint32 n -> uint32 (wrap (k + 1)) = uint32 (n + 1).
Proof.
  intros Hk. rewrite uint32_wrap, Z.add_comm, uint32_add, Hk, <- uint32_add.
  f_equal. lia.
Qed.

Lemma writeAll_spec frames : forall w n,
  offset (file w) = len (contents (file w)) ->
  uint32 (numSamples w) = uint32 n ->
  contents (file (writeAll w frames)) = contents (file w) ++ flat_map frameBytes frames /\
  offset (file (writeAll w frames)) = len (contents (file (writeAll w frames))) /\
  sampleRate (writeAll w frames) = sampleRate w /\
  uint32 (numSamples (writeAll w frames)) = uint32 (n + len frames).
Proof.
  induction frames as [|[l r] frames IH]; intros w n Hoff Hn.
  - cbn. rewrite app_nil_r, Z.add_0_r. auto.
  - rewrite writeAll_cons. cbn [fst snd].
    pose proof (WriteSample_file w l r Hoff) as HW.
    destruct (IH (WriteSample w l r) (n + 1)) as (Hc & Ho & Hsr & Hk).
    + rewrite HW. reflexivity.
    + apply uint32_succ, Hn.
    + split; [|split; [exact Ho|split; [exact Hsr|]]].
      * rewrite Hc, HW. cbn [contents flat_map]. rewrite <- app_assoc. reflexivity.
      * rewrite Hk. f_equal. unfold len. cbn [length]. lia.
Qed.

Lemma header_written sr k n :
  uint32 k = uint32 n ->
  let w := writeHeader {| file := {| contents := []; offset := 0 |};
                          sampleRate := sr; numSamples := k |} in
  contents (file w) = headerBytes sr n /\ offset (file w) = 44 /\
  sampleRate w = sr /\ numSamples w = k.
Proof.
  intros Hk. cbn zeta. unfold writeHeader.
  match goal with |- context [on_file ?w0 ?f] =>
    match f with
    | write (write (write (write (write (write (write (write (write (write (write (write
        (write ?f0 ?b1) ?b2) ?b3) ?b4) ?b5) ?b6) ?b7) ?b8) ?b9) ?b10) ?b11) ?b12) ?b13 =>
        change f with (foldl write f0 [b1; b2; b3; b4; b5; b6; b7; b8; b9; b10; b11; b12; b13])
    end
  end.
  rewrite writes_append by reflexivity.
  cbn [on_file file contents offset sampleRate numSamples concat app].
  rewrite (fileSize_spec _ n) by exact Hk. rewrite (dataSize_spec _ n) by exact Hk.
  rewrite uint32_wrap, uint32_mul, uint32_wrap, <- uint32_mul.
  replace (sr * 2 * 2) with (4 * sr) by lia.
  split; [|split; [|split]]; reflexivity.
Qed.

Lemma headerBytes_split sr n :
  headerBytes sr n =
    bytes "RIFF" ++ le32 ((36 + 4 * n) mod 2 ^ 32) ++ headerMiddle sr ++
    le32 ((4 * n) mod 2 ^ 32).
Proof. reflexivity. Qed.

Lemma payload_length frames : len (flat_map frameBytes frames) = 4 * len frames.
Proof.
  unfold len. induction frames as [|fr frames IH]; [reflexivity|].
  cbn [flat_map]. rewrite length_app. cbn [length frameBytes le16 app]. lia.
Qed.

(** What [Close] leaves of a file that holds a header and a payload. *)
Lemma Close_contents w sr k payload n :
  contents (file w) = headerBytes sr k ++ payload ->
  uint32 (numSamples w) = uint32 n ->
  contents (file (Close w)) = headerBytes sr n ++ payload.
Proof.
  intros Hc Hn. unfold Close, seek. cbn [file on_file contents].
  rewrite (fileSize_spec w n Hn), (dataSize_spec w n Hn), Hc.
  rewrite !headerBytes_split, <- !app_assoc.
  rewrite write_over by reflexivity.
  match goal with |- contents (write {| contents := ?a ++ ?b ++ ?c ++ ?d ++ ?e; offset := _ |} _) = _ =>
    replace (a ++ b ++ c ++ d ++ e) with ((a ++ b ++ c) ++ d ++ e)
      by (rewrite <- !app_assoc; reflexivity)
  end.
  rewrite write_over by reflexivity.
  rewrite <- !app_assoc. reflexivity.
Qed.

Lemma written_file sr frames :
  contents (file (Close (writeAll (writeHeader (NewWAVWriter sr)) frames))) =
    headerBytes sr (len frames) ++ flat_map frameBytes frames.
Proof.
  destruct (header_written sr 0 0 eq_refl) as (Hh & Ho & Hsr & Hk).
  fold (NewWAVWriter sr) in Hh, Ho, Hsr, Hk.
  set (w1 := writeHeader (NewWAVWriter sr)) in *.
  destruct (writeAll_spec frames w1 0) as (Hc & _ & _ & Hn).
  { rewrite Ho, Hh. reflexivity. }
  { rewrite Hk. reflexivity. }
  rewrite Hh in Hc. rewrite Z.add_0_l in Hn.
  exact (Close_contents _ _ _ _ _ Hc Hn).
Qed.

(** A file written by [writeHeader], any number of [WriteSample] calls and
    [Close] holds the 44-byte header of a file of that many frames
    followed by 4 bytes per frame, and nothing else; [Close] has set the
    RIFF size field to the length of the file minus 8 and the data size
    field to the length of the payload, both modulo 2^32. *)
Theorem closed_file_layout (sampleRate : Z) (frames : list (float64 * float64)) :
  let w := Close (writeAll (writeHeader (NewWAVWriter sampleRate)) frames) in
  contents (file w) = headerBytes sampleRate (len frames) ++ flat_map frameBytes frames /\
  len (contents (file w)) = 44 + 4 * len frames /\
  take 4 (drop 4 (contents (file w))) = le32 ((len (contents (file w)) - 8) mod 2 ^ 32) /\
  take 4 (drop 40 (contents (file w))) = le32 ((len (contents (file w)) - 44) mod 2 ^ 32).
Proof.
  cbn zeta. pose proof (written_file sampleRate frames) as HC.
  set (w := Close (writeAll (writeHeader (NewWAVWriter sampleRate)) frames)) in *.
  assert (Hlen : len (contents (file w)) = 44 + 4 * len frames).
  { rewrite HC. unfold len at 1. rewrite length_app, Nat2Z.inj_add.
    fold (len (flat_map frameBytes frames)). rewrite payload_length. reflexivity. }
  split; [exact HC|]. split; [exact Hlen|]. rewrite Hlen, HC, headerBytes_split.
  replace (44 + 4 * len frames - 8) with (36 + 4 * len frames) by lia.
  replace (44 + 4 * len frames - 44) with (4 * len frames) by lia.
  split; reflexivity.
Qed.

End WAVFacts.

(** ** Rendering a module to a WAV file *)

Section RenderFacts.
Context `{MathLib}.
Import Player PlayerSpec Timing WAV WAVSpec.

#[local] Arguments Player.Next : simpl never.





End RenderFacts.



(** ** Reading patterns from a VTM file *)

Section LoaderFacts.
Import GoString TrackerFile LoaderSpec.

Lemma make_Some {A} (size n : Z) (x : A) l :
  make size n x = Some l -> 0 <= n /\ l = replicate (Z.to_nat n) x.
Proof.
  unfold make. destruct (Z.ltb_spec n 0); [discriminate|].
  destruct (maxAlloc <? size * n); [discriminate|]. intros [= <-]. auto.
Qed.

Lemma mapM_const {A B} (y : option B) (l : list A) :
  mapM (fun _ => y) l =
    match l, y with
    | [], _ => Some []
    | _, Some x => Some (replicate (length l) x)
    | _, None => None
    end.
Proof.
  induction l as [|a l IH]; [reflexivity|]. cbn. rewrite IH.
  destruct y as [x|]; [|reflexivity]. cbn. destruct l; reflexivity.
Qed.

Lemma ParseNote_not_special s : -1 <= ParseNote s <= 108.
Proof.
  destruct s as [|noteName [|c1 [|c2 rest']]]; cbn [ParseNote]; try lia.
  set (octave := byte_sub (byte_of c2) (byte_of "0")).
  assert (Ho : 0 <= octave < 256) by (apply Z.mod_pos_bound; lia).
  destruct (Z.ltb_spec octave 0), (Z.ltb_spec 8 octave); cbn [orb]; try lia.
  destruct (noteValueOf noteName) as [v|] eqn:Hv; [|lia].
  assert (0 <= v <= 11).
  { revert Hv. unfold noteValueOf.
    repeat match goal with |- context [Ascii.eqb ?a ?b] => destruct (Ascii.eqb a b) end;
      intros [= <-]; lia. }
  assert (Hmin : int_min = - 2 ^ 63) by reflexivity.
  assert (Hmax : int_max = 2 ^ 63 - 1) by reflexivity.
  rewrite (wrap_small (octave * 12)) by lia.
  destruct (Ascii.eqb c1 "#").
  - rewrite (wrap_small (v + 1)) by lia. rewrite wrap_small by lia. lia.
  - rewrite wrap_small by lia. lia.
Qed.

Lemma parseTrackerNote_plain s : plain (parseTrackerNote s).
Proof.
  unfold parseTrackerNote, plain.
  destruct (_ || _ || _)%bool; [cbn; repeat split; try reflexivity; lia|].
  destruct (_ || _ || _)%bool; [cbn; repeat split; try reflexivity; lia|].
  cbn. pose proof (ParseNote_not_special s). repeat split; try reflexivity; lia.
Qed.

(** What the PATTERN directive leaves as the open pattern. *)
Lemma casePATTERN_spec cur command rowsField channelsField more :
  casePATTERN cur (command :: rowsField :: channelsField :: more) =
    if (Atoi channelsField <? 0) || (2 ^ 48 <? 24 * Atoi channelsField) ||
       ((0 <? Atoi channelsField) &&
        ((Atoi rowsField <? 0) || (2 ^ 48 <? 40 * Atoi rowsField)))
    then None
    else Some (Some {| Tracker.Rows := Atoi rowsField;
                       Tracker.Channels :=
                         replicate (Z.to_nat (Atoi channelsField))
                           (replicate (Z.to_nat (Atoi rowsField)) rest) |}).
Proof.
  unfold casePATTERN.
  change (2 <? len (command :: rowsField :: channelsField :: more))
    with (2 <? Z.of_nat (S (S (S (length more))))).
  destruct (Z.ltb_spec 2 (Z.of_nat (S (S (S (length more)))))); [|lia].
  change (index (command :: rowsField :: channelsField :: more) 1) with (Some rowsField).
  change (index (command :: rowsField :: channelsField :: more) 2) with (Some channelsField).
  cbn [mbind option_bind]. unfold make, maxAlloc, sizeofSlice, sizeofTrackerNote.
  destruct ((Atoi channelsField <? 0) || (2 ^ 48 <? 24 * Atoi channelsField)) eqn:Hc;
    [reflexivity|].
  apply orb_false_elim in Hc as [Hc _]. apply Z.ltb_ge in Hc.
  cbn [mbind option_bind orb]. rewrite mapM_const, length_replicate.
  destruct (Z.ltb_spec 0 (Atoi channelsField)) as [Hc'|Hc'].
  - destruct (Z.to_nat (Atoi channelsField)) as [|k] eqn:Hk; [lia|].
    cbn [replicate andb].
    destruct ((Atoi rowsField <? 0) || (2 ^ 48 <? 40 * Atoi rowsField)); reflexivity.
  - replace (Z.to_nat (Atoi channelsField)) with 0%nat by lia. reflexivity.
Qed.

Lemma casePATTERN_wellFormed cur parts pat :
  casePATTERN cur parts = Some (Some pat) ->
  (forall old, cur = Some old -> wellFormed old) -> wellFormed pat.
Proof.
  destruct parts as [|command [|rowsField [|channelsField more]]];
    try (unfold casePATTERN, len; cbn; intros [= ->] Hcur; apply Hcur; reflexivity).
  rewrite casePATTERN_spec.
  destruct (Z.ltb_spec (Atoi channelsField) 0); [discriminate|].
  destruct (2 ^ 48 <? 24 * Atoi channelsField); [discriminate|].
  destruct (Z.ltb_spec 0 (Atoi channelsField)), (Z.ltb_spec (Atoi rowsField) 0);
    cbn [orb andb]; try discriminate;
    try (destruct (2 ^ 48 <? 40 * Atoi rowsField); [discriminate|]);
    intros [= <-] _; split; cbn.
  all: try (replace (Z.to_nat (Atoi channelsField)) with 0%nat by lia; constructor).
  - apply Forall_replicate. unfold len. rewrite length_replicate. cbn [Tracker.Rows]. lia.
  - apply Forall_replicate, Forall_replicate. unfold plain, rest. cbn.
    repeat split; try reflexivity; lia.
Qed.

(** The loop over the note fields of a CH line on a rectangular pattern:
    the fields are read into the rows of the channel from [row] on, as far
    as the pattern has rows. *)
Lemma chLoop_spec fields : forall pat c row channel,
  rectangular pat -> 0 <= row -> 0 <= c ->
  Tracker.Channels pat !! Z.to_nat c = Some channel ->
  chLoop pat c fields row =
    Some {| Tracker.Rows := Tracker.Rows pat;
            Tracker.Channels :=
              <[Z.to_nat c :=
                  take (Z.to_nat row) channel ++
                  (parseTrackerNote <$> take (Z.to_nat (Tracker.Rows pat - row)) fields) ++
                  drop (Z.to_nat row + length (take (Z.to_nat (Tracker.Rows pat - row)) fields))
                       channel]>
                (Tracker.Channels pat) |}.
Proof.
  induction fields as [|field fields IH]; intros pat c row channel Hrect Hrow Hc Hch.
  - cbn. rewrite take_nil. cbn. rewrite Nat.add_0_r, take_drop, list_insert_id by exact Hch.
    destruct pat; reflexivity.
  - cbn [chLoop].
    pose proof (proj1 (Forall_lookup _ _) Hrect _ _ Hch) as Hlen. cbn in Hlen. unfold len in Hlen.
    destruct (Z.leb_spec (Tracker.Rows pat) row) as [Hend|Hin].
    + replace (Z.to_nat (Tracker.Rows pat - row)) with 0%nat by lia. cbn.
      rewrite Nat.add_0_r, take_drop, list_insert_id by exact Hch.
      destruct pat; reflexivity.
    + pose proof (lookup_lt_Some _ _ _ Hch) as Hlt.
      destruct (Z.ltb_spec c (len (Tracker.Channels pat))); [|unfold len in *; lia].
      assert (Hidx : index (Tracker.Channels pat) c = Some channel)
        by (apply index_Some; auto).
      rewrite Hidx. cbn [mbind option_bind].
      destruct (index_in_range channel row) as [old Hold]; [unfold len; lia|].
      rewrite Hold. cbn [mbind option_bind].
      set (channel' := <[Z.to_nat row := parseTrackerNote field]> channel).
      set (pat' := {| Tracker.Rows := Tracker.Rows pat;
                      Tracker.Channels := <[Z.to_nat c := channel']> (Tracker.Channels pat) |}).
      assert (Hlen' : length channel' = length channel) by apply length_insert.
      rewrite (IH pat' c (row + 1) channel').
      * cbn. rewrite list_insert_insert_eq. f_equal. f_equal. f_equal.
        replace (Z.to_nat (Tracker.Rows pat - row)) with (S (Z.to_nat (Tracker.Rows pat - (row + 1))))
          by lia.
        replace (Z.to_nat (row + 1)) with (S (Z.to_nat row)) by lia.
        cbn [take fmap list_fmap length].
        set (k := length (take (Z.to_nat (Tracker.Rows pat - (row + 1))) fields)).
        unfold channel'.
        rewrite (take_S_r _ _ (parseTrackerNote field))
          by (apply list_lookup_insert_eq; lia).
        rewrite take_insert_ge by lia.
        rewrite drop_insert_lt by lia.
        rewrite <- app_assoc.
        replace (Z.to_nat row + S k)%nat with (S (Z.to_nat row) + k)%nat by lia. reflexivity.
      * unfold rectangular. cbn. apply Forall_insert; [exact Hrect|]. unfold len. rewrite Hlen'. exact Hlen.
      * lia.
      * exact Hc.
      * cbn. apply list_lookup_insert_eq. exact Hlt.
Qed.

Lemma chLoop_beyond fields : forall pat c row,
  len (Tracker.Channels pat) <= c -> chLoop pat c fields row = Some pat.
Proof.
  induction fields as [|field fields IH]; intros pat c row Hc; [reflexivity|].
  cbn [chLoop]. destruct (Tracker.Rows pat <=? row); [reflexivity|].
  destruct (Z.ltb_spec c (len (Tracker.Channels pat))); [lia|].
  cbn [mbind option_bind]. apply IH, Hc.
Qed.

Lemma chLoop_wellFormed fields : forall pat c row pat',
  wellFormed pat -> 0 <= row -> chLoop pat c fields row = Some pat' -> wellFormed pat'.
Proof.
  intros pat c row pat' [Hrect Hplain] Hrow Hloop.
  destruct (Z.ltb_spec c 0) as [Hneg|Hc].
  { (* a negative channel: nothing is written before the panic *)
    destruct fields as [|field fields]; cbn [chLoop] in Hloop; [injection Hloop as <-; split; auto|].
    destruct (Tracker.Rows pat <=? row); [injection Hloop as <-; split; auto|].
    destruct (Z.ltb_spec c (len (Tracker.Channels pat))); [|unfold len in *; lia].
    unfold index in Hloop. destruct (Z.ltb_spec c 0); [discriminate | lia]. }
  destruct (Tracker.Channels pat !! Z.to_nat c) as [channel|] eqn:Hch.
  - rewrite (chLoop_spec fields pat c row channel Hrect Hrow Hc Hch) in Hloop.
    injection Hloop as <-.
    pose proof (proj1 (Forall_lookup _ _) Hrect _ _ Hch) as Hlen. cbn in Hlen. unfold len in Hlen.
    pose proof (proj1 (Forall_lookup _ _) Hplain _ _ Hch) as Hpl.
    split; [unfold rectangular|]; cbn; (apply Forall_insert; [assumption|]).
    + unfold len. rewrite !length_app, length_fmap, length_take, length_drop, length_take. lia.
    + apply Forall_app. split; [apply Forall_take, Hpl|].
      apply Forall_app. split; [|apply Forall_drop, Hpl].
      apply Forall_fmap, Forall_forall. intros f _. apply parseTrackerNote_plain.
  - rewrite chLoop_beyond in Hloop by (apply lookup_ge_None in Hch; unfold len; lia).
    injection Hloop as <-. split; auto.
Qed.

Lemma directive_wellFormed st parts st' :
  directive st parts = Some st' ->
  (Forall wellFormed (Patterns st) /\
   forall pat, currentPattern st = Some pat -> wellFormed pat) ->
  Forall wellFormed (Patterns st') /\
  forall pat, currentPattern st' = Some pat -> wellFormed pat.
Proof.
  intros Hd [Hpats Hcur]. unfold directive in Hd.
  destruct parts as [|command args]; [injection Hd as <-; auto|].
  destruct (String.eqb command "PATTERN").
  { destruct (casePATTERN (currentPattern st) (command :: args)) as [cur|] eqn:HP; [|discriminate].
    injection Hd as <-. cbn. split; [exact Hpats|]. intros pat ->.
    exact (casePATTERN_wellFormed _ _ _ HP Hcur). }
  destruct (String.eqb command "CH").
  { destruct (caseCH (currentPattern st) (command :: args)) as [cur|] eqn:HC; [|discriminate].
    injection Hd as <-. cbn. split; [exact Hpats|]. intros pat ->.
    unfold caseCH in HC. destruct (currentPattern st) as [old|]; [|discriminate].
    destruct (3 <=? len (command :: args)); [|injection HC as <-; auto].
    destruct (index (command :: args) 1) as [p1|]; [|discriminate]. cbn in HC.
    destruct (chLoop old _ _ 0) as [pat'|] eqn:HL; [|discriminate].
    injection HC as <-.
    exact (chLoop_wellFormed _ _ _ _ _ (Hcur old eq_refl) (Z.le_refl 0) HL). }
  destruct (String.eqb command "ENDPATTERN").
  { destruct (currentPattern st) as [old|] eqn:Hold; injection Hd as <-; cbn.
    - split; [|discriminate]. apply Forall_app. split; [exact Hpats|].
      constructor; [|constructor]. first [apply Hcur; reflexivity | apply Hcur; exact Hold].
    - split; [exact Hpats|]. rewrite Hold. discriminate. }
  destruct (String.eqb command "SEQUENCE"); injection Hd as <-; cbn; auto.
Qed.

Lemma load_wellFormed (lines : list (list string)) : forall st0 st : Loader,
  (Forall wellFormed (Patterns st0) /\
   forall pat, currentPattern st0 = Some pat -> wellFormed pat) ->
  load st0 lines = Some st ->
  Forall wellFormed (Patterns st) /\
  forall pat, currentPattern st = Some pat -> wellFormed pat.
Proof.
  induction lines as [|parts lines IH]; intros st0 st Hinv Hload.
  - injection Hload as <-. exact Hinv.
  - cbn [load] in Hload.
    destruct (directive st0 parts) as [st1|] eqn:Hd; [|discriminate].
    exact (IH st1 st (directive_wellFormed _ _ _ Hd Hinv) Hload).
Qed.

(** Whatever the lines of the file, the patterns that the loader has
    collected, and the one it is filling, are rectangular (every channel
    has exactly [Rows] entries), and every note in them is a rest, a
    note-off or a note from 0 to 108, with instrument 0, volume 1.0 and no
    chord. *)
Theorem loaded_patterns_are_rectangular (lines : list (list string)) (st : Loader) :
  load start lines = Some st ->
  Forall wellFormed (Patterns st) /\
  forall pat, currentPattern st = Some pat -> wellFormed pat.
Proof.
  intros Hload. apply (load_wellFormed lines start st); [|exact Hload].
  split.
  - constructor.
  - intros pat Hopen. discriminate Hopen.
Qed.

(** A PATTERN directive with at least two arguments panics exactly when
    [make] refuses the channel count (negative, or more than 2^48 bytes of
    slice headers, 24 bytes each), or the channel count is positive and
    [make] refuses the row count (negative, or more than 2^48 bytes of
    notes, 40 bytes each); otherwise it opens a pattern of that many rows
    and channels, all rests, and drops the pattern that was open.
    Arguments that are not numbers count as 0.  Whether the machine has
    the memory for a pattern within these limits is not part of the
    model. *)
Theorem pattern_directive (st : Loader) (rowsField channelsField : string)
  (more : list string) :
  directive st ("PATTERN"%string :: rowsField :: channelsField :: more) =
    if (Atoi channelsField <? 0) || (2 ^ 48 <? 24 * Atoi channelsField) ||
       ((0 <? Atoi channelsField) &&
        ((Atoi rowsField <? 0) || (2 ^ 48 <? 40 * Atoi rowsField)))
    then None
    else Some {| currentPattern :=
                   Some {| Tracker.Rows := Atoi rowsField;
                           Tracker.Channels :=
                             replicate (Z.to_nat (Atoi channelsField))
                               (replicate (Z.to_nat (Atoi rowsField)) rest) |};
                 Patterns := Patterns st; Sequence := Sequence st |}.
Proof.
  unfold directive. change (String.eqb "PATTERN" "PATTERN") with true. cbv iota.
  rewrite casePATTERN_spec.
  destruct (_ || _ || _)%bool; reflexivity.
Qed.

(** A CH line with at least one note field, while a pattern is open: with
    a negative channel number it panics (when the pattern has a row);
    with a channel number beyond the pattern it changes nothing; otherwise
    the fields become the first rows of that channel, as far as the
    pattern has rows, and the other rows and channels stay as they are. *)
Theorem ch_directive (lines : list (list string)) (st : Loader) (pat : Tracker.Pattern)
  (chanField field : string) (fields : list string) :
  load start lines = Some st -> currentPattern st = Some pat ->
  let c := Atoi (TrimSuffixColon chanField) in
  directive st ("CH"%string :: chanField :: field :: fields) =
    if c <? 0 then
      if 0 <? Tracker.Rows pat then None else Some st
    else
      match Tracker.Channels pat !! Z.to_nat c with
      | None => Some st
      | Some channel =>
          Some {| currentPattern :=
                    Some {| Tracker.Rows := Tracker.Rows pat;
                            Tracker.Channels :=
                              <[Z.to_nat c :=
                                  (parseTrackerNote <$>
                                     take (Z.to_nat (Tracker.Rows pat)) (field :: fields)) ++
                                  drop (length (field :: fields)) channel]>
                                (Tracker.Channels pat) |};
                  Patterns := Patterns st; Sequence := Sequence st |}
      end.
Proof.
  intros Hload Hcur c.
  destruct (load_wellFormed lines start st) as [_ Hwf];
    [split; [constructor | discriminate] | exact Hload |].
  destruct (Hwf pat Hcur) as [Hrect _].
  assert (Hst : {| currentPattern := Some pat; Patterns := Patterns st;
                   Sequence := Sequence st |} = st)
    by (destruct st; cbn in *; congruence).
  unfold directive. change (String.eqb "CH" "PATTERN") with false.
  change (String.eqb "CH" "CH") with true. cbv iota.
  unfold caseCH. rewrite Hcur.
  change (3 <=? len ("CH"%string :: chanField :: field :: fields))
    with (3 <=? Z.of_nat (S (S (S (length fields))))).
  destruct (Z.leb_spec 3 (Z.of_nat (S (S (S (length fields)))))); [|lia].
  change (index ("CH"%string :: chanField :: field :: fields) 1) with (Some chanField).
  cbn [mbind option_bind drop]. fold c.
  destruct (Z.ltb_spec c 0) as [Hneg|Hc].
  - cbn [chLoop].
    destruct (Z.ltb_spec 0 (Tracker.Rows pat)), (Z.leb_spec (Tracker.Rows pat) 0); try lia.
    + destruct (Z.ltb_spec c (len (Tracker.Channels pat))); [|unfold len in *; lia].
      assert (Hnone : index (Tracker.Channels pat) c = None)
        by (unfold index; destruct (Z.ltb_spec c 0); [reflexivity | lia]).
      rewrite Hnone. reflexivity.
    + cbn. rewrite Hst. reflexivity.
  - destruct (Tracker.Channels pat !! Z.to_nat c) as [channel|] eqn:Hch.
    + rewrite (chLoop_spec _ pat c 0 channel Hrect ltac:(lia) Hc Hch). cbn [mbind option_bind].
      pose proof (proj1 (Forall_lookup _ _) Hrect _ _ Hch) as Hlen. cbn in Hlen.
      unfold len in Hlen.
      do 4 f_equal. change (Z.to_nat 0) with 0%nat. rewrite take_0, Z.sub_0_r. cbn [app Nat.add].
      f_equal.
      destruct (le_lt_dec (length (field :: fields)) (Z.to_nat (Tracker.Rows pat))).
      * rewrite take_ge by lia. reflexivity.
      * rewrite !drop_ge; [reflexivity | lia | rewrite length_take; lia].
    + rewrite chLoop_beyond by (apply lookup_ge_None in Hch; unfold len; lia).
      cbn. rewrite Hst. reflexivity.
Qed.

End LoaderFacts.

(** The open pattern of [smallFile] before its first CH line, and the
    line "CH 1: --- A#3 C-5". *)
Lemma ch_directive_witness :
  let lines := take 2 LoaderSpec.smallFile in
  let st := default TrackerFile.start (TrackerFile.load TrackerFile.start lines) in
  let pat := default {| Tracker.Rows := 0; Tracker.Channels := [] |}
               (TrackerFile.currentPattern st) in
  let c := TrackerFile.Atoi (TrackerFile.TrimSuffixColon "1:") in
  TrackerFile.directive st ["CH"; "1:"; "---"; "A#3"; "C-5"]%string =
    if c <? 0 then
      if 0 <? Tracker.Rows pat then None else Some st
    else
      match Tracker.Channels pat !! Z.to_nat c with
      | None => Some st
      | Some channel =>
          Some {| TrackerFile.currentPattern :=
                    Some {| Tracker.Rows := Tracker.Rows pat;
                            Tracker.Channels :=
                              <[Z.to_nat c :=
                                  (TrackerFile.parseTrackerNote <$>
                                     take (Z.to_nat (Tracker.Rows pat))
                                       ["---"; "A#3"; "C-5"]%string) ++
                                  drop (length ["---"; "A#3"; "C-5"]%string) channel]>
                                (Tracker.Channels pat) |};
                  TrackerFile.Patterns := TrackerFile.Patterns st;
                  TrackerFile.Sequence := TrackerFile.Sequence st |}
      end.
Proof.
  apply (ch_directive (take 2 LoaderSpec.smallFile)); vm_compute; reflexivity.
Defined.

(** The file [smallFile]. *)
Lemma loaded_patterns_are_rectangular_witness :
  let st := default TrackerFile.start (TrackerFile.load TrackerFile.start LoaderSpec.smallFile) in
  Forall LoaderSpec.wellFormed (TrackerFile.Patterns st) /\
  forall pat, TrackerFile.currentPattern st = Some pat -> LoaderSpec.wellFormed pat.
Proof.
  apply (loaded_patterns_are_rectangular LoaderSpec.smallFile). vm_compute. reflexivity.
Defined.

(** ** Note names *)

Section NoteNames.
Import GoString.

Lemma noteValueOf_range c v : noteValueOf c = Some v -> 0 <= v <= 11.
Proof.
  unfold noteValueOf.
  repeat match goal with |- context [Ascii.eqb ?a ?b] => destruct (Ascii.eqb a b) end;
    intros [= <-]; lia.
Qed.

Lemma ParseNote_bounds (noteStr : string) : -1 <= ParseNote noteStr <= 108.
Proof.
  destruct noteStr as [|noteName [|c1 [|c2 rest]]]; cbn [ParseNote]; try lia.
  set (octave := byte_sub (byte_of c2) (byte_of "0")).
  assert (Ho : 0 <= octave < 256) by (apply Z.mod_pos_bound; lia).
  destruct (Z.ltb_spec octave 0), (Z.ltb_spec 8 octave); cbn [orb]; try lia.
  destruct (noteValueOf noteName) as [v|] eqn:Hv; [|lia].
  apply noteValueOf_range in Hv.
  assert (Hmin : int_min = - 2 ^ 63) by reflexivity.
  assert (Hmax : int_max = 2 ^ 63 - 1) by reflexivity.
  rewrite (wrap_small (octave * 12)) by lia.
  destruct (Ascii.eqb c1 "#").
  - rewrite (wrap_small (v + 1)) by lia. rewrite wrap_small by lia. lia.
  - rewrite wrap_small by lia. lia.
Qed.

(** [ParseNote] returns -1 or a note number from 0 to 108, whatever the
    string: never the note-off value -2, and -1 for every string shorter
    than three bytes.  108 is reached ("B#8"). *)
Theorem ParseNote_range (noteStr : string) :
  -1 <= ParseNote noteStr <= 108 /\
  ((String.length noteStr < 3)%nat -> ParseNote noteStr = -1) /\
  ParseNote "B#8" = 108.
Proof.
  split; [apply ParseNote_bounds|]. split; [|reflexivity].
  destruct noteStr as [|noteName [|c1 [|c2 rest]]]; cbn [String.length]; intros Hl;
    try reflexivity. lia.
Qed.

Lemma FormatNote_total note :
  0 <= note ->
  exists name, name ∈ noteNames /\
    FormatNote note =
      Some (String.append name
              (string_of_rune (rune_of_int (wrap (byte_of "0" + Z.quot note 12))))).
Proof.
  intros Hn. unfold FormatNote.
  destruct (Z.ltb_spec note 0); [lia|].
  pose proof (Z.rem_bound_pos note 12 Hn ltac:(lia)) as Hr.
  destruct (index_in_range noteNames (Z.rem note 12)) as [name Hname]; [exact Hr|].
  rewrite Hname. exists name. split; [|reflexivity].
  apply index_Some in Hname as [_ Hname]. eapply list_elem_of_lookup_2, Hname.
Qed.

Lemma round_trip_table :
  forallb (fun n => match FormatNote n with
                    | Some s => ParseNote s =? n
                    | None => false
                    end)
          (Z.of_nat <$> seq 0 108) = true.
Proof. vm_compute. reflexivity. Qed.

Lemma round_trip_in_range note :
  0 <= note < 108 -> exists s, FormatNote note = Some s /\ ParseNote s = note.
Proof.
  intros Hn. pose proof round_trip_table as Ht. rewrite forallb_forall in Ht.
  specialize (Ht note). destruct (FormatNote note) as [s|].
  - exists s. split; [reflexivity|]. apply Z.eqb_eq, Ht.
    apply list_elem_of_In, list_elem_of_fmap. exists (Z.to_nat note).
    split; [lia|]. apply elem_of_seq. lia.
  - exfalso. assert (false = true); [|discriminate]. apply Ht.
    apply list_elem_of_In, list_elem_of_fmap. exists (Z.to_nat note).
    split; [lia|]. apply elem_of_seq. lia.
Qed.

Lemma format_parse (note : Z) :
  exists s, FormatNote note = Some s /\
    (ParseNote s = note <-> -1 <= note <= 107).
Proof.
  destruct (Z.ltb_spec note 0) as [Hneg|Hpos].
  - exists "---"%string. unfold FormatNote.
    destruct (Z.ltb_spec note 0); [|lia]. split; [reflexivity|].
    change (ParseNote "---") with (-1). lia.
  - destruct (Z.ltb_spec note 108) as [Hin|Hout].
    + destruct (round_trip_in_range note ltac:(lia)) as (s & Hs & Hp).
      exists s. split; [exact Hs|]. rewrite Hp. lia.
    + destruct (Z.eq_dec note 108) as [->|Hne].
      * exists "C-9"%string. split; [reflexivity|].
        change (ParseNote "C-9") with (-1). lia.
      * destruct (FormatNote_total note Hpos) as (name & _ & Hs).
        eexists. split; [exact Hs|].
        match goal with |- ParseNote ?s = _ <-> _ =>
          pose proof (ParseNote_bounds s) end.
        lia.
Qed.

(** [FormatNote] returns a string for every number, and [ParseNote] gives
    the number back exactly for -1 (the rest) and for the notes 0 to 107
    (C-0 to B-8): the other negative numbers come back as -1, and no
    number from 108 on comes back as itself. *)
Theorem format_then_parse (note : Z) :
  exists s, FormatNote note = Some s /\
    (ParseNote s = note <-> -1 <= note <= 107) /\
    (note < 0 -> s = "---"%string) /\
    (0 <= note -> (3 <= String.length s)%nat).
Proof.
  destruct (format_parse note) as (s & Hs & Hp).
  exists s. split; [exact Hs|]. split; [exact Hp|]. split.
  - intros Hneg. unfold FormatNote in Hs.
    destruct (Z.ltb_spec note 0); [congruence | lia].
  - intros Hpos. destruct (FormatNote_total note Hpos) as (name & Hname & Hs').
    rewrite Hs in Hs'. injection Hs' as ->.
    unfold noteNames in Hname. rewrite !elem_of_cons, elem_of_nil in Hname.
    unfold string_of_rune.
    decompose [or] Hname; try contradiction; subst name;
      repeat match goal with |- context [if ?b then _ else _] => destruct b end;
      simpl String.length; lia.
Qed.

End NoteNames.

(** ** Note fields of a VTM file *)

Section NoteFields.
Import GoString TrackerFile.

Lemma noteNames_not_special name r :
  name ∈ noteNames ->
  let s := String.append name r in
  (String.eqb s "---" || String.eqb s ".." || String.eqb s "...")%string = false /\
  (String.eqb s "===" || String.eqb s "OFF" || String.eqb s "off")%string = false.
Proof.
  unfold noteNames. rewrite !elem_of_cons, elem_of_nil.
  intros Hin. decompose [or] Hin; try contradiction; subst name; cbn; split; reflexivity.
Qed.

(** The note field that [SaveVTM] writes for a note, read back by
    [parseTrackerNote]: the note number survives exactly when it is -1
    (the rest) or from 0 to 107; a note-off (-2) comes back as a rest, no
    field that [SaveVTM] writes is read as a note-off, and every note
    comes back with instrument 0, volume 1.0 and no chord. *)
Theorem saved_note_field_read_back (note : Tracker.TrackerNote) :
  exists s, noteField note = Some s /\
    (Tracker.Note (parseTrackerNote s) = Tracker.Note note <-> -1 <= Tracker.Note note <= 107) /\
    Tracker.Note (parseTrackerNote s) <> -2 /\
    (Tracker.Note note = -2 -> Tracker.Note (parseTrackerNote s) = -1) /\
    Tracker.Instrument_ (parseTrackerNote s) = 0 /\
    Tracker.Volume (parseTrackerNote s) = f1.0 /\
    Tracker.Chord (parseTrackerNote s) = [].
Proof.
  assert (Hrec : forall s, Tracker.Instrument_ (parseTrackerNote s) = 0 /\
                           Tracker.Volume (parseTrackerNote s) = f1.0 /\
                           Tracker.Chord (parseTrackerNote s) = []).
  { intros s. unfold parseTrackerNote.
    destruct (_ || _ || _)%bool; [auto|]. destruct (_ || _ || _)%bool; auto. }
  unfold noteField. destruct (Z.ltb_spec (Tracker.Note note) 0) as [Hneg|Hpos].
  - exists "---"%string. split; [reflexivity|].
    change (Tracker.Note (parseTrackerNote "---")) with (-1).
    split; [lia|]. split; [lia|]. split; [reflexivity|]. apply Hrec.
  - destruct (FormatNote_total _ Hpos) as (name & Hname & Hs).
    destruct (format_parse (Tracker.Note note)) as (s & Hs' & Hp).
    exists s. split; [exact Hs'|].
    assert (Hnote : Tracker.Note (parseTrackerNote s) = ParseNote s).
    { rewrite Hs in Hs'. injection Hs' as <-.
      destruct (noteNames_not_special name
                  (string_of_rune (rune_of_int (wrap (byte_of "0" + Z.quot (Tracker.Note note) 12))))
                  Hname) as [H1 H2].
      unfold parseTrackerNote. cbv zeta in H1, H2. rewrite H1, H2. reflexivity. }
    rewrite Hnote. destruct (ParseNote_bounds s) as [Hlo Hhi].
    split; [exact Hp|]. split; [lia|]. split; [lia|]. apply Hrec.
Qed.

End NoteFields.
